(** * Present-proof protocol manager and revocation admin routes

    A shallow embedding of
    [aries_cloudagent/protocols/present_proof/v1_0/manager.py] and
    [aries_cloudagent/revocation/routes.py].

    Coroutines are embedded as computations in a state-and-exception monad:
    the state is the persisted record store together with the log of calls
    made to the injected collaborators (holder, ledger, verifier, responder,
    storage); a raised exception leaves the state as it was when it was
    raised, exactly as in Python. *)

From stdpp Require Import base option list strings gmap pretty relations.

Open Scope Z_scope.
Open Scope string_scope.

(** ** Exceptions and the effect monad *)

Inductive Error :=
| KeyError (key : string)
| IndexError
| TypeError
| UnboundLocalError
| AttributeError
| PresentationManagerError (msg : string)
| ProtocolError
| StorageNotFoundError
| StorageDuplicateError
| StorageError
| LedgerError
| HolderError
| VerifierError
| ResponderError
| IndyError
| RevocationNotSupportedError
| HTTPNotFound
| HTTPBadRequest.

Inductive result (A : Type) :=
| Ok (a : A)
| Raise (e : Error).
Arguments Ok {A} a.
Arguments Raise {A} e.

Definition M (W A : Type) : Type := W → result A * W.

Global Instance M_ret {W} : MRet (M W) := λ A a w, (Ok a, w).
Global Instance M_bind {W} : MBind (M W) := λ A B f m w,
  match m w with
  | (Ok a, w') => f a w'
  | (Raise e, w') => (Raise e, w')
  end.
Global Instance M_throw {W} : MThrow Error (M W) := λ A e w, (Raise e, w).

Definition get {W} : M W W := λ w, (Ok w, w).
Definition modify {W} (f : W → W) : M W unit := λ w, (Ok tt, f w).

(** Lift the answer of a collaborator into the monad. *)
Definition lift {W A} (r : result A) : M W A := λ w, (r, w).

(** [d[k]] on an absent key raises [KeyError]. *)
Definition getitem {W A} (k : string) (o : option A) : M W A :=
  match o with
  | Some a => mret a
  | None => mthrow (KeyError k)
  end.

(** A [for] loop threading an accumulator; the first exception ends it. *)
Fixpoint for_each {W A S} (body : S → A → M W S) (l : list A) (s : S) : M W S :=
  match l with
  | [] => mret s
  | x :: l' => s' ← body s x; for_each body l' s'
  end.

(** ** Python dictionaries whose iteration order is observed

    [dict] keeps insertion order; assigning to an existing key keeps the
    key's position. *)

Section OrderedDict.
Context {V : Type}.

Fixpoint dict_get (k : string) (d : list (string * V)) : option V :=
  match d with
  | [] => None
  | (k', v) :: d' => if decide (k = k') then Some v else dict_get k d'
  end.

Fixpoint dict_set (k : string) (v : V) (d : list (string * V)) : list (string * V) :=
  match d with
  | [] => [(k, v)]
  | (k', v') :: d' =>
      if decide (k = k') then (k, v) :: d' else (k', v') :: dict_set k v d'
  end.

Definition dict_mem (k : string) (d : list (string * V)) : bool :=
  bool_decide (is_Some (dict_get k d)).

Definition dict_keys (d : list (string * V)) : list string := d.*1.
Definition dict_values (d : list (string * V)) : list V := d.*2.
End OrderedDict.

(** Truthiness of an optional string ([None] and [""] are falsy). *)
Definition truthy_str (o : option string) : bool :=
  match o with
  | Some s => negb (bool_decide (s = ""))
  | None => false
  end.

(** [l[i]] on a Python list: negative indices count from the end; an index
    out of range raises [IndexError]. *)
Definition py_index {A} (l : list A) (i : Z) : option A :=
  let n := Z.of_nat (length l) in
  let j := if bool_decide (i < 0) then i + n else i in
  if bool_decide (0 ≤ j < n) then l !! Z.to_nat j else None.

Definition list_getitem {W A} (l : list A) (i : Z) : M W A :=
  match py_index l i with
  | Some a => mret a
  | None => mthrow IndexError
  end.

(** * The presentation manager ([manager.py]) *)

Module PresentProof.

(** ** Data model *)

(** A non-revocation interval: a JSON object with optional keys ["from"]
    and ["to"]. *)
Record Window := { w_from : option Z; w_to : option Z }.

(** Truthiness of an interval object: an empty dict is falsy. *)
Definition window_truthy (w : Window) : bool :=
  bool_decide (is_Some (w_from w)) || bool_decide (is_Some (w_to w)).

(** Truthiness of a value that is either absent ([None]) or an interval. *)
Definition opt_window_truthy (o : option Window) : bool :=
  match o with
  | Some w => window_truthy w
  | None => false
  end.

(** An entry of [requested_attributes] / [requested_predicates] in an indy
    proof request; [None] stands for an absent key. *)
Record RequestedItem := {
  ri_name : option string;
  ri_non_revoked : option Window
}.

Record ProofRequest := {
  pr_name : string;
  pr_version : string;
  pr_nonce : string;
  pr_requested_attributes : gmap string RequestedItem;
  pr_requested_predicates : gmap string RequestedItem;
  pr_non_revoked : option Window
}.

(** The [requested_credentials] argument of [create_presentation]. *)
Record CredChoice := { cc_cred_id : string; cc_revealed : bool }.

Record RequestedCredentials := {
  rc_self_attested_attributes : list (string * string);
  rc_requested_attributes : list (string * CredChoice);
  rc_requested_predicates : list (string * CredChoice)
}.

(** What [holder.get_credential] returns. *)
Record Credential := {
  schema_id : string;
  cred_def_id : string;
  rev_reg_id : option string;
  cred_rev_id : option string
}.

(** An indy proof, as far as the manager looks into it. *)
Record RevealedAttr := {
  sub_proof_index : Z;
  raw : string;
  encoded : string
}.

Record Identifier := {
  id_schema_id : string;
  id_cred_def_id : string
}.

Record IndyProof := {
  revealed_attrs : list (string * RevealedAttr);
  identifiers : list Identifier
}.

(** A presentation preview: the attribute specifications of a proposal. *)
Record AttrSpec := {
  as_cred_def_id : string;
  as_name : string;
  as_value : string
}.

Record PresentationPreview := { attributes : list AttrSpec }.

(** A presentation proposal message and its serialised form. *)
Record PresentationProposal := {
  pp_id : string;
  pp_thread : option string;
  pp_comment : option string;
  presentation_proposal : PresentationPreview
}.

Inductive Initiator := INITIATOR_SELF | INITIATOR_EXTERNAL.
Inductive Role := ROLE_PROVER | ROLE_VERIFIER.
Inductive State :=
| STATE_PROPOSAL_SENT
| STATE_PROPOSAL_RECEIVED
| STATE_REQUEST_SENT
| STATE_REQUEST_RECEIVED
| STATE_PRESENTATION_SENT
| STATE_PRESENTATION_RECEIVED
| STATE_VERIFIED
| STATE_PRESENTATION_ACKED.

(** A dynamically typed field value, for the [verified] field. *)
Inductive PyValue :=
| PyNone
| PyBool (b : bool)
| PyStr (s : string).

Record V10PresentationExchange := {
  presentation_exchange_id : option nat;
  connection_id : option string;
  thread_id : option string;
  initiator : option Initiator;
  role : option Role;
  state : option State;
  presentation_proposal_dict : option PresentationProposal;
  presentation_request : option ProofRequest;
  presentation : option IndyProof;
  verified : PyValue;
  auto_present : option bool
}.

Global Instance Window_eq_dec : EqDecision Window.
Proof. solve_decision. Defined.
Global Instance State_eq_dec : EqDecision State.
Proof. solve_decision. Defined.
Global Instance AttrSpec_eq_dec : EqDecision AttrSpec.
Proof. solve_decision. Defined.

(** Field assignments on a record object. *)
Definition set_state (s : State) (r : V10PresentationExchange) :=
  {| presentation_exchange_id := presentation_exchange_id r;
     connection_id := connection_id r; thread_id := thread_id r;
     initiator := initiator r; role := role r; state := Some s;
     presentation_proposal_dict := presentation_proposal_dict r;
     presentation_request := presentation_request r;
     presentation := presentation r; verified := verified r;
     auto_present := auto_present r |}.

Definition set_thread_id (t : option string) (r : V10PresentationExchange) :=
  {| presentation_exchange_id := presentation_exchange_id r;
     connection_id := connection_id r; thread_id := t;
     initiator := initiator r; role := role r; state := state r;
     presentation_proposal_dict := presentation_proposal_dict r;
     presentation_request := presentation_request r;
     presentation := presentation r; verified := verified r;
     auto_present := auto_present r |}.

Definition set_presentation_request (q : option ProofRequest)
    (r : V10PresentationExchange) :=
  {| presentation_exchange_id := presentation_exchange_id r;
     connection_id := connection_id r; thread_id := thread_id r;
     initiator := initiator r; role := role r; state := state r;
     presentation_proposal_dict := presentation_proposal_dict r;
     presentation_request := q;
     presentation := presentation r; verified := verified r;
     auto_present := auto_present r |}.

Definition set_presentation (p : IndyProof) (r : V10PresentationExchange) :=
  {| presentation_exchange_id := presentation_exchange_id r;
     connection_id := connection_id r; thread_id := thread_id r;
     initiator := initiator r; role := role r; state := state r;
     presentation_proposal_dict := presentation_proposal_dict r;
     presentation_request := presentation_request r;
     presentation := Some p; verified := verified r;
     auto_present := auto_present r |}.

Definition set_verified (v : PyValue) (r : V10PresentationExchange) :=
  {| presentation_exchange_id := presentation_exchange_id r;
     connection_id := connection_id r; thread_id := thread_id r;
     initiator := initiator r; role := role r; state := state r;
     presentation_proposal_dict := presentation_proposal_dict r;
     presentation_request := presentation_request r;
     presentation := presentation r; verified := v;
     auto_present := auto_present r |}.

Definition set_id (i : nat) (r : V10PresentationExchange) :=
  {| presentation_exchange_id := Some i;
     connection_id := connection_id r; thread_id := thread_id r;
     initiator := initiator r; role := role r; state := state r;
     presentation_proposal_dict := presentation_proposal_dict r;
     presentation_request := presentation_request r;
     presentation := presentation r; verified := verified r;
     auto_present := auto_present r |}.

(** Assignment to [presentation_request["non_revoked"]] through an alias of
    that dict object. *)
Definition set_pr_non_revoked (w : option Window) (q : ProofRequest) :=
  {| pr_name := pr_name q; pr_version := pr_version q; pr_nonce := pr_nonce q;
     pr_requested_attributes := pr_requested_attributes q;
     pr_requested_predicates := pr_requested_predicates q;
     pr_non_revoked := w |}.

(** ** Messages *)

Record PresentationRequest := {
  rq_id : string;
  rq_thread : option string;
  rq_comment : option string;
  request_presentations_attach : ProofRequest
}.

Record Presentation := {
  pm_id : string;
  pm_thread : option string;
  pm_comment : option string;
  presentations_attach : IndyProof
}.

Record PresentationAck := {
  ack_id : string;
  ack_thread : option string
}.

(** [AgentMessage._thread_id]: the thread decorator's [thid] when there is
    one, the message's own id otherwise. *)
Definition msg_thread_id (id : string) (thread : option string) : string :=
  default id thread.

(** ** Collaborators and the world *)

Inductive Event :=
| EvHolderGetCredential (cred_id : string)
| EvLedgerGetSchema (id : string)
| EvLedgerGetCredentialDefinition (id : string)
| EvLedgerGetRevocRegDef (id : string)
| EvLedgerGetRevocRegDelta (id : string) (from to : Z)
| EvRetrieveTails (id : string)
| EvCreateRevocationState (id : string) (cred_rev : option string)
    (delta : string) (timestamp : Z)
| EvHolderCreatePresentation
| EvVerifierVerifyPresentation
| EvSave (r : V10PresentationExchange) (reason : string)
| EvSendReply (ack : PresentationAck)
| EvLogWarning (thread : option string).

Record World := {
  store : list V10PresentationExchange;
  trace : list Event
}.

Definition log (e : Event) : M World unit :=
  modify (λ w, {| store := store w; trace := trace w ++ [e] |}).

(** The injected capabilities and the request context. Each answers a call
    with a value or an exception. *)
Record Context := {
  holder_get_credential : string → result Credential;
  holder_create_presentation :
    ProofRequest → RequestedCredentials → gmap string string →
    gmap string string → gmap string (gmap Z string) → result IndyProof;
  ledger_get_schema : string → result string;
  ledger_get_credential_definition : string → result string;
  ledger_get_revoc_reg_def : string → result string;
  ledger_get_revoc_reg_delta : string → Z → Z → result (string * Z);
  has_local_tail_file : string → bool;
  retrieve_tails : string → result unit;
  create_revocation_state :
    string → option string → string → Z → result string;
  verifier_verify_presentation :
    option ProofRequest → IndyProof → gmap string string →
    gmap string string → result bool;
  responder : option (PresentationAck → result unit);
  storage_save_error : V10PresentationExchange → option Error;
  preview_indy_proof_request :
    PresentationPreview → option string → option string → option string →
    result ProofRequest;
  current_time : Z;
  new_message_id : string;
  (** [context.connection_record], reduced to its [connection_id] *)
  ctx_connection_record : option string
}.

(** ** The record store

    The storage engine is a collaborator of the manager; its code is not
    part of the two modules embedded here. *)

(** Modelled from the spec: [V10PresentationExchange.save] (section 4.1,
    "persists current field values"). A record without an id is added under
    a fresh id, a record with an id replaces the stored one. A storage
    failure raises before anything is written. *)
Definition save (ctx : Context) (r : V10PresentationExchange)
    (reason : string) : M World V10PresentationExchange :=
  match storage_save_error ctx r with
  | Some e => mthrow e
  | None =>
      w ← get;
      match presentation_exchange_id r with
      | None =>
          let r' := set_id (length (store w)) r in
          modify (λ w, {| store := store w ++ [r'];
                          trace := trace w ++ [EvSave r' reason] |});;
          mret r'
      | Some i =>
          if bool_decide (i < length (store w))%nat then
            modify (λ w, {| store := <[i := r]> (store w);
                            trace := trace w ++ [EvSave r reason] |});;
            mret r
          else mthrow StorageNotFoundError
      end
  end.

Definition tag_match (thread : string) (conn : option string)
    (r : V10PresentationExchange) : bool :=
  bool_decide (thread_id r = Some thread) &&
  match conn with
  | Some c => bool_decide (connection_id r = Some c)
  | None => true
  end.

(** Modelled from the spec: [V10PresentationExchange.retrieve_by_tag_filter]
    (section 4.1, "returns exactly one record or fails with
    NotFound/Ambiguous"). *)
Definition retrieve_by_tag_filter (thread : string) (conn : option string)
    : M World V10PresentationExchange :=
  w ← get;
  match filter (λ r, tag_match thread conn r = true) (store w) with
  | [] => mthrow StorageNotFoundError
  | [r] => mret r
  | _ => mthrow StorageDuplicateError
  end.

(** Modelled from the spec: [PresentationProposal.deserialize], whose code
    is not in the embedded modules. Section 4.2 and section 7 say that an
    operation needing the stored proposal fails with [ProtocolError] when
    none is stored. *)
Definition deserialize (d : option PresentationProposal)
    : result PresentationProposal :=
  match d with
  | Some p => Ok p
  | None => Raise ProtocolError
  end.

(** Modelled from the spec: [PresentationPreview.has_attr_spec] (section
    4.4: the preview "contains an attribute specification with that exact
    (cred_def_id, name, value) triple"). *)
Definition has_attr_spec (preview : PresentationPreview)
    (cred_def_id name value : string) : bool :=
  bool_decide
    ({| as_cred_def_id := cred_def_id; as_name := name; as_value := value |}
       ∈ attributes preview).

(** [json.dumps] on a boolean. *)
Definition json_dumps_bool (b : bool) : string :=
  if b then "true" else "false".

(** ** Record-creating operations *)

Definition new_record : V10PresentationExchange :=
  {| presentation_exchange_id := None; connection_id := None;
     thread_id := None; initiator := None; role := None; state := None;
     presentation_proposal_dict := None; presentation_request := None;
     presentation := None; verified := PyNone; auto_present := None |}.

Definition create_exchange_for_proposal (ctx : Context)
    (conn : option string) (msg : PresentationProposal)
    (auto : option bool) : M World V10PresentationExchange :=
  let presentation_exchange_record :=
    {| presentation_exchange_id := None;
       connection_id := conn;
       thread_id := Some (msg_thread_id (pp_id msg) (pp_thread msg));
       initiator := Some INITIATOR_SELF;
       role := Some ROLE_PROVER;
       state := Some STATE_PROPOSAL_SENT;
       presentation_proposal_dict := Some msg;
       presentation_request := None; presentation := None;
       verified := PyNone;
       auto_present := auto |} in
  save ctx presentation_exchange_record "create presentation proposal".

Definition receive_proposal (ctx : Context) (msg : PresentationProposal)
    : M World V10PresentationExchange :=
  match ctx_connection_record ctx with
  | None => mthrow AttributeError
  | Some conn =>
      let presentation_exchange_record :=
        {| presentation_exchange_id := None;
           connection_id := Some conn;
           thread_id := Some (msg_thread_id (pp_id msg) (pp_thread msg));
           initiator := Some INITIATOR_EXTERNAL;
           role := Some ROLE_VERIFIER;
           state := Some STATE_PROPOSAL_RECEIVED;
           presentation_proposal_dict := Some msg;
           presentation_request := None; presentation := None;
           verified := PyNone;
           auto_present := None |} in
      save ctx presentation_exchange_record "receive presentation request"
  end.

Definition create_exchange_for_request (ctx : Context)
    (conn : option string) (msg : PresentationRequest)
    : M World V10PresentationExchange :=
  let presentation_exchange_record :=
    {| presentation_exchange_id := None;
       connection_id := conn;
       thread_id := Some (msg_thread_id (rq_id msg) (rq_thread msg));
       initiator := Some INITIATOR_SELF;
       role := Some ROLE_VERIFIER;
       state := Some STATE_REQUEST_SENT;
       presentation_proposal_dict := None;
       presentation_request := Some (request_presentations_attach msg);
       presentation := None;
       verified := PyNone;
       auto_present := None |} in
  save ctx presentation_exchange_record "create (free) presentation request".

(** ** Operations on an existing record *)

Definition create_bound_request (ctx : Context)
    (presentation_exchange_record : V10PresentationExchange)
    (name version nonce comment : option string)
    : M World (V10PresentationExchange * PresentationRequest) :=
  proposal ← lift (deserialize
    (presentation_proposal_dict presentation_exchange_record));
  indy_proof_request ← lift (preview_indy_proof_request ctx
    (presentation_proposal proposal) name version nonce);
  let presentation_request_message :=
    {| rq_id := new_message_id ctx;
       rq_thread := thread_id presentation_exchange_record;
       rq_comment := comment;
       request_presentations_attach := indy_proof_request |} in
  let r1 := set_thread_id
    (Some (msg_thread_id (rq_id presentation_request_message)
                         (rq_thread presentation_request_message)))
    presentation_exchange_record in
  let r2 := set_state STATE_REQUEST_SENT r1 in
  let r3 := set_presentation_request (Some indy_proof_request) r2 in
  r4 ← save ctx r3 "create (bound) presentation request";
  mret (r4, presentation_request_message).

Definition receive_request (ctx : Context)
    (presentation_exchange_record : V10PresentationExchange)
    : M World V10PresentationExchange :=
  save ctx (set_state STATE_REQUEST_RECEIVED presentation_exchange_record)
    "receive presentation request".

(** ** [create_presentation] *)

(** An entry of the local [requested_referents] dict; [None] for
    [rf_non_revoked] is an absent ["non_revoked"] key. *)
Record Referented := {
  rf_cred_id : string;
  rf_non_revoked : option Window
}.

(** The body of the two loops that "extract credential ids and
    non_revoked". *)
Definition extract_referent_step (items : gmap string RequestedItem)
    (requested_referents : list (string * Referented))
    (rc : string * CredChoice) : M World (list (string * Referented)) :=
  item ← getitem rc.1 (items !! rc.1);
  mret (dict_set rc.1
          {| rf_cred_id := cc_cred_id rc.2;
             rf_non_revoked := ri_non_revoked item |} requested_referents).

Definition extract_referents (items : gmap string RequestedItem)
    (choices : list (string * CredChoice))
    (requested_referents : list (string * Referented))
    : M World (list (string * Referented)) :=
  for_each (extract_referent_step items) choices requested_referents.

(** The body of the loop that "extract[s the] mapping of presentation
    referents to credential ids". *)
Definition resolve_credential_step (ctx : Context)
    (credentials : list (string * Credential)) (rf : Referented)
    : M World (list (string * Credential)) :=
  let credential_id := rf_cred_id rf in
  if dict_mem credential_id credentials then mret credentials
  else
    log (EvHolderGetCredential credential_id);;
    c ← lift (holder_get_credential ctx credential_id);
    mret (dict_set credential_id c credentials).

Definition resolve_credentials (ctx : Context)
    (requested_referents : list (string * Referented))
    : M World (list (string * Credential)) :=
  for_each (resolve_credential_step ctx)
    (dict_values requested_referents) [].

Record LedgerObjects := {
  schemas : gmap string string;
  credential_definitions : gmap string string;
  revocation_registries : gmap string string
}.

(** One round of the loop over [credentials.values()]. *)
Definition resolve_ledger_step (ctx : Context) (lo : LedgerObjects)
    (credential : Credential) : M World LedgerObjects :=
  let sid := schema_id credential in
  schemas' ←
    match schemas lo !! sid with
    | Some _ => mret (schemas lo)
    | None =>
        log (EvLedgerGetSchema sid);;
        s ← lift (ledger_get_schema ctx sid);
        mret (<[sid := s]> (schemas lo))
    end;
  let cid := cred_def_id credential in
  cred_defs' ←
    match credential_definitions lo !! cid with
    | Some _ => mret (credential_definitions lo)
    | None =>
        log (EvLedgerGetCredentialDefinition cid);;
        d ← lift (ledger_get_credential_definition ctx cid);
        mret (<[cid := d]> (credential_definitions lo))
    end;
  rev_regs' ←
    (if truthy_str (rev_reg_id credential) then
       let rid := default "" (rev_reg_id credential) in
       match revocation_registries lo !! rid with
       | Some _ => mret (revocation_registries lo)
       | None =>
           log (EvLedgerGetRevocRegDef rid);;
           d ← lift (ledger_get_revoc_reg_def ctx rid);
           mret (<[rid := d]> (revocation_registries lo))
       end
     else mret (revocation_registries lo));
  mret {| schemas := schemas'; credential_definitions := cred_defs';
          revocation_registries := rev_regs' |}.

Definition resolve_ledger_objects (ctx : Context)
    (credentials : list Credential) : M World LedgerObjects :=
  for_each (resolve_ledger_step ctx) credentials
    {| schemas := ∅; credential_definitions := ∅;
       revocation_registries := ∅ |}.

(** A value of [revoc_reg_deltas]:
    [(rev_reg_id, credential_id, delta, delta_timestamp)]. *)
Record DeltaEntry := {
  de_rev_reg_id : string;
  de_credential_id : string;
  de_delta : string;
  de_timestamp : Z
}.

(** What the delta loop reads and writes: the dict object bound to
    [non_revoked_timespan] (it is the request's own ["non_revoked"] object,
    or [None]) and [revoc_reg_deltas]. *)
Record DeltaState := {
  ds_non_revoked : option Window;
  ds_deltas : list (string * DeltaEntry)
}.

(** [referented.get("non_revoked", non_revoked_timespan)] *)
Definition referent_non_revoked_timespan (referented : Referented)
    (non_revoked_timespan : option Window) : option Window :=
  match rf_non_revoked referented with
  | Some w => Some w
  | None => non_revoked_timespan
  end.

(** The two [if ... not in non_revoked_timespan] assignments. *)
Definition fill_defaults (current_timestamp : Z) (w : Window) : Window :=
  let w1 := match w_from w with
            | Some _ => w
            | None => {| w_from := Some 0; w_to := w_to w |}
            end in
  match w_to w1 with
  | Some _ => w1
  | None => {| w_from := w_from w1; w_to := Some current_timestamp |}
  end.

(** The f-string [f"{rev_reg_id}_{from}_{to}"]. *)
Definition delta_key (rev_reg_id : string) (from to : Z) : string :=
  rev_reg_id +:+ "_" +:+ pretty from +:+ "_" +:+ pretty to.

(** One round of the loop over [requested_referents.values()]. *)
Definition delta_step (ctx : Context) (credentials : list (string * Credential))
    (st : DeltaState) (referented : Referented) : M World DeltaState :=
  let credential_id := rf_cred_id referented in
  credential ← getitem credential_id (dict_get credential_id credentials);
  if negb (truthy_str (rev_reg_id credential)) then mret st
  else
    let rid := default "" (rev_reg_id credential) in
    if opt_window_truthy
         (referent_non_revoked_timespan referented (ds_non_revoked st))
    then
      match ds_non_revoked st with
      | None => mthrow TypeError
      | Some w =>
          let w' := fill_defaults (current_time ctx) w in
          from ← getitem "from" (w_from w');
          to ← getitem "to" (w_to w');
          let key := delta_key rid from to in
          if dict_mem key (ds_deltas st) then
            mret {| ds_non_revoked := Some w'; ds_deltas := ds_deltas st |}
          else
            log (EvLedgerGetRevocRegDelta rid from to);;
            dt ← lift (ledger_get_revoc_reg_delta ctx rid from to);
            mret {| ds_non_revoked := Some w';
                    ds_deltas :=
                      dict_set key
                        {| de_rev_reg_id := rid;
                           de_credential_id := credential_id;
                           de_delta := dt.1; de_timestamp := dt.2 |}
                        (ds_deltas st) |}
      end
    else mret st.

Definition fetch_deltas (ctx : Context)
    (credentials : list (string * Credential))
    (requested_referents : list (string * Referented))
    (non_revoked_timespan : option Window) : M World DeltaState :=
  for_each (delta_step ctx credentials) (dict_values requested_referents)
    {| ds_non_revoked := non_revoked_timespan; ds_deltas := [] |}.

(** One round of the loop over [revoc_reg_deltas.values()]. [credential]
    is the variable of that name as the loop over [credentials.values()]
    left it: unbound when that loop had no round. *)
Definition revocation_state_step (ctx : Context)
    (revocation_registries : gmap string string)
    (credential : option Credential)
    (revocation_states : gmap string (gmap Z string)) (e : DeltaEntry)
    : M World (gmap string (gmap Z string)) :=
  let rid := de_rev_reg_id e in
  let states1 :=
    match revocation_states !! rid with
    | Some _ => revocation_states
    | None => <[rid := ∅]> revocation_states
    end in
  _ ← getitem rid (revocation_registries !! rid);
  (if has_local_tail_file ctx rid then mret tt
   else log (EvRetrieveTails rid);; lift (retrieve_tails ctx rid));;
  c ← match credential with
      | Some c => mret c
      | None => mthrow UnboundLocalError
      end;
  log (EvCreateRevocationState rid (cred_rev_id c)
         (de_delta e) (de_timestamp e));;
  s ← lift (create_revocation_state ctx rid (cred_rev_id c)
              (de_delta e) (de_timestamp e));
  mret (<[rid := <[de_timestamp e := s]> (default ∅ (states1 !! rid))]>
          states1).

Definition create_revocation_states (ctx : Context)
    (revocation_registries : gmap string string)
    (credential : option Credential)
    (revoc_reg_deltas : list (string * DeltaEntry))
    : M World (gmap string (gmap Z string)) :=
  for_each (revocation_state_step ctx revocation_registries credential)
    (dict_values revoc_reg_deltas) ∅.

Definition create_presentation (ctx : Context)
    (presentation_exchange_record : V10PresentationExchange)
    (requested_credentials : RequestedCredentials)
    (comment : option string)
    : M World (V10PresentationExchange * Presentation) :=
  presentation_request ←
    match presentation_request presentation_exchange_record with
    | Some q => mret q
    | None =>
        (* [None["requested_attributes"]] at the first chosen referent;
           with no referent chosen, [None.get("non_revoked", None)] *)
        mthrow (match rc_requested_attributes requested_credentials,
                      rc_requested_predicates requested_credentials with
                | [], [] => AttributeError
                | _, _ => TypeError
                end)
    end;
  refs1 ← extract_referents (pr_requested_attributes presentation_request)
             (rc_requested_attributes requested_credentials) [];
  requested_referents ←
    extract_referents (pr_requested_predicates presentation_request)
      (rc_requested_predicates requested_credentials) refs1;
  credentials ← resolve_credentials ctx requested_referents;
  lo ← resolve_ledger_objects ctx (dict_values credentials);
  let credential := last (dict_values credentials) in
  ds ← fetch_deltas ctx credentials requested_referents
         (pr_non_revoked presentation_request);
  revocation_states ←
    create_revocation_states ctx (revocation_registries lo) credential
      (ds_deltas ds);
  (* the request object, as the assignments through its alias left it *)
  let request_now := set_pr_non_revoked (ds_non_revoked ds) presentation_request in
  log EvHolderCreatePresentation;;
  indy_proof ← lift (holder_create_presentation ctx request_now
                       requested_credentials (schemas lo)
                       (credential_definitions lo) revocation_states);
  let presentation_message :=
    {| pm_id := new_message_id ctx;
       pm_thread := thread_id presentation_exchange_record;
       pm_comment := comment;
       presentations_attach := indy_proof |} in
  let r1 := set_presentation_request (Some request_now)
              presentation_exchange_record in
  let r2 := set_state STATE_PRESENTATION_SENT r1 in
  let r3 := set_presentation indy_proof r2 in
  r4 ← save ctx r3 "create presentation";
  mret (r4, presentation_message).

(** ** [receive_presentation] *)

(** The body of the loop over [revealed_attrs.items()]: the check against
    bait-and-switch for one revealed attribute. *)
Definition check_revealed_attr (preview : PresentationPreview)
    (proof_req : option ProofRequest) (presentation : IndyProof)
    (_ : unit) (item : string * RevealedAttr) : M World unit :=
  let reft := item.1 in
  let attr_spec := item.2 in
  q ← match proof_req with
      | Some q => mret q
      | None => mthrow TypeError
      end;
  ri ← getitem reft (pr_requested_attributes q !! reft);
  name ← getitem "name" (ri_name ri);
  let value := raw attr_spec in
  ident ← list_getitem (identifiers presentation) (sub_proof_index attr_spec);
  if has_attr_spec preview (id_cred_def_id ident) name value then mret tt
  else mthrow (PresentationManagerError
         ("Presentation " +:+ name +:+ "=" +:+ value +:+
          " mismatches proposal value")).

(** The [(cred_def_id, name, value)] triple that the loop body looks up in
    the preview for one revealed attribute; [None] when one of the
    subscripts has nothing to return. *)
Definition revealed_triple (proof_req : option ProofRequest)
    (presentation : IndyProof) (item : string * RevealedAttr)
    : option AttrSpec :=
  q ← proof_req;
  ri ← pr_requested_attributes q !! item.1;
  name ← ri_name ri;
  ident ← py_index (identifiers presentation) (sub_proof_index item.2);
  Some {| as_cred_def_id := id_cred_def_id ident; as_name := name;
          as_value := raw item.2 |}.

Definition receive_presentation (ctx : Context) (message : Presentation)
    : M World V10PresentationExchange :=
  let presentation := presentations_attach message in
  let thread := msg_thread_id (pm_id message) (pm_thread message) in
  let connection_id_filter := ctx_connection_record ctx in
  presentation_exchange_record ←
    retrieve_by_tag_filter thread connection_id_filter;
  (match presentation_proposal_dict presentation_exchange_record with
   | Some d =>
       exchange_pres_proposal ← lift (deserialize (Some d));
       let presentation_preview :=
         presentation_proposal exchange_pres_proposal in
       let proof_req := presentation_request presentation_exchange_record in
       for_each (check_revealed_attr presentation_preview proof_req
                   presentation)
         (revealed_attrs presentation) tt
   | None => mret tt
   end);;
  let r1 := set_presentation presentation presentation_exchange_record in
  let r2 := set_state STATE_PRESENTATION_RECEIVED r1 in
  save ctx r2 "receive presentation".

(** ** [verify_presentation] and the acknowledgement *)

Definition send_presentation_ack (ctx : Context)
    (presentation_exchange_record : V10PresentationExchange)
    : M World unit :=
  match responder ctx with
  | Some send_reply =>
      let presentation_ack_message :=
        {| ack_id := new_message_id ctx;
           ack_thread := thread_id presentation_exchange_record |} in
      log (EvSendReply presentation_ack_message);;
      lift (send_reply presentation_ack_message)
  | None => log (EvLogWarning (thread_id presentation_exchange_record))
  end.

(** The body of the loop "Build schemas for anoncreds". *)
Definition fetch_schema_step (ctx : Context) (schemas : gmap string string)
    (schema_id : string) : M World (gmap string string) :=
  log (EvLedgerGetSchema schema_id);;
  schema ← lift (ledger_get_schema ctx schema_id);
  mret (<[schema_id := schema]> schemas).

Definition fetch_schemas (ctx : Context) (schema_ids : list string)
    : M World (gmap string string) :=
  for_each (fetch_schema_step ctx) schema_ids ∅.

(** The body of the loop "Build credential_definitions for anoncreds". *)
Definition fetch_credential_definition_step (ctx : Context)
    (credential_definitions : gmap string string)
    (credential_definition_id : string) : M World (gmap string string) :=
  log (EvLedgerGetCredentialDefinition credential_definition_id);;
  credential_definition ←
    lift (ledger_get_credential_definition ctx credential_definition_id);
  mret (<[credential_definition_id := credential_definition]>
          credential_definitions).

Definition fetch_credential_definitions (ctx : Context)
    (credential_definition_ids : list string) : M World (gmap string string) :=
  for_each (fetch_credential_definition_step ctx)
    credential_definition_ids ∅.

Definition verify_presentation (ctx : Context)
    (presentation_exchange_record : V10PresentationExchange)
    : M World V10PresentationExchange :=
  let indy_proof_request := presentation_request presentation_exchange_record in
  indy_proof ←
    match presentation presentation_exchange_record with
    | Some p => mret p
    | None => mthrow TypeError
    end;
  let schema_ids := id_schema_id <$> identifiers indy_proof in
  let credential_definition_ids := id_cred_def_id <$> identifiers indy_proof in
  schemas ← fetch_schemas ctx schema_ids;
  credential_definitions ←
    fetch_credential_definitions ctx credential_definition_ids;
  log EvVerifierVerifyPresentation;;
  b ← lift (verifier_verify_presentation ctx indy_proof_request indy_proof
              schemas credential_definitions);
  let r1 := set_verified (PyStr (json_dumps_bool b))
              presentation_exchange_record in
  let r2 := set_state STATE_VERIFIED r1 in
  r3 ← save ctx r2 "verify presentation";
  send_presentation_ack ctx r3;;
  mret r3.

(** ** [receive_presentation_ack] *)

Definition receive_presentation_ack (ctx : Context) (message : PresentationAck)
    : M World V10PresentationExchange :=
  let thread := msg_thread_id (ack_id message) (ack_thread message) in
  conn ← match ctx_connection_record ctx with
         | Some c => mret c
         | None => mthrow AttributeError
         end;
  presentation_exchange_record ← retrieve_by_tag_filter thread (Some conn);
  save ctx (set_state STATE_PRESENTATION_ACKED presentation_exchange_record)
    "receive presentation ack".

(** ** Vocabulary for stating properties *)

(** The world after further calls were logged. *)
Definition add_events (evs : list Event) (w : World) : World :=
  {| store := store w; trace := trace w ++ evs |}.

(** What [send_presentation_ack] logs. *)
Definition ack_events (ctx : Context) (r : V10PresentationExchange)
    : list Event :=
  match responder ctx with
  | Some _ => [EvSendReply {| ack_id := new_message_id ctx;
                              ack_thread := thread_id r |}]
  | None => [EvLogWarning (thread_id r)]
  end.

(** One schema fetch and one credential-definition fetch per entry of the
    proof's identifier list, in the order of the two loops. *)
Definition verify_fetch_events (p : IndyProof) : list Event :=
  (EvLedgerGetSchema <$> (id_schema_id <$> identifiers p)) ++
  (EvLedgerGetCredentialDefinition <$> (id_cred_def_id <$> identifiers p)).

(** The delta fetches among logged calls, as [(rev_reg_id, from, to)]. *)
Definition delta_fetches (evs : list Event) : list (string * Z * Z) :=
  omap (λ e, match e with
             | EvLedgerGetRevocRegDelta id from to => Some (id, from, to)
             | _ => None
             end) evs.


(** The credential ids chosen in [requested_credentials]. *)
Definition chosen_cred_ids (rc : RequestedCredentials) : list string :=
  (cc_cred_id <$> (rc_requested_attributes rc).*2) ++
  (cc_cred_id <$> (rc_requested_predicates rc).*2).

(** The request-level interval, once completed, is [F .. T]. *)
Definition window_fixed (now F T : Z) (o : option Window) : Prop :=
  ∀ w1, o = Some w1 →
    fill_defaults now w1 = {| w_from := Some F; w_to := Some T |}.

(** The interval seen by later rounds of the delta loop is the one seen
    now, or its completion. *)
Definition window_step (now : Z) (o o' : option Window) : Prop :=
  o' = o ∨ ∃ w1, o = Some w1 ∧ o' = Some (fill_defaults now w1).

(** [rid] is the non-empty registry id of a resolved credential. *)
Definition carried (creds : list (string * Credential)) (rid : string)
    : Prop :=
  ∃ cid c, dict_get cid creds = Some c ∧ rev_reg_id c = Some rid ∧ rid ≠ "".

Definition key_of (F T : Z) (rid : string) : string := delta_key rid F T.

Definition fetch_of (F T : Z) (rid : string) : Event :=
  EvLedgerGetRevocRegDelta rid F T.

(** What each phase of [create_presentation] may log. *)
Definition holder_event_ok (e : Event) : Prop :=
  ∃ k, e = EvHolderGetCredential k.

Definition ledger_event_ok (creds : list Credential) (e : Event) : Prop :=
  match e with
  | EvLedgerGetSchema _ | EvLedgerGetCredentialDefinition _ => True
  | EvLedgerGetRevocRegDef rid =>
      ∃ c, c ∈ creds ∧ rev_reg_id c = Some rid ∧ rid ≠ ""
  | _ => False
  end.

Definition state_event_ok (credential : option Credential)
    (rids : list string) (e : Event) : Prop :=
  match e with
  | EvRetrieveTails rid => rid ∈ rids
  | EvCreateRevocationState rid cr _ _ =>
      rid ∈ rids ∧ ∃ c, credential = Some c ∧ cr = cred_rev_id c
  | _ => False
  end.

Definition tail_event_ok (e : Event) : Prop :=
  match e with
  | EvHolderCreatePresentation | EvSave _ _ => True
  | _ => False
  end.

(** The ids of the schemas and of the credential definitions fetched from
    the ledger among logged calls. *)
Definition schema_fetches (evs : list Event) : list string :=
  omap (λ e, match e with
             | EvLedgerGetSchema id => Some id
             | _ => None
             end) evs.

Definition cred_def_fetches (evs : list Event) : list string :=
  omap (λ e, match e with
             | EvLedgerGetCredentialDefinition id => Some id
             | _ => None
             end) evs.

(** ** The state machine of section 4.5 *)

(** The two orderings of states named in section 4.5 of the
    specification. *)
Definition spec_prover_order : list State :=
  [STATE_PROPOSAL_SENT; STATE_REQUEST_RECEIVED; STATE_PRESENTATION_SENT].

Definition spec_verifier_order : list State :=
  [STATE_PROPOSAL_RECEIVED; STATE_REQUEST_SENT; STATE_PRESENTATION_RECEIVED;
   STATE_VERIFIED; STATE_PRESENTATION_ACKED].

Definition spec_role_order (ro : Role) : list State :=
  match ro with
  | ROLE_PROVER => spec_prover_order
  | ROLE_VERIFIER => spec_verifier_order
  end.

(** [s'] comes strictly before [s] in [order]. *)
Definition earlier (order : list State) (s' s : State) : Prop :=
  ∃ i j, order !! i = Some s' ∧ order !! j = Some s ∧ (i < j)%nat.

(** How far a record has come; a record that has no state yet is at 0. *)
Definition state_rank (s : option State) : nat :=
  match s with
  | None => 0
  | Some STATE_PROPOSAL_SENT | Some STATE_PROPOSAL_RECEIVED => 1
  | Some STATE_REQUEST_SENT | Some STATE_REQUEST_RECEIVED => 2
  | Some STATE_PRESENTATION_SENT | Some STATE_PRESENTATION_RECEIVED => 3
  | Some STATE_VERIFIED => 4
  | Some STATE_PRESENTATION_ACKED => 5
  end.

(** One manager operation on an existing record, applied to a record in the
    prior state that section 4.5 expects for it. The operations that look
    the record up act on the record they retrieve. A request may reach a
    record that has no state yet (a "free" request); the acknowledgement
    closes a verified exchange, and in the code it is the prover that
    receives it, on a record in state PRESENTATION_SENT. *)
Inductive valid_step :
    V10PresentationExchange * World → V10PresentationExchange * World → Prop :=
| step_create_bound_request ctx r w name version nonce comment r' msg w' :
    state r = Some STATE_PROPOSAL_RECEIVED →
    create_bound_request ctx r name version nonce comment w
      = (Ok (r', msg), w') →
    valid_step (r, w) (r', w')
| step_receive_request ctx r w r' w' :
    state r = Some STATE_PROPOSAL_SENT ∨ state r = None →
    receive_request ctx r w = (Ok r', w') →
    valid_step (r, w) (r', w')
| step_create_presentation ctx r w rc comment r' msg w' :
    state r = Some STATE_REQUEST_RECEIVED →
    create_presentation ctx r rc comment w = (Ok (r', msg), w') →
    valid_step (r, w) (r', w')
| step_receive_presentation ctx message r w r' w' :
    retrieve_by_tag_filter
      (msg_thread_id (pm_id message) (pm_thread message))
      (ctx_connection_record ctx) w = (Ok r, w) →
    state r = Some STATE_REQUEST_SENT →
    receive_presentation ctx message w = (Ok r', w') →
    valid_step (r, w) (r', w')
| step_verify_presentation ctx r w r' w' :
    state r = Some STATE_PRESENTATION_RECEIVED →
    verify_presentation ctx r w = (Ok r', w') →
    valid_step (r, w) (r', w')
| step_receive_presentation_ack ctx message conn r w r' w' :
    ctx_connection_record ctx = Some conn →
    retrieve_by_tag_filter
      (msg_thread_id (ack_id message) (ack_thread message))
      (Some conn) w = (Ok r, w) →
    state r = Some STATE_VERIFIED ∨ state r = Some STATE_PRESENTATION_SENT →
    receive_presentation_ack ctx message w = (Ok r', w') →
    valid_step (r, w) (r', w').

End PresentProof.

(** * The revocation registry admin routes ([routes.py]) *)

Module Routes.

(** An issuer revocation registry record, as far as the handlers use it. *)
Record IssuerRevocationRecord := {
  irr_cred_def_id : string;
  irr_issuer_did : string;
  irr_max_cred_num : option Z;
  tails_local_path : string;
  tails_public_uri : option string
}.

Definition set_tail_file_public_uri (uri : option string)
    (r : IssuerRevocationRecord) : IssuerRevocationRecord :=
  {| irr_cred_def_id := irr_cred_def_id r;
     irr_issuer_did := irr_issuer_did r;
     irr_max_cred_num := irr_max_cred_num r;
     tails_local_path := tails_local_path r;
     tails_public_uri := uri |}.

(** The parts of an aiohttp request the handlers read: the JSON body and
    the [id] path parameter. *)
Record Request := {
  body_credential_definition_id : option string;
  body_max_cred_num : option Z;
  body_tails_public_uri : option string;
  match_info_id : string
}.

Inductive Response :=
| json_response (result : IssuerRevocationRecord)
| FileResponse (path : string) (status : Z).

(** Calls on the collaborators: the first is a storage call, the others are
    operations of the revocation subsystem. *)
Inductive Event :=
| EvSearchRecords (type_filter : string) (cred_def_id : option string)
| EvInitIssuerRegistry (cred_def_id issuer_did : string)
    (max_cred_num : option Z)
| EvGetActiveIssuerRevocationRecord (cred_def_id : string)
| EvGenerateRegistry (r : IssuerRevocationRecord)
| EvPublishRegistryDefinition (r : IssuerRevocationRecord)
| EvPublishRegistryEntry (r : IssuerRevocationRecord)
| EvRecordSave (r : IssuerRevocationRecord) (reason : string).

Definition is_revocation_op (e : Event) : bool :=
  match e with
  | EvSearchRecords _ _ => false
  | _ => true
  end.

Record Context := {
  (** the imported constant [CRED_DEF_SENT_RECORD_TYPE] *)
  CRED_DEF_SENT_RECORD_TYPE : string;
  search_records : string → option string → result (list string);
  init_issuer_registry :
    string → string → option Z → result IssuerRevocationRecord;
  get_active_issuer_revocation_record :
    string → result IssuerRevocationRecord;
  generate_registry : IssuerRevocationRecord → result unit;
  publish_registry_definition : IssuerRevocationRecord → result unit;
  publish_registry_entry : IssuerRevocationRecord → result unit;
  record_save : IssuerRevocationRecord → result unit
}.

Definition log (e : Event) : M (list Event) unit :=
  modify (λ t : list Event, (t ++ [e])%list).

(** [try: ... except RevocationNotSupportedError as e:
    raise web.HTTPBadRequest() from e] *)
Definition bad_request_if_unsupported {A} (m : M (list Event) A)
    : M (list Event) A :=
  λ t, match m t with
       | (Raise RevocationNotSupportedError, t') => (Raise HTTPBadRequest, t')
       | other => other
       end.

(** The block under "check we published this cred def". *)
Definition check_published (ctx : Context)
    (credential_definition_id : option string) : M (list Event) unit :=
  log (EvSearchRecords (CRED_DEF_SENT_RECORD_TYPE ctx)
         credential_definition_id);;
  found ← lift (search_records ctx (CRED_DEF_SENT_RECORD_TYPE ctx)
                  credential_definition_id);
  match found with
  | [] => mthrow HTTPNotFound
  | _ => mret tt
  end.

(** [s.split(":")[0]] *)
Fixpoint split_colon_head (s : string) : string :=
  match s with
  | EmptyString => EmptyString
  | String c s' =>
      if decide (c = Ascii.Ascii false true false true true true false false) then EmptyString
      else String c (split_colon_head s')
  end.

Definition revocation_create_registry (ctx : Context) (request : Request)
    : M (list Event) Response :=
  let credential_definition_id := body_credential_definition_id request in
  let max_cred_num := body_max_cred_num request in
  check_published ctx credential_definition_id;;
  registry_record ← bad_request_if_unsupported (
    cd ← match credential_definition_id with
         | Some cd => mret cd
         | None => mthrow AttributeError
         end;
    let issuer_did := split_colon_head cd in
    log (EvInitIssuerRegistry cd issuer_did max_cred_num);;
    lift (init_issuer_registry ctx cd issuer_did max_cred_num));
  log (EvGenerateRegistry registry_record);;
  lift (generate_registry ctx registry_record);;
  mret (json_response registry_record).

Definition get_current_registry (ctx : Context) (request : Request)
    : M (list Event) Response :=
  let credential_definition_id := match_info_id request in
  check_published ctx (Some credential_definition_id);;
  registry_record ← bad_request_if_unsupported (
    log (EvGetActiveIssuerRevocationRecord credential_definition_id);;
    lift (get_active_issuer_revocation_record ctx credential_definition_id));
  mret (json_response registry_record).

Definition get_tail_file (ctx : Context) (request : Request)
    : M (list Event) Response :=
  let credential_definition_id := match_info_id request in
  check_published ctx (Some credential_definition_id);;
  registry_record ← bad_request_if_unsupported (
    log (EvGetActiveIssuerRevocationRecord credential_definition_id);;
    lift (get_active_issuer_revocation_record ctx credential_definition_id));
  mret (FileResponse (tails_local_path registry_record) 200).

Definition publish_registry (ctx : Context) (request : Request)
    : M (list Event) Response :=
  let credential_definition_id := match_info_id request in
  check_published ctx (Some credential_definition_id);;
  revoc_registry ← bad_request_if_unsupported (
    log (EvGetActiveIssuerRevocationRecord credential_definition_id);;
    lift (get_active_issuer_revocation_record ctx credential_definition_id));
  log (EvPublishRegistryDefinition revoc_registry);;
  lift (publish_registry_definition ctx revoc_registry);;
  log (EvPublishRegistryEntry revoc_registry);;
  lift (publish_registry_entry ctx revoc_registry);;
  mret (json_response revoc_registry).

Definition update_registry (ctx : Context) (request : Request)
    : M (list Event) Response :=
  let credential_definition_id := match_info_id request in
  let tails_public_uri := body_tails_public_uri request in
  registry_record ← bad_request_if_unsupported (
    log (EvGetActiveIssuerRevocationRecord credential_definition_id);;
    lift (get_active_issuer_revocation_record ctx credential_definition_id));
  let registry_record' :=
    set_tail_file_public_uri tails_public_uri registry_record in
  log (EvRecordSave registry_record' "Updating tail file public URI.");;
  lift (record_save ctx registry_record');;
  mret (json_response registry_record').

End Routes.

(** * Concrete scenarios *)

Module Scenario.
Import PresentProof.

Definition cred_a : Credential :=
  {| schema_id := "S1"; cred_def_id := "D1";
     rev_reg_id := Some "R1"; cred_rev_id := Some "1" |}.
Definition cred_b : Credential :=
  {| schema_id := "S1"; cred_def_id := "D1";
     rev_reg_id := Some "R2"; cred_rev_id := Some "2" |}.
Definition cred_c : Credential :=
  {| schema_id := "S2"; cred_def_id := "D2";
     rev_reg_id := Some "R1"; cred_rev_id := Some "3" |}.
Definition cred_plain : Credential :=
  {| schema_id := "S3"; cred_def_id := "D3";
     rev_reg_id := None; cred_rev_id := None |}.

Definition age_item (w : option Window) : RequestedItem :=
  {| ri_name := Some "age"; ri_non_revoked := w |}.

Definition request_of (attrs : gmap string RequestedItem)
    (w : option Window) : ProofRequest :=
  {| pr_name := "proof"; pr_version := "1.0"; pr_nonce := "1";
     pr_requested_attributes := attrs;
     pr_requested_predicates := ∅;
     pr_non_revoked := w |}.

Definition proof_shared_ids : IndyProof :=
  {| revealed_attrs := [];
     identifiers := [ {| id_schema_id := "S1"; id_cred_def_id := "D1" |};
                      {| id_schema_id := "S1"; id_cred_def_id := "D1" |} ] |}.

(** A context in which every collaborator answers. *)
Definition ctx : Context :=
  {| holder_get_credential := λ id,
       if decide (id = "cred-a") then Ok cred_a
       else if decide (id = "cred-b") then Ok cred_b
       else if decide (id = "cred-c") then Ok cred_c
       else if decide (id = "cred-plain") then Ok cred_plain
       else Raise HolderError;
     holder_create_presentation := λ _ _ _ _ _, Ok proof_shared_ids;
     ledger_get_schema := λ id, Ok ("schema " +:+ id);
     ledger_get_credential_definition := λ id, Ok ("cred_def " +:+ id);
     ledger_get_revoc_reg_def := λ id, Ok ("rev_reg_def " +:+ id);
     ledger_get_revoc_reg_delta := λ id _ t, Ok ("delta " +:+ id, t);
     has_local_tail_file := λ _, true;
     retrieve_tails := λ _, Ok tt;
     create_revocation_state := λ id cr _ _,
       Ok ("state " +:+ id +:+ " " +:+ default "" cr);
     verifier_verify_presentation := λ _ _ _ _, Ok true;
     responder := Some (λ _, Ok tt);
     storage_save_error := λ _, None;
     preview_indy_proof_request := λ _ _ _ _,
       Ok (request_of {[ "a1" := age_item None ]} None);
     current_time := 1000;
     new_message_id := "msg-1";
     ctx_connection_record := Some "conn-1" |}.


(** The same context with a storage that refuses every write. *)
Definition ctx_storage_down : Context :=
  {| holder_get_credential := holder_get_credential ctx;
     holder_create_presentation := holder_create_presentation ctx;
     ledger_get_schema := ledger_get_schema ctx;
     ledger_get_credential_definition := ledger_get_credential_definition ctx;
     ledger_get_revoc_reg_def := ledger_get_revoc_reg_def ctx;
     ledger_get_revoc_reg_delta := ledger_get_revoc_reg_delta ctx;
     has_local_tail_file := has_local_tail_file ctx;
     retrieve_tails := retrieve_tails ctx;
     create_revocation_state := create_revocation_state ctx;
     verifier_verify_presentation := verifier_verify_presentation ctx;
     responder := responder ctx;
     storage_save_error := λ _, Some StorageError;
     preview_indy_proof_request := preview_indy_proof_request ctx;
     current_time := current_time ctx;
     new_message_id := new_message_id ctx;
     ctx_connection_record := ctx_connection_record ctx |}.

Definition empty_world : World := {| store := []; trace := [] |}.

(** Section 8 of the specification: a proposal previewing [age = 21] under
    credential definition [D1]. *)
Definition proposal_age : PresentationProposal :=
  {| pp_id := "t1"; pp_thread := None; pp_comment := None;
     presentation_proposal :=
       {| attributes := [ {| as_cred_def_id := "D1"; as_name := "age";
                             as_value := "21" |} ] |} |}.

Definition verifier_record : V10PresentationExchange :=
  {| presentation_exchange_id := Some 0%nat;
     connection_id := Some "conn-1";
     thread_id := Some "t1";
     initiator := Some INITIATOR_EXTERNAL;
     role := Some ROLE_VERIFIER;
     state := Some STATE_REQUEST_SENT;
     presentation_proposal_dict := Some proposal_age;
     presentation_request := Some (request_of {[ "a1" := age_item None ]} None);
     presentation := None;
     verified := PyNone;
     auto_present := None |}.

Definition verifier_world : World :=
  {| store := [verifier_record]; trace := [] |}.

Definition proof_revealing (value : string) : IndyProof :=
  {| revealed_attrs :=
       [("a1", {| sub_proof_index := 0; raw := value; encoded := value |})];
     identifiers := [ {| id_schema_id := "S1"; id_cred_def_id := "D1" |} ] |}.

Definition presentation_msg (value : string) : Presentation :=
  {| pm_id := "m2"; pm_thread := Some "t1"; pm_comment := None;
     presentations_attach := proof_revealing value |}.

(** The verifier's record once the presentation is in. *)
Definition received_record (p : IndyProof) : V10PresentationExchange :=
  set_state STATE_PRESENTATION_RECEIVED (set_presentation p verifier_record).

Definition received_world (p : IndyProof) : World :=
  {| store := [received_record p]; trace := [] |}.


Definition presentation_of (p : IndyProof) : Presentation :=
  {| pm_id := "m2"; pm_thread := Some "t1"; pm_comment := None;
     presentations_attach := p |}.

(** A proof that reveals [age = 22] under a referent [a9] that the proof
    request does not have. *)
Definition proof_unrequested_referent : IndyProof :=
  {| revealed_attrs :=
       [("a9", {| sub_proof_index := 0; raw := "22"; encoded := "22" |})];
     identifiers := [ {| id_schema_id := "S1"; id_cred_def_id := "D1" |} ] |}.

Definition window (from to : option Z) : Window :=
  {| w_from := from; w_to := to |}.

(** The prover's record after [receive_request]. *)
Definition prover_record (q : ProofRequest) : V10PresentationExchange :=
  {| presentation_exchange_id := None;
     connection_id := Some "conn-1";
     thread_id := Some "t1";
     initiator := Some INITIATOR_EXTERNAL;
     role := Some ROLE_PROVER;
     state := Some STATE_REQUEST_RECEIVED;
     presentation_proposal_dict := None;
     presentation_request := Some q;
     presentation := None;
     verified := PyNone;
     auto_present := None |}.

Definition choose (choices : list (string * string)) : RequestedCredentials :=
  {| rc_self_attested_attributes := [];
     rc_requested_attributes :=
       (λ c, (c.1, {| cc_cred_id := c.2; cc_revealed := true |})) <$> choices;
     rc_requested_predicates := [] |}.

(** One referent with its own interval [100 .. 200], under a request-level
    interval that only says [from = 10]. *)
Definition request_own_window : ProofRequest :=
  request_of {[ "a1" := age_item (Some (window (Some 100) (Some 200))) ]}
    (Some (window (Some 10) None)).

(** One referent with its own interval and no request-level interval. *)
Definition request_only_own_window : ProofRequest :=
  request_of {[ "a1" := age_item (Some (window (Some 100) (Some 200))) ]}
    None.

(** Two referents under the request-level interval [10 .. 20]. *)
Definition request_two : ProofRequest :=
  request_of {[ "a1" := age_item None; "a2" := age_item None ]}
    (Some (window (Some 10) (Some 20))).

(** Two referents that both have the interval [100 .. 200] of their own,
    under a request-level interval that only says [from = 10]. *)
Definition request_shared_own_window : ProofRequest :=
  request_of
    {[ "a1" := age_item (Some (window (Some 100) (Some 200)));
       "a2" := age_item (Some (window (Some 100) (Some 200))) ]}
    (Some (window (Some 10) None)).

(** The same two referents and no request-level interval. *)
Definition request_shared_only_own_window : ProofRequest :=
  request_of
    {[ "a1" := age_item (Some (window (Some 100) (Some 200)));
       "a2" := age_item (Some (window (Some 100) (Some 200))) ]}
    None.


End Scenario.


Module RoutesScenario.
Import Routes.

Definition registry : IssuerRevocationRecord :=
  {| irr_cred_def_id := "did:3:CL:12:tag";
     irr_issuer_did := "did";
     irr_max_cred_num := Some 100;
     tails_local_path := "/tmp/tails";
     tails_public_uri := None |}.

(** A storage that holds no published credential definition, next to a
    revocation subsystem that knows an active registry for every id. *)
Definition ctx_unpublished : Context :=
  {| CRED_DEF_SENT_RECORD_TYPE := "cred_def_sent";
     search_records := λ _ _, Ok [];
     init_issuer_registry := λ _ _ _, Ok registry;
     get_active_issuer_revocation_record := λ _, Ok registry;
     generate_registry := λ _, Ok tt;
     publish_registry_definition := λ _, Ok tt;
     publish_registry_entry := λ _, Ok tt;
     record_save := λ _, Ok tt |}.

Definition request : Request :=
  {| body_credential_definition_id := Some "did:3:CL:12:tag";
     body_max_cred_num := Some 100;
     body_tails_public_uri := Some "https://tails.example/1";
     match_info_id := "did:3:CL:12:tag" |}.

End RoutesScenario.

(** Further runs of the manager: a verifier's record for a request made
    without a proposal, and the records of the section 8 exchange. *)
Module ExtraScenario.
Import PresentProof.

(** The verifier's record after [create_exchange_for_request]. *)
Definition free_record : V10PresentationExchange :=
  {| presentation_exchange_id := Some 0%nat;
     connection_id := Some "conn-1";
     thread_id := Some "t1";
     initiator := Some INITIATOR_SELF;
     role := Some ROLE_VERIFIER;
     state := Some STATE_REQUEST_SENT;
     presentation_proposal_dict := None;
     presentation_request :=
       Some (Scenario.request_of {[ "a1" := Scenario.age_item None ]} None);
     presentation := None;
     verified := PyNone;
     auto_present := None |}.

Definition free_world : World :=
  {| store := [free_record]; trace := [] |}.

Definition presentation_of (p : IndyProof) : Presentation :=
  {| pm_id := "m2"; pm_thread := Some "t1"; pm_comment := None;
     presentations_attach := p |}.

(** A proof that reveals [a1], then a referent [a9] that no request has,
    then [a1] again with a value the proposal does not preview. *)
Definition proof_unknown_referent : IndyProof :=
  {| revealed_attrs :=
       [("a1", {| sub_proof_index := 0; raw := "21"; encoded := "21" |});
        ("a9", {| sub_proof_index := 0; raw := "21"; encoded := "21" |});
        ("a1", {| sub_proof_index := 0; raw := "22"; encoded := "22" |})];
     identifiers := [ {| id_schema_id := "S1"; id_cred_def_id := "D1" |} ] |}.

(** The verifier's record after [receive_proposal] on an empty store. *)
Definition proposal_record : V10PresentationExchange :=
  {| presentation_exchange_id := Some 0%nat;
     connection_id := Some "conn-1";
     thread_id := Some "t1";
     initiator := Some INITIATOR_EXTERNAL;
     role := Some ROLE_VERIFIER;
     state := Some STATE_PROPOSAL_RECEIVED;
     presentation_proposal_dict := Some Scenario.proposal_age;
     presentation_request := None;
     presentation := None;
     verified := PyNone;
     auto_present := None |}.

Definition request_message : PresentationRequest :=
  {| rq_id := "msg-1"; rq_thread := Some "t1"; rq_comment := None;
     request_presentations_attach :=
       Scenario.request_of {[ "a1" := Scenario.age_item None ]} None |}.

Definition verified_record : V10PresentationExchange :=
  set_state STATE_VERIFIED
    (set_verified (PyStr "true")
       (Scenario.received_record (Scenario.proof_revealing "21"))).

(** The worlds the four steps of the verifier go through. *)
Definition flow_w1 : World :=
  (receive_proposal Scenario.ctx Scenario.proposal_age
     Scenario.empty_world).2.
Definition flow_w2 : World :=
  (create_bound_request Scenario.ctx proposal_record None None None None
     flow_w1).2.
Definition flow_w3 : World :=
  (receive_presentation Scenario.ctx (Scenario.presentation_msg "21")
     flow_w2).2.
Definition flow_w4 : World :=
  (verify_presentation Scenario.ctx
     (Scenario.received_record (Scenario.proof_revealing "21")) flow_w3).2.

(** A prover's run: two referents served by one credential, under the
    request-level interval [10 .. 20]. *)
Definition one_credential_twice : RequestedCredentials :=
  Scenario.choose [("a1", "cred-a"); ("a2", "cred-a")].

Definition presented_message : Presentation :=
  {| pm_id := "msg-1"; pm_thread := Some "t1"; pm_comment := None;
     presentations_attach := Scenario.proof_shared_ids |}.

Definition presented_record : V10PresentationExchange :=
  set_id 0
    (set_presentation Scenario.proof_shared_ids
       (set_state STATE_PRESENTATION_SENT
          (Scenario.prover_record Scenario.request_two))).

Definition presented_world : World :=
  (create_presentation Scenario.ctx
     (Scenario.prover_record Scenario.request_two) one_credential_twice None
     Scenario.empty_world).2.

End ExtraScenario.


(** * What a computation may log, and what it leaves alone *)

Module Effects.

(** Every run of [m] appends to the log [tr] only events that satisfy [P]. *)
Definition emits {W E A} (tr : W → list E) (P : E → Prop) (m : M W A)
    : Prop :=
  ∀ w res w', m w = (res, w') →
    ∃ evs, tr w' = (tr w ++ evs)%list ∧ Forall P evs.

(** No run of [m] changes the component [f] of the state. *)
Definition keeps {W B A} (f : W → B) (m : M W A) : Prop :=
  ∀ w res w', m w = (res, w') → f w' = f w.

(** A run of [m] that raises has not changed the component [f]. *)
Definition keeps_on_raise {W B A} (f : W → B) (m : M W A) : Prop :=
  ∀ w e w', m w = (Raise e, w') → f w' = f w.

End Effects.

(** * Further vocabulary for the presentation manager *)

Module PresentProofFacts.
Import PresentProof.

(** The calls [create_presentation] may make: holder, ledger, tails,
    revocation state and the final save. *)
Definition prover_event_ok (e : Event) : Prop :=
  match e with
  | EvVerifierVerifyPresentation | EvSendReply _ | EvLogWarning _ => False
  | _ => True
  end.

(** The calls [verify_presentation] may make: schema and
    credential-definition fetches, the verifier, the save and the
    acknowledgement (or the warning that stands for it). *)
Definition verifier_event_ok (e : Event) : Prop :=
  match e with
  | EvLedgerGetSchema _ | EvLedgerGetCredentialDefinition _
  | EvVerifierVerifyPresentation | EvSave _ _
  | EvSendReply _ | EvLogWarning _ => True
  | _ => False
  end.

Definition save_event (e : Event) : Prop := ∃ r reason, e = EvSave r reason.

(** Between the stores of [w] and [w'] exactly the record [r'] was written,
    under its own id. *)
Definition stored_as (w w' : World) (r' : V10PresentationExchange) : Prop :=
  ∃ i, presentation_exchange_id r' = Some i ∧
       store w' !! i = Some r' ∧
       ∀ j, j ≠ i → store w' !! j = store w !! j.

(** What identifies an exchange stays as it is: the record id once there is
    one, the connection, the thread once there is one, who started the
    exchange and in which role, the stored proposal and the auto-present
    flag. *)
Definition same_exchange (r r' : V10PresentationExchange) : Prop :=
  (∀ i, presentation_exchange_id r = Some i →
        presentation_exchange_id r' = Some i) ∧
  connection_id r' = connection_id r ∧
  (∀ t, thread_id r = Some t → thread_id r' = Some t) ∧
  initiator r' = initiator r ∧
  role r' = role r ∧
  presentation_proposal_dict r' = presentation_proposal_dict r ∧
  auto_present r' = auto_present r.

(** The credential ids the holder was asked for, among logged calls. *)
(** The map [m] holds, for the keys [K] and no other, what [f] answered. *)
Definition fetched_map (f : string → result string) (K : list string)
    (m : gmap string string) : Prop :=
  ∀ k s, m !! k = Some s ↔ k ∈ K ∧ f k = Ok s.

(** [m] is [m0] completed with what [f] answered for keys of [K]. *)
Definition grown (f : string → result string) (K : list string)
    (m0 m : gmap string string) : Prop :=
  (∀ k s, m !! k = Some s → m0 !! k = Some s ∨ (k ∈ K ∧ f k = Ok s)) ∧
  (∀ k s, m0 !! k = Some s → m !! k = Some s) ∧
  (∀ k, k ∈ K → is_Some (m !! k)).

Definition not_holder_fetch (e : Event) : Prop :=
  ∀ k, e ≠ EvHolderGetCredential k.

Definition holder_fetches (evs : list Event) : list string :=
  omap (λ e, match e with
             | EvHolderGetCredential id => Some id
             | _ => None
             end) evs.

End PresentProofFacts.

(** * Vocabulary for the properties of the routes *)

Module RoutesFacts.
Import Routes.

(** What a handler raises when the revocation subsystem raised [e] inside
    the handler's [try]. *)
Definition as_http (e : Error) : Error :=
  match e with
  | RevocationNotSupportedError => HTTPBadRequest
  | _ => e
  end.

(** The calls that read: the storage search and the lookup of the active
    registry. *)
Definition lookup_event (e : Event) : Prop :=
  match e with
  | EvSearchRecords _ _ | EvGetActiveIssuerRevocationRecord _ => True
  | _ => False
  end.

Definition colon : Ascii.ascii :=
  Ascii.Ascii false true false true true true false false.

(** The log of calls of a run of a handler. *)
Definition calls (t : list Event) : list Event := t.

End RoutesFacts.

(** Storages and revocation subsystems for runs of the handlers. *)
Module ExtraRoutesScenario.
Import Routes.

(** A storage that holds the published credential definition. *)
Definition ctx_published : Context :=
  {| CRED_DEF_SENT_RECORD_TYPE := "cred_def_sent";
     search_records := λ _ _, Ok ["record-1"];
     init_issuer_registry := λ _ _ _, Ok RoutesScenario.registry;
     get_active_issuer_revocation_record := λ _, Ok RoutesScenario.registry;
     generate_registry := λ _, Ok tt;
     publish_registry_definition := λ _, Ok tt;
     publish_registry_entry := λ _, Ok tt;
     record_save := λ _, Ok tt |}.

(** The same storage next to a credential definition that does not support
    revocation. *)
Definition ctx_unsupported : Context :=
  {| CRED_DEF_SENT_RECORD_TYPE := "cred_def_sent";
     search_records := λ _ _, Ok ["record-1"];
     init_issuer_registry := λ _ _ _, Raise RevocationNotSupportedError;
     get_active_issuer_revocation_record :=
       λ _, Raise RevocationNotSupportedError;
     generate_registry := λ _, Ok tt;
     publish_registry_definition := λ _, Ok tt;
     publish_registry_entry := λ _, Ok tt;
     record_save := λ _, Ok tt |}.

(** A request whose body names no credential definition. *)
Definition request_no_id : Request :=
  {| body_credential_definition_id := None;
     body_max_cred_num := Some 100;
     body_tails_public_uri := None;
     match_info_id := "did:3:CL:12:tag" |}.

End ExtraRoutesScenario.
(** * Properties of the presentation manager *)

Module PresentProofTheory.
Import PresentProof.
Open Scope list_scope.

Ltac msimpl :=
  repeat progress
    (cbn;
     unfold mbind, M_bind, mret, M_ret, mthrow, M_throw, lift, get, modify,
       getitem).

Lemma bind_run {W A B} (m : M W A) (f : A → M W B) w :
  (m ≫= f) w = match m w with
               | (Ok a, w') => f a w'
               | (Raise e, w') => (Raise e, w')
               end.
Proof. reflexivity. Qed.

Lemma for_each_cons {W A S} (body : S → A → M W S) x l s w :
  for_each body (x :: l) s w =
  match body s x w with
  | (Ok s', w') => for_each body l s' w'
  | (Raise e, w') => (Raise e, w')
  end.
Proof. reflexivity. Qed.

Lemma save_raise_world ctx r reason w e w' :
  save ctx r reason w = (Raise e, w') → w' = w.
Proof.
  unfold save. destruct (storage_save_error ctx r); [by inversion 1|].
  rewrite bind_run. cbn. destruct (presentation_exchange_id r); [|inversion 1].
  case_bool_decide; [inversion 1|by inversion 1].
Qed.

Lemma save_existing ctx r reason w i :
  storage_save_error ctx r = None →
  presentation_exchange_id r = Some i →
  (i < length (store w))%nat →
  save ctx r reason w =
    (Ok r, {| store := <[i := r]> (store w);
              trace := trace w ++ [EvSave r reason] |}).
Proof.
  intros Hs Hid Hlt. unfold save. rewrite Hs, bind_run. cbn. rewrite Hid.
  by rewrite bool_decide_eq_true_2.
Qed.


(** C3. [create_bound_request] on a record without a stored proposal
    raises [ProtocolError]; nothing is saved: the world (store and call
    log) is what it was before the call. More generally, whatever the call
    raises and whatever the record, the world is unchanged, the save being
    the last thing the operation does. *)
Theorem create_bound_request_no_proposal
    (ctx : Context) (r : V10PresentationExchange)
    (name version nonce comment : option string) (w : World) :
  presentation_proposal_dict r = None →
  create_bound_request ctx r name version nonce comment w
    = (Raise ProtocolError, w) ∧
  ∀ r0 e w',
    create_bound_request ctx r0 name version nonce comment w = (Raise e, w') →
    w' = w.
Proof.
  intros H. split.
  { unfold create_bound_request. rewrite H. reflexivity. }
  intros r0 e w'. unfold create_bound_request. rewrite bind_run.
  unfold lift at 1. destruct (deserialize _) as [p|e0]; [|by intros [= _ <-]].
  rewrite bind_run. unfold lift at 1.
  destruct (preview_indy_proof_request ctx _ name version nonce) as [q|e0];
    [|by intros [= _ <-]].
  cbn beta zeta. rewrite bind_run.
  destruct (save ctx _ _ w) as [[r4|e0] w1] eqn:Hsave; [by intros [=]|].
  intros [= _ <-]. by apply save_raise_world in Hsave.
Qed.

(** The statement above, on a concrete run. *)
Lemma create_bound_request_no_proposal_witness :
  create_bound_request Scenario.ctx new_record None None None None
    Scenario.empty_world = (Raise ProtocolError, Scenario.empty_world).
Proof.
  apply (create_bound_request_no_proposal Scenario.ctx new_record).
  reflexivity.
Defined.

Ltac raises := eexists; split; [|reflexivity]; intros; discriminate.

Lemma check_revealed_attr_spec preview req pres u item w :
  match revealed_triple req pres item with
  | Some t =>
      check_revealed_attr preview req pres u item w =
      (if bool_decide (t ∈ attributes preview) then Ok tt
       else Raise (PresentationManagerError
              ("Presentation " +:+ as_name t +:+ "=" +:+ as_value t +:+
               " mismatches proposal value")), w)
  | None => ∃ e, (∀ msg, e ≠ PresentationManagerError msg) ∧
                 check_revealed_attr preview req pres u item w = (Raise e, w)
  end.
Proof.
  unfold revealed_triple, check_revealed_attr, list_getitem, has_attr_spec.
  destruct req as [q|]; msimpl; [|raises].
  destruct (pr_requested_attributes q !! item.1) as [ri|]; msimpl; [|raises].
  destruct (ri_name ri) as [name|]; msimpl; [|raises].
  destruct (py_index _ _) as [ident|]; msimpl; [|raises].
  by case_bool_decide.
Qed.

Section AntiSubstitution.
Variables (preview : PresentationPreview) (req : option ProofRequest)
          (pres : IndyProof).

Lemma check_loop_world l u w res w' :
  for_each (check_revealed_attr preview req pres) l u w = (res, w') → w' = w.
Proof.
  revert u w. induction l as [|item l IH]; intros u w.
  - by inversion 1.
  - rewrite for_each_cons.
    pose proof (check_revealed_attr_spec preview req pres u item w) as Hs.
    destruct (revealed_triple req pres item) as [t|].
    + rewrite Hs. case_bool_decide; [apply IH|by inversion 1].
    + destruct Hs as (e & _ & ->). by inversion 1.
Qed.

Lemma check_loop_ok l u w :
  (∀ item, item ∈ l → ∃ t, revealed_triple req pres item = Some t ∧ t ∈ attributes preview) →
  for_each (check_revealed_attr preview req pres) l u w = (Ok tt, w).
Proof.
  revert u. induction l as [|item l IH]; intros u Hall.
  - by destruct u.
  - rewrite for_each_cons.
    destruct (Hall item) as (t & Ht & Hin); [by left|].
    pose proof (check_revealed_attr_spec preview req pres u item w) as Hs.
    rewrite Ht in Hs. rewrite Hs.
    rewrite bool_decide_eq_true_2 by done.
    apply IH. intros. apply Hall. by right.
Qed.

Lemma check_loop_mismatch l u w :
  (∀ item, item ∈ l → is_Some (revealed_triple req pres item)) →
  (∃ item t, item ∈ l ∧ revealed_triple req pres item = Some t ∧ t ∉ attributes preview) →
  ∃ msg, for_each (check_revealed_attr preview req pres) l u w = (Raise (PresentationManagerError msg), w).
Proof.
  revert u. induction l as [|item l IH]; intros u Hdef (bad & t & Hin & Ht & Hno).
  - by apply elem_of_nil in Hin.
  - rewrite for_each_cons.
    destruct (Hdef item) as [t' Ht']; [by left|].
    pose proof (check_revealed_attr_spec preview req pres u item w) as Hs.
    rewrite Ht' in Hs. rewrite Hs.
    case_bool_decide as Hmem; [|by eexists].
    apply IH; [intros; apply Hdef; by right|].
    apply elem_of_cons in Hin as [->|Hin]; [|by eauto].
    congruence.
Qed.
Lemma check_loop_first pre item post u w res :
  (∀ it, it ∈ pre →
     ∃ t, revealed_triple req pres it = Some t ∧ t ∈ attributes preview) →
  (∀ u', check_revealed_attr preview req pres u' item w = (Raise res, w)) →
  for_each (check_revealed_attr preview req pres) (pre ++ item :: post) u w
    = (Raise res, w).
Proof.
  revert u. induction pre as [|it pre IH]; intros u Hpre Hitem.
  - cbn [app]. rewrite for_each_cons. by rewrite Hitem.
  - cbn [app]. rewrite for_each_cons.
    destruct (Hpre it) as (t & Ht & Hin); [by left|].
    pose proof (check_revealed_attr_spec preview req pres u it w) as Hs.
    rewrite Ht in Hs. rewrite Hs, bool_decide_eq_true_2 by done.
    apply IH; [|done]. intros. apply Hpre. by right.
Qed.
End AntiSubstitution.

(** C1 (amended). [receive_presentation], on a record that stores a
    proposal, looks at the revealed attributes in order. When every one has
    its (cred_def_id, name, value) triple among the attribute specifications
    of the stored preview, the call returns the record in state
    PRESENTATION_RECEIVED and that record is what the store holds. Otherwise
    the first attribute that does not pass decides: when its triple is
    defined (its referent is in the request's [requested_attributes] with a
    name, its [sub_proof_index] is within the identifiers) and is not in the
    preview, the call raises [PresentationManagerError] naming the attribute
    and its value; when its triple is not defined, the call raises the
    exception of the failed lookup, which is not [PresentationManagerError].
    In both cases the world is exactly what it was; and whatever the call
    raises, the store is untouched. *)
Theorem receive_presentation_checks_preview
    (ctx : Context) (message : Presentation) (w : World)
    (r : V10PresentationExchange) (d : PresentationProposal) (i : nat) :
  retrieve_by_tag_filter (msg_thread_id (pm_id message) (pm_thread message))
    (ctx_connection_record ctx) w = (Ok r, w) →
  presentation_proposal_dict r = Some d →
  presentation_exchange_id r = Some i →
  store w !! i = Some r →
  storage_save_error ctx
    (set_state STATE_PRESENTATION_RECEIVED
       (set_presentation (presentations_attach message) r)) = None →
  ((∀ item, item ∈ revealed_attrs (presentations_attach message) →
      ∃ t, revealed_triple (presentation_request r)
             (presentations_attach message) item = Some t ∧
           t ∈ attributes (presentation_proposal d)) →
   ∃ r', receive_presentation ctx message w =
           (Ok r', {| store := <[i := r']> (store w);
                      trace := trace w ++ [EvSave r' "receive presentation"] |}) ∧
         state r' = Some STATE_PRESENTATION_RECEIVED ∧
         presentation r' = Some (presentations_attach message) ∧
         <[i := r']> (store w) !! i = Some r')
  ∧
  (∀ pre item post,
     revealed_attrs (presentations_attach message) = pre ++ item :: post →
     (∀ it, it ∈ pre →
        ∃ t, revealed_triple (presentation_request r)
               (presentations_attach message) it = Some t ∧
             t ∈ attributes (presentation_proposal d)) →
     match revealed_triple (presentation_request r)
             (presentations_attach message) item with
     | Some t =>
         t ∉ attributes (presentation_proposal d) →
         receive_presentation ctx message w =
           (Raise (PresentationManagerError
                     ("Presentation " +:+ as_name t +:+ "=" +:+ as_value t +:+
                      " mismatches proposal value")), w)
     | None =>
         ∃ e, (∀ msg, e ≠ PresentationManagerError msg) ∧
              receive_presentation ctx message w = (Raise e, w)
     end)
  ∧
  (∀ e w', receive_presentation ctx message w = (Raise e, w') →
           store w' = store w).
Proof.
  intros Hget Hd Hid Hi Hsave.
  set (pres := presentations_attach message) in *.
  set (preview := presentation_proposal d) in *.
  set (r' := set_state STATE_PRESENTATION_RECEIVED (set_presentation pres r))
    in *.
  assert (Hlt : (i < length (store w))%nat) by (by eapply lookup_lt_Some).
  assert (Hsv : ∀ w0, store w0 = store w → trace w0 = trace w →
    save ctx r' "receive presentation" w0 =
      (Ok r', {| store := <[i := r']> (store w);
                 trace := trace w ++ [EvSave r' "receive presentation"] |})).
  { intros w0 Hs Ht. rewrite (save_existing ctx r' _ w0 i); rewrite ?Hs, ?Ht; done. }
  unfold receive_presentation. rewrite !bind_run, Hget, Hd.
  unfold lift, deserialize. rewrite !bind_run. cbn beta iota.
  fold pres preview r'.
  split; [|split].
  - intros Hall. rewrite (check_loop_ok preview _ pres _ _ w Hall).
    rewrite Hsv by done. exists r'. split; [done|]. split; [done|].
    split; [done|]. by apply list_lookup_insert_eq.
  - intros pre item post Hl Hpre. rewrite Hl.
    destruct (revealed_triple (presentation_request r) pres item) as [t|]
      eqn:Ht.
    + intros Hno.
      rewrite (check_loop_first preview _ pres pre item post tt w
                 (PresentationManagerError
                    ("Presentation " +:+ as_name t +:+ "=" +:+ as_value t +:+
                     " mismatches proposal value"))); [done|done|].
      intros u'.
      pose proof (check_revealed_attr_spec preview (presentation_request r)
                    pres u' item w) as Hs.
      rewrite Ht in Hs. rewrite Hs. by rewrite bool_decide_eq_false_2.
    + pose proof (check_revealed_attr_spec preview (presentation_request r)
                    pres tt item w) as Hs.
      rewrite Ht in Hs. destruct Hs as (e & Hne & Hrun).
      exists e. split; [done|].
      rewrite (check_loop_first preview _ pres pre item post tt w e);
        [done|done|].
      intros []. exact Hrun.
  - intros e w'.
    destruct (for_each _ _ _ _) as [[[]|e0] w1] eqn:Hloop;
      apply check_loop_world in Hloop as ->.
    + intros Hs. by apply save_raise_world in Hs as ->.
    + by inversion 1.
Qed.

(** The statement above, on the two presentations of section 8 of the
    specification: one reveals [age = 21], the other [age = 22]. *)
Lemma receive_presentation_checks_preview_witness :
  (∃ r', receive_presentation Scenario.ctx (Scenario.presentation_msg "21")
           Scenario.verifier_world =
           (Ok r', {| store := [r'];
                      trace := [EvSave r' "receive presentation"] |}) ∧
         state r' = Some STATE_PRESENTATION_RECEIVED) ∧
  receive_presentation Scenario.ctx (Scenario.presentation_msg "22")
    Scenario.verifier_world =
    (Raise (PresentationManagerError
              "Presentation age=22 mismatches proposal value"),
     Scenario.verifier_world).
Proof.
  split.
  - destruct (receive_presentation_checks_preview Scenario.ctx
                (Scenario.presentation_msg "21") Scenario.verifier_world
                Scenario.verifier_record Scenario.proposal_age 0%nat)
      as (Hok & _ & _); try reflexivity.
    destruct Hok as (r' & Hrun & Hst & _ & _).
    + intros item Hin. apply list_elem_of_singleton in Hin as ->.
      eexists. split; [reflexivity|]. apply list_elem_of_singleton. reflexivity.
    + exists r'. split; [exact Hrun|exact Hst].
  - refine (proj1 (proj2
      (receive_presentation_checks_preview Scenario.ctx
         (Scenario.presentation_msg "22") Scenario.verifier_world
         Scenario.verifier_record Scenario.proposal_age 0%nat
         eq_refl eq_refl eq_refl eq_refl eq_refl))
      [] ("a1", {| sub_proof_index := 0; raw := "22"; encoded := "22" |})
      [] eq_refl _ _).
    + intros it Hin. by apply elem_of_nil in Hin.
    + intros Hin. apply list_elem_of_singleton in Hin. discriminate Hin.
Defined.

(** C1 as the specification words it does not hold: a revealed attribute
    that matches nothing in the preview because its referent is not in the
    proof request makes the call raise [KeyError], not
    [PresentationManagerError]. *)
Lemma receive_presentation_unmatched_is_key_error :
  receive_presentation Scenario.ctx
    (Scenario.presentation_of Scenario.proof_unrequested_referent)
    Scenario.verifier_world
  = (Raise (KeyError "a9"), Scenario.verifier_world) ∧
  ∀ msg, KeyError "a9" ≠ PresentationManagerError msg.
Proof. split; [vm_compute; reflexivity|discriminate]. Qed.

Lemma add_events_nil w : add_events [] w = w.
Proof. destruct w. unfold add_events. cbn. by rewrite app_nil_r. Qed.

Lemma add_events_app e1 e2 w :
  add_events e2 (add_events e1 w) = add_events (e1 ++ e2) w.
Proof. unfold add_events. cbn. by rewrite app_assoc. Qed.

Lemma log_run e w : log e w = (Ok tt, add_events [e] w).
Proof. reflexivity. Qed.

Ltac mred :=
  repeat progress
    (rewrite ?bind_run, ?log_run;
     unfold lift, mret, M_ret, mthrow, M_throw; cbn beta iota).

Ltac trace_eq :=
  unfold add_events; cbn [store trace]; do 2 f_equal;
  rewrite <- ?app_assoc; cbn [app]; reflexivity.

Section VerifyFetches.
Variable ctx : Context.

Lemma fetch_schemas_loop ids acc w :
  (∀ id, id ∈ ids → ∃ s, ledger_get_schema ctx id = Ok s) →
  ∃ m, for_each (fetch_schema_step ctx) ids acc w
       = (Ok m, add_events (EvLedgerGetSchema <$> ids) w).
Proof.
  revert acc w. induction ids as [|id ids IH]; intros acc w Hok.
  - exists acc. cbn. by rewrite add_events_nil.
  - destruct (Hok id) as [s Hs]; [by left|].
    rewrite for_each_cons. unfold fetch_schema_step at 1.
    mred. rewrite Hs. mred.
    destruct (IH (<[id := s]> acc) (add_events [EvLedgerGetSchema id] w))
      as [m Hm]; [intros; apply Hok; by right|].
    exists m. rewrite Hm, add_events_app. done.
Qed.

Lemma fetch_credential_definitions_loop ids acc w :
  (∀ id, id ∈ ids → ∃ s, ledger_get_credential_definition ctx id = Ok s) →
  ∃ m, for_each (fetch_credential_definition_step ctx) ids acc w
       = (Ok m, add_events (EvLedgerGetCredentialDefinition <$> ids) w).
Proof.
  revert acc w. induction ids as [|id ids IH]; intros acc w Hok.
  - exists acc. cbn. by rewrite add_events_nil.
  - destruct (Hok id) as [s Hs]; [by left|].
    rewrite for_each_cons. unfold fetch_credential_definition_step at 1.
    mred. rewrite Hs. mred.
    destruct (IH (<[id := s]> acc)
                (add_events [EvLedgerGetCredentialDefinition id] w))
      as [m Hm]; [intros; apply Hok; by right|].
    exists m. rewrite Hm, add_events_app. done.
Qed.
End VerifyFetches.

(** C4 (amended). On a record that stores a presentation, with a ledger,
    a verifier and a responder that answer, [verify_presentation] assigns to
    [verified] the JSON text of the verifier's boolean ("true" or "false"),
    sets the state to VERIFIED and saves the record; the acknowledgement is
    logged after the save. When the save raises, the call raises the same
    exception, the store is unchanged and no acknowledgement is sent. *)
Theorem verify_presentation_stores_json_result
    (ctx : Context) (r : V10PresentationExchange) (w : World)
    (p : IndyProof) (b : bool) (i : nat) :
  presentation r = Some p →
  presentation_exchange_id r = Some i →
  store w !! i = Some r →
  (∀ id, ∃ s, ledger_get_schema ctx id = Ok s) →
  (∀ id, ∃ d, ledger_get_credential_definition ctx id = Ok d) →
  (∀ s c, verifier_verify_presentation ctx (presentation_request r) p s c
          = Ok b) →
  (∀ send ack, responder ctx = Some send → send ack = Ok tt) →
  (storage_save_error ctx
     (set_state STATE_VERIFIED
        (set_verified (PyStr (json_dumps_bool b)) r)) = None →
   ∃ r', verify_presentation ctx r w =
           (Ok r',
            {| store := <[i := r']> (store w);
               trace := trace w ++ verify_fetch_events p ++
                        [EvVerifierVerifyPresentation;
                         EvSave r' "verify presentation"] ++
                        ack_events ctx r |}) ∧
         verified r' = PyStr (json_dumps_bool b) ∧
         state r' = Some STATE_VERIFIED ∧
         <[i := r']> (store w) !! i = Some r')
  ∧
  (∀ e, storage_save_error ctx
          (set_state STATE_VERIFIED
             (set_verified (PyStr (json_dumps_bool b)) r)) = Some e →
        verify_presentation ctx r w =
          (Raise e,
           {| store := store w;
              trace := trace w ++ verify_fetch_events p ++
                       [EvVerifierVerifyPresentation] |})).
Proof.
  intros Hp Hid Hi Hsch Hcd Hver Hack.
  assert (Hlt : (i < length (store w))%nat) by (by eapply lookup_lt_Some).
  set (r' := set_state STATE_VERIFIED
               (set_verified (PyStr (json_dumps_bool b)) r)).
  destruct (fetch_schemas_loop ctx (id_schema_id <$> identifiers p) ∅ w)
    as [ms Hms]; [by intros|].
  destruct (fetch_credential_definitions_loop ctx
              (id_cred_def_id <$> identifiers p) ∅
              (add_events (EvLedgerGetSchema <$> (id_schema_id <$> identifiers p)) w))
    as [mc Hmc]; [by intros|].
  unfold verify_presentation, fetch_schemas, fetch_credential_definitions.
  rewrite Hp. mred. rewrite Hms. mred. rewrite Hmc. mred. rewrite Hver. mred.
  fold r'. rewrite !add_events_app. split.
  - intros Hsave. exists r'.
    rewrite (save_existing ctx r' _ _ i) by done. cbn beta iota.
    split; [|split; [done|split; [done|by apply list_lookup_insert_eq]]].
    unfold send_presentation_ack, ack_events, verify_fetch_events.
    destruct (responder ctx) as [send|] eqn:Hr; mred.
    + rewrite (Hack send) by done. trace_eq.
    + trace_eq.
  - intros e Hsave. unfold save. rewrite Hsave. mred.
    unfold verify_fetch_events. trace_eq.
Qed.

(** The statement above, on a concrete run. *)
Lemma verify_presentation_stores_json_result_witness :
  (∃ r', verify_presentation Scenario.ctx
           (Scenario.received_record (Scenario.proof_revealing "21"))
           (Scenario.received_world (Scenario.proof_revealing "21")) =
           (Ok r',
            {| store := [r'];
               trace := [EvLedgerGetSchema "S1";
                         EvLedgerGetCredentialDefinition "D1";
                         EvVerifierVerifyPresentation;
                         EvSave r' "verify presentation";
                         EvSendReply {| ack_id := "msg-1";
                                        ack_thread := Some "t1" |}] |}) ∧
         verified r' = PyStr "true" ∧ state r' = Some STATE_VERIFIED) ∧
  verify_presentation Scenario.ctx_storage_down
    (Scenario.received_record (Scenario.proof_revealing "21"))
    (Scenario.received_world (Scenario.proof_revealing "21")) =
    (Raise StorageError,
     {| store := [Scenario.received_record (Scenario.proof_revealing "21")];
        trace := [EvLedgerGetSchema "S1";
                  EvLedgerGetCredentialDefinition "D1";
                  EvVerifierVerifyPresentation] |}).
Proof.
  split.
  - destruct (verify_presentation_stores_json_result Scenario.ctx
                (Scenario.received_record (Scenario.proof_revealing "21"))
                (Scenario.received_world (Scenario.proof_revealing "21"))
                (Scenario.proof_revealing "21") true 0%nat)
      as [Hok _]; try reflexivity.
    + intros id. eexists. reflexivity.
    + intros id. eexists. reflexivity.
    + intros send ack Hs. injection Hs as <-. reflexivity.
    + destruct Hok as (r' & Hrun & Hv & Hst & _); [reflexivity|].
      exists r'. split; [exact Hrun|]. split; [exact Hv|exact Hst].
  - refine (proj2 (verify_presentation_stores_json_result
                     Scenario.ctx_storage_down
                     (Scenario.received_record (Scenario.proof_revealing "21"))
                     (Scenario.received_world (Scenario.proof_revealing "21"))
                     (Scenario.proof_revealing "21") true 0%nat
                     _ _ _ _ _ _ _) StorageError _); try reflexivity.
    + intros id. eexists. reflexivity.
    + intros id. eexists. reflexivity.
    + intros send ack Hs. injection Hs as <-. reflexivity.
Defined.

(** C4, counterexample: with a verifier that answers [True], the value
    assigned to [verified] is the string "true", not the boolean [True]. *)
Lemma verify_presentation_verified_is_not_bool :
  ∃ r',
    verifier_verify_presentation Scenario.ctx
      (presentation_request
         (Scenario.received_record (Scenario.proof_revealing "21")))
      (Scenario.proof_revealing "21") ∅ ∅ = Ok true ∧
    (verify_presentation Scenario.ctx
       (Scenario.received_record (Scenario.proof_revealing "21"))
       (Scenario.received_world (Scenario.proof_revealing "21"))).1 = Ok r' ∧
    verified r' = PyStr "true" ∧
    verified r' ≠ PyBool true.
Proof.
  exists (set_state STATE_VERIFIED
            (set_verified (PyStr "true")
               (Scenario.received_record (Scenario.proof_revealing "21")))).
  split; [reflexivity|]. split; [vm_compute; reflexivity|].
  split; [reflexivity|]. discriminate.
Qed.


Lemma bind_inv {W A B} (m : M W A) (f : A → M W B) w res w' :
  (m ≫= f) w = (res, w') →
  (∃ e, m w = (Raise e, w') ∧ res = Raise e) ∨
  (∃ a w1, m w = (Ok a, w1) ∧ f a w1 = (res, w')).
Proof.
  rewrite bind_run. destruct (m w) as [[a|e] w1].
  - intros H. right. by exists a, w1.
  - intros [= <- <-]. left. by exists e.
Qed.

Section Dict.
Context {V : Type}.
Implicit Types (d : list (string * V)) (k : string) (v : V).


Lemma dict_get_is_Some k d : is_Some (dict_get k d) ↔ k ∈ dict_keys d.
Proof.
  unfold dict_keys. induction d as [|[k' v'] d IH]; cbn.
  - split; [by intros [? [=]]|by intros ?%elem_of_nil].
  - case_decide as Hk.
    + subst. split; [intros; by left|by eauto].
    + rewrite IH. split; [intros; by right|].
      intros [?|?]%elem_of_cons; done.
Qed.

Lemma dict_mem_true k d : dict_mem k d = true ↔ k ∈ dict_keys d.
Proof. unfold dict_mem. by rewrite bool_decide_eq_true, dict_get_is_Some. Qed.

Lemma dict_mem_false k d : dict_mem k d = false ↔ k ∉ dict_keys d.
Proof. unfold dict_mem. by rewrite bool_decide_eq_false, dict_get_is_Some. Qed.

Lemma dict_set_fresh k v d : k ∉ dict_keys d → dict_set k v d = d ++ [(k, v)].
Proof.
  unfold dict_keys. induction d as [|[k' v'] d IH]; cbn; [done|].
  intros Hk. apply not_elem_of_cons in Hk as [Hne Hk].
  rewrite decide_False by done. by rewrite IH.
Qed.

Lemma dict_set_values_elem k v d x :
  x ∈ dict_values (dict_set k v d) → x = v ∨ x ∈ dict_values d.
Proof.
  unfold dict_values. induction d as [|[k' v'] d IH]; cbn.
  - intros ?%list_elem_of_singleton. by left.
  - case_decide; cbn.
    + intros [->|?]%elem_of_cons; [by left|]. right. by right.
    + intros [->|?]%elem_of_cons; [right; by left|].
      destruct IH as [?|?]; [done|by left|]. right. by right.
Qed.

Lemma dict_get_set k k' v d :
  dict_get k (dict_set k' v d) = if decide (k = k') then Some v else dict_get k d.
Proof.
  induction d as [|[k0 v0] d IH]; cbn.
  - by repeat case_decide.
  - repeat (case_decide; cbn; subst); try done.
Qed.
End Dict.

Lemma string_app_cons c s1 s2 : String c s1 +:+ s2 = String c (s1 +:+ s2).
Proof. reflexivity. Qed.

Lemma string_app_length s1 s2 :
  String.length (s1 +:+ s2) = (String.length s1 + String.length s2)%nat.
Proof.
  induction s1 as [|c s1 IH]; [done|].
  rewrite string_app_cons. cbn. by rewrite IH.
Qed.

Lemma string_app_inj_r s1 s2 x : s1 +:+ x = s2 +:+ x → s1 = s2.
Proof.
  revert s2. induction s1 as [|c s1 IH]; intros [|c2 s2]; [done|..].
  - intros H. apply (f_equal String.length) in H.
    rewrite !string_app_length in H. cbn in H. lia.
  - intros H. apply (f_equal String.length) in H.
    rewrite !string_app_length in H. cbn in H. lia.
  - rewrite !string_app_cons. intros [= -> H]. f_equal. by apply IH.
Qed.

Lemma delta_key_inj rid1 rid2 f t :
  delta_key rid1 f t = delta_key rid2 f t → rid1 = rid2.
Proof. apply string_app_inj_r. Qed.

Ltac mred_in H :=
  repeat progress
    (rewrite ?bind_run, ?log_run in H;
     unfold lift, mret, M_ret, mthrow, M_throw in H; cbn beta iota in H).

Lemma truthy_str_true o :
  truthy_str o = true ↔ ∃ rid, o = Some rid ∧ rid ≠ "".
Proof.
  destruct o as [s|]; cbn.
  - rewrite negb_true_iff, bool_decide_eq_false. split.
    + intros Hs. by exists s.
    + by intros (rid & [= ->] & Hne).
  - split; [done|]. by intros (rid & [=] & _).
Qed.

Lemma add_events_inj w evs1 evs2 :
  add_events evs1 w = add_events evs2 w → evs1 = evs2.
Proof. unfold add_events. intros [= H]. by apply app_inv_head in H. Qed.

(** *** The pure prefix: [requested_referents] *)

Lemma extract_referents_run items choices acc w res w' :
  extract_referents items choices acc w = (res, w') →
  w' = w ∧
  ∀ refs, res = Ok refs →
    ∀ rf, rf ∈ dict_values refs →
      rf ∈ dict_values acc ∨
      ∃ ch item, ch ∈ choices ∧ items !! ch.1 = Some item ∧
        rf = {| rf_cred_id := cc_cred_id ch.2;
                rf_non_revoked := ri_non_revoked item |}.
Proof.
  unfold extract_referents. revert acc w.
  induction choices as [|ch choices IH]; intros acc w.
  - intros [= <- <-]. split; [done|]. intros refs [= <-] rf Hrf. by left.
  - rewrite for_each_cons. unfold extract_referent_step at 1.
    destruct (items !! ch.1) as [item|] eqn:Hitem; mred; cbn [getitem]; mred.
    + intros Hrun. apply IH in Hrun as [-> Hrefs]. split; [done|].
      intros refs -> rf Hrf. destruct (Hrefs refs eq_refl rf Hrf) as [Hin|Hin].
      * apply dict_set_values_elem in Hin as [->|Hin]; [|by left].
        right. exists ch, item. split; [by left|done].
      * right. destruct Hin as (ch' & item' & Hch & Hrest).
        exists ch', item'. split; [by right|done].
    + intros [= <- <-]. split; [done|]. by intros refs [=].
Qed.

Lemma extract_referents_ok items choices acc w :
  (∀ ch, ch ∈ choices → is_Some (items !! ch.1)) →
  ∃ refs, extract_referents items choices acc w = (Ok refs, w).
Proof.
  unfold extract_referents. revert acc.
  induction choices as [|ch choices IH]; intros acc Hall.
  - by exists acc.
  - destruct (Hall ch) as [item Hitem]; [by left|].
    rewrite for_each_cons. unfold extract_referent_step at 1.
    rewrite Hitem. cbn [getitem]. mred.
    apply IH. intros. apply Hall. by right.
Qed.

(** *** Resolving the credentials *)

Lemma resolve_credentials_run ctx rfs creds0 w res w' :
  for_each (resolve_credential_step ctx) rfs creds0 w = (res, w') →
  ∃ evs, w' = add_events evs w ∧
    Forall holder_event_ok evs ∧
    ∀ creds, res = Ok creds →
      (∀ k c, dict_get k creds = Some c →
         dict_get k creds0 = Some c ∨
         (k ∈ rf_cred_id <$> rfs ∧ holder_get_credential ctx k = Ok c)) ∧
      (∀ rf, rf ∈ rfs → is_Some (dict_get (rf_cred_id rf) creds)) ∧
      (∀ k, is_Some (dict_get k creds0) → is_Some (dict_get k creds)).
Proof.
  revert creds0 w. induction rfs as [|rf rfs IH]; intros creds0 w.
  - intros [= <- <-]. exists []. rewrite add_events_nil.
    split; [done|]. split; [done|]. intros creds [= <-].
    split; [by left|]. split; [by intros ? ?%elem_of_nil|done].
  - rewrite for_each_cons. unfold resolve_credential_step at 1.
    destruct (dict_mem (rf_cred_id rf) creds0) eqn:Hmem; mred.
    + intros Hrun. apply IH in Hrun as (evs & -> & Hevs & Hpost).
      exists evs. split; [done|]. split; [done|].
      intros creds ->. destruct (Hpost creds eq_refl) as (H1 & H2 & H3).
      split; [|split; [|done]].
      * intros k c Hk. destruct (H1 k c Hk) as [?|[? ?]]; [by left|].
        right. split; [|done]. rewrite fmap_cons. by right.
      * intros rf' [->|?]%elem_of_cons; [|by apply H2].
        apply H3. apply dict_get_is_Some. by apply dict_mem_true.
    + destruct (holder_get_credential ctx (rf_cred_id rf)) as [c|e] eqn:Hh;
        mred.
      * intros Hrun. apply IH in Hrun as (evs & -> & Hevs & Hpost).
        exists (EvHolderGetCredential (rf_cred_id rf) :: evs).
        split; [by rewrite add_events_app|].
        split; [constructor; [by eexists|done]|].
        intros creds ->. destruct (Hpost creds eq_refl) as (H1 & H2 & H3).
        assert (Hset : ∀ k, dict_get k (dict_set (rf_cred_id rf) c creds0) =
                  if decide (k = rf_cred_id rf) then Some c
                  else dict_get k creds0) by (intros; apply dict_get_set).
        split; [|split].
        -- intros k c' Hk. destruct (H1 k c' Hk) as [Hk0|[? ?]].
           ++ rewrite Hset in Hk0. case_decide; [|by left].
              injection Hk0 as <-. subst k. right.
              split; [rewrite fmap_cons; by left|done].
           ++ right. split; [rewrite fmap_cons; by right|done].
        -- intros rf' [->|?]%elem_of_cons; [|by apply H2].
           apply H3. rewrite Hset. by rewrite decide_True.
        -- intros k Hk. apply H3. rewrite Hset. by case_decide.
      * intros [= <- <-]. exists [EvHolderGetCredential (rf_cred_id rf)].
        split; [done|]. split; [constructor; [by eexists|done]|].
        by intros creds [=].
Qed.


(** *** Schemas, credential definitions and registry definitions *)

Lemma resolve_ledger_step_run ctx lo c w res w' :
  resolve_ledger_step ctx lo c w = (res, w') →
  ∃ evs, w' = add_events evs w ∧ Forall (ledger_event_ok [c]) evs.
Proof.
  unfold resolve_ledger_step.
  assert (Hrr : ∀ w1 res1 w1',
    (if truthy_str (rev_reg_id c) then
       match revocation_registries lo !! default "" (rev_reg_id c) with
       | Some _ => mret (revocation_registries lo)
       | None =>
           log (EvLedgerGetRevocRegDef (default "" (rev_reg_id c)));;
           d ← lift (ledger_get_revoc_reg_def ctx (default "" (rev_reg_id c)));
           mret (<[default "" (rev_reg_id c) := d]> (revocation_registries lo))
       end
     else mret (revocation_registries lo)) w1 = (res1, w1') →
    ∃ evs, w1' = add_events evs w1 ∧ Forall (ledger_event_ok [c]) evs).
  { intros w1 res1 w1'. destruct (truthy_str (rev_reg_id c)) eqn:Ht.
    - apply truthy_str_true in Ht as (rid & Hrid & Hne). rewrite Hrid. cbn.
      destruct (revocation_registries lo !! rid); mred.
      + intros [= <- <-]. exists []. by rewrite add_events_nil.
      + destruct (ledger_get_revoc_reg_def ctx rid); mred;
          intros [= <- <-]; exists [EvLedgerGetRevocRegDef rid];
          (split; [done|]); constructor; try done;
          exists c; (split; [by left|done]).
    - mred. intros [= <- <-]. exists []. by rewrite add_events_nil. }
  intros Hrun.
  apply bind_inv in Hrun as [(e & Hs & ->)|(s1 & w1 & Hs & Hrun)].
  { destruct (schemas lo !! schema_id c); mred_in Hs; [done|].
    destruct (ledger_get_schema ctx (schema_id c)); mred_in Hs; [done|].
    injection Hs as <- <-. exists [EvLedgerGetSchema (schema_id c)].
    split; [done|]. by constructor. }
  assert (∃ evs1, w1 = add_events evs1 w ∧ Forall (ledger_event_ok [c]) evs1)
    as (evs1 & -> & Hevs1).
  { destruct (schemas lo !! schema_id c); mred_in Hs.
    - injection Hs as <- <-. exists []. by rewrite add_events_nil.
    - destruct (ledger_get_schema ctx (schema_id c)); mred_in Hs; [|done].
      injection Hs as <- <-. exists [EvLedgerGetSchema (schema_id c)].
      split; [done|]. by constructor. }
  cbn beta zeta in Hrun.
  apply bind_inv in Hrun as [(e & Hd & ->)|(d1 & w2 & Hd & Hrun)].
  { destruct (credential_definitions lo !! cred_def_id c); mred_in Hd; [done|].
    destruct (ledger_get_credential_definition ctx (cred_def_id c));
      mred_in Hd; [done|].
    injection Hd as <- <-. rewrite add_events_app.
    eexists. split; [done|]. apply Forall_app. split; [done|]. by constructor. }
  assert (∃ evs2, w2 = add_events evs2 w ∧ Forall (ledger_event_ok [c]) evs2)
    as (evs2 & -> & Hevs2).
  { destruct (credential_definitions lo !! cred_def_id c); mred_in Hd.
    - injection Hd as <- <-. by exists evs1.
    - destruct (ledger_get_credential_definition ctx (cred_def_id c));
        mred_in Hd; [|done].
      injection Hd as <- <-. rewrite add_events_app.
      eexists. split; [done|]. apply Forall_app. split; [done|]. by constructor. }
  apply bind_inv in Hrun as [(e & Hr & ->)|(r1 & w3 & Hr & Hrun)].
  - apply Hrr in Hr as (evs3 & -> & Hevs3). rewrite add_events_app.
    eexists. split; [done|]. by apply Forall_app.
  - apply Hrr in Hr as (evs3 & -> & Hevs3). injection Hrun as <- <-.
    rewrite add_events_app.
    eexists. split; [done|]. by apply Forall_app.
Qed.

Lemma ledger_event_ok_weaken l1 l2 e :
  (∀ c, c ∈ l1 → c ∈ l2) → ledger_event_ok l1 e → ledger_event_ok l2 e.
Proof.
  intros Hsub. destruct e; cbn; try done. intros (c & ? & ?). exists c.
  split; [by apply Hsub|done].
Qed.

Lemma resolve_ledger_objects_run ctx creds lo0 w res w' :
  for_each (resolve_ledger_step ctx) creds lo0 w = (res, w') →
  ∃ evs, w' = add_events evs w ∧ Forall (ledger_event_ok creds) evs.
Proof.
  revert lo0 w. induction creds as [|c creds IH]; intros lo0 w.
  - intros [= <- <-]. exists []. by rewrite add_events_nil.
  - rewrite for_each_cons.
    destruct (resolve_ledger_step ctx lo0 c w) as [[lo1|e] w1] eqn:Hstep;
      apply resolve_ledger_step_run in Hstep as (evs1 & -> & Hevs1).
    + intros Hrun. apply IH in Hrun as (evs2 & -> & Hevs2).
      rewrite add_events_app. eexists. split; [done|]. apply Forall_app.
      split.
      * eapply Forall_impl; [exact Hevs1|]. intros e.
        apply ledger_event_ok_weaken. intros c' ->%list_elem_of_singleton.
        by left.
      * eapply Forall_impl; [exact Hevs2|]. intros e.
        apply ledger_event_ok_weaken. intros c' ?. by right.
    + intros [= <- <-]. eexists. split; [done|].
      eapply Forall_impl; [exact Hevs1|]. intros e0.
      apply ledger_event_ok_weaken. intros c' ->%list_elem_of_singleton.
      by left.
Qed.



(** *** The accumulator deltas *)

Lemma fill_defaults_eq now w :
  fill_defaults now w =
    {| w_from := Some (default 0 (w_from w));
       w_to := Some (default now (w_to w)) |}.
Proof. by destruct w as [[f|] [t|]]. Qed.

Lemma fill_defaults_idem now w :
  fill_defaults now (fill_defaults now w) = fill_defaults now w.
Proof. by rewrite !fill_defaults_eq. Qed.

Lemma fill_defaults_truthy now w : window_truthy (fill_defaults now w) = true.
Proof. by rewrite fill_defaults_eq. Qed.

Section DeltaLoop.
Variables (ctx : Context) (creds : list (string * Credential)) (F T : Z).

Lemma window_step_truthy rf o o' :
  window_step (current_time ctx) o o' →
  opt_window_truthy (referent_non_revoked_timespan rf o) = true →
  opt_window_truthy (referent_non_revoked_timespan rf o') = true.
Proof.
  intros [->|(w1 & -> & ->)]; [done|]. unfold referent_non_revoked_timespan.
  destruct (rf_non_revoked rf); [done|]. intros _. apply fill_defaults_truthy.
Qed.

Lemma window_step_fixed o o' :
  window_step (current_time ctx) o o' → window_fixed (current_time ctx) F T o → window_fixed (current_time ctx) F T o'.
Proof.
  intros [->|(w1 & -> & ->)]; [done|]. intros Hf w2 [= <-].
  rewrite fill_defaults_idem. by apply Hf.
Qed.

Lemma delta_step_run st rf w res w' (rids : list string) :
  delta_step ctx creds st rf w = (res, w') →
  window_fixed (current_time ctx) F T (ds_non_revoked st) →
  dict_keys (ds_deltas st) = key_of F T <$> rids →
  ∃ new : list string,
    w' = add_events (fetch_of F T <$> new) w ∧
    (∀ rid, rid ∈ new → (rid ∉ rids) ∧ carried creds rid) ∧
    (length new ≤ 1)%nat ∧
    ∀ st', res = Ok st' →
      window_step (current_time ctx) (ds_non_revoked st) (ds_non_revoked st') ∧
      dict_keys (ds_deltas st') = key_of F T <$> (rids ++ new) ∧
      (∀ e, e ∈ dict_values (ds_deltas st') →
         e ∈ dict_values (ds_deltas st) ∨ carried creds (de_rev_reg_id e)) ∧
      (∀ c rid, dict_get (rf_cred_id rf) creds = Some c →
         rev_reg_id c = Some rid → rid ≠ "" →
         opt_window_truthy
           (referent_non_revoked_timespan rf (ds_non_revoked st)) = true →
         is_Some (ds_non_revoked st) ∧ rid ∈ rids ++ new).
Proof.
  intros Hrun Hfix Hkeys. unfold delta_step in Hrun.
  assert (Hskip : ∀ st0, st0 = st → ∃ new : list string,
    w = add_events (fetch_of F T <$> new) w ∧
    (∀ rid, rid ∈ new → (rid ∉ rids) ∧ carried creds rid) ∧ (length new ≤ 1)%nat ∧
    window_step (current_time ctx) (ds_non_revoked st) (ds_non_revoked st0) ∧
    dict_keys (ds_deltas st0) = key_of F T <$> (rids ++ new) ∧
    (∀ e, e ∈ dict_values (ds_deltas st0) →
       e ∈ dict_values (ds_deltas st) ∨ carried creds (de_rev_reg_id e))).
  { intros st0 ->. exists []. rewrite add_events_nil, app_nil_r.
    split; [done|]. split; [by intros ? ?%elem_of_nil|]. split; [cbn; lia|].
    split; [by left|]. split; [done|]. intros; by left. }
  destruct (dict_get (rf_cred_id rf) creds) as [c|] eqn:Hc;
    cbn [getitem] in Hrun; mred_in Hrun.
  2:{ injection Hrun as <- <-. exists []. rewrite add_events_nil.
      split; [done|]. split; [by intros ? ?%elem_of_nil|].
      split; [cbn; lia|]. by intros st' [=]. }
  destruct (truthy_str (rev_reg_id c)) eqn:Htr; cbn [negb] in Hrun;
    mred_in Hrun.
  2:{ injection Hrun as <- <-.
      destruct (Hskip st eq_refl) as (new & Hw & Hnew & Hlen & H1 & H2 & H3).
      exists new. split; [done|]. split; [done|]. split; [lia|].
      intros st' [= <-]. split; [done|]. split; [done|]. split; [done|].
      intros c' rid [= <-] Hrid Hne. apply not_true_iff_false in Htr.
      destruct Htr. apply truthy_str_true. by exists rid. }
  apply truthy_str_true in Htr as (rid & Hrid & Hne).
  rewrite Hrid in Hrun. change (default "" (Some rid)) with rid in Hrun.
  destruct (opt_window_truthy _) eqn:Heff.
  2:{ injection Hrun as <- <-.
      destruct (Hskip st eq_refl) as (new & Hw & Hnew & Hlen & H1 & H2 & H3).
      exists new. split; [done|]. split; [done|]. split; [lia|].
      intros st' [= <-]. split; [done|]. split; [done|]. split; [done|].
      intros c' rid' [= <-] Hrid' Hne' Heff'. congruence. }
  destruct (ds_non_revoked st) as [w1|] eqn:Hnrt.
  2:{ mred_in Hrun. injection Hrun as <- <-. exists []. rewrite add_events_nil.
      split; [done|]. split; [by intros ? ?%elem_of_nil|].
      split; [cbn; lia|]. by intros st' [=]. }
  rewrite (Hfix w1 eq_refl) in Hrun. cbn [w_from w_to getitem] in Hrun.
  mred_in Hrun. fold (key_of F T rid) in Hrun.
  assert (Hcar : carried creds rid) by (by exists (rf_cred_id rf), c).
  destruct (dict_mem (key_of F T rid) (ds_deltas st)) eqn:Hmem; mred_in Hrun.
  - injection Hrun as <- <-. apply dict_mem_true in Hmem.
    rewrite Hkeys in Hmem. apply list_elem_of_fmap in Hmem as (rid' & Hk & Hin).
    apply delta_key_inj in Hk as <-.
    exists []. rewrite add_events_nil, app_nil_r.
    split; [done|]. split; [by intros ? ?%elem_of_nil|].
    split; [cbn; lia|]. intros st' [= <-]. cbn.
    split; [right; exists w1; by rewrite (Hfix w1 eq_refl)|].
    split; [done|]. split; [intros; by left|].
    intros c' rid' [= <-] Hrid' _ _. split; [done|]. congruence.
  - apply dict_mem_false in Hmem.
    assert (Hfresh : rid ∉ rids).
    { intros Hin. apply Hmem. rewrite Hkeys. apply list_elem_of_fmap.
      by exists rid. }
    exists [rid]. fold (fetch_of F T rid) in Hrun.
    destruct (ledger_get_revoc_reg_delta ctx rid F T) as [dt|e] eqn:Hfetch;
      mred_in Hrun; injection Hrun as <- <-.
    + split; [done|].
      split; [by intros ? ->%list_elem_of_singleton|]. split; [cbn; lia|].
      intros st' [= <-]. cbn.
      split; [right; exists w1; by rewrite (Hfix w1 eq_refl)|].
      split.
      { rewrite dict_set_fresh by done. unfold dict_keys in *.
        rewrite !fmap_app, Hkeys. done. }
      split.
      { intros e He. apply dict_set_values_elem in He as [->|He];
          [by right|by left]. }
      intros c' rid' [= <-] Hrid' _ _. split; [done|].
      apply elem_of_app. right. apply list_elem_of_singleton. congruence.
    + split; [done|].
      split; [by intros ? ->%list_elem_of_singleton|]. split; [cbn; lia|].
      by intros st' [=].
Qed.

Lemma fetch_deltas_run rfs st w res w' (rids : list string) :
  for_each (delta_step ctx creds) rfs st w = (res, w') →
  window_fixed (current_time ctx) F T (ds_non_revoked st) →
  dict_keys (ds_deltas st) = key_of F T <$> rids →
  NoDup rids →
  ∃ new : list string,
    w' = add_events (fetch_of F T <$> new) w ∧
    NoDup (rids ++ new) ∧
    (∀ rid, rid ∈ new → carried creds rid) ∧
    ∀ st', res = Ok st' →
      (∀ e, e ∈ dict_values (ds_deltas st') →
         e ∈ dict_values (ds_deltas st) ∨ carried creds (de_rev_reg_id e)) ∧
      (∀ rf c rid, rf ∈ rfs →
         dict_get (rf_cred_id rf) creds = Some c →
         rev_reg_id c = Some rid → rid ≠ "" →
         opt_window_truthy
           (referent_non_revoked_timespan rf (ds_non_revoked st)) = true →
         is_Some (ds_non_revoked st) ∧ rid ∈ rids ++ new).
Proof.
  revert st w rids. induction rfs as [|rf rfs IH]; intros st w rids.
  - intros [= <- <-] _ _ Hnd. exists []. rewrite add_events_nil, app_nil_r.
    split; [done|]. split; [done|]. split; [by intros ? ?%elem_of_nil|].
    intros st' [= <-]. split; [intros; by left|].
    by intros ? ? ? ?%elem_of_nil.
  - rewrite for_each_cons. intros Hrun Hfix Hkeys Hnd.
    destruct (delta_step ctx creds st rf w) as [[st1|e] w1] eqn:Hstep;
      destruct (delta_step_run st rf w _ w1 rids Hstep Hfix Hkeys)
        as (new1 & -> & Hnew1 & Hlen & Hpost).
    + destruct (Hpost st1 eq_refl) as (Hws & Hkeys1 & Hent1 & Hcov1).
      assert (Hnd1 : NoDup (rids ++ new1)).
      { apply NoDup_app. split; [done|]. split.
        - intros rid Hin Hin'. by destruct (Hnew1 rid Hin').
        - destruct new1 as [|a [|b new1]]; cbn in Hlen; [constructor| |lia].
          apply NoDup_singleton. }
      destruct (IH st1 _ (rids ++ new1) Hrun) as (new2 & -> & Hnd2 & Hnew2 & Hpost2);
        [by eapply window_step_fixed|done|done|].
      exists (new1 ++ new2). rewrite add_events_app, <- fmap_app.
      split; [done|]. split; [by rewrite app_assoc|].
      split.
      { intros rid [Hin|Hin]%elem_of_app; [by destruct (Hnew1 rid Hin)|by apply Hnew2]. }
      intros st' ->. destruct (Hpost2 st' eq_refl) as (Hent2 & Hcov2).
      split.
      { intros e He. destruct (Hent2 e He) as [He1|?]; [|by right].
        by apply Hent1. }
      intros rf' c rid [->|Hin]%elem_of_cons Hc Hrid Hne Heff.
      * destruct (Hcov1 c rid Hc Hrid Hne Heff) as [? Hin1]. split; [done|].
        rewrite app_assoc. apply elem_of_app. by left.
      * destruct (Hcov2 rf' c rid Hin Hc Hrid Hne) as [Hsome Hin2].
        { by eapply window_step_truthy. }
        split; [|by rewrite app_assoc].
        destruct Hws as [Heq|(w1 & Hw1 & _)]; [by rewrite <- Heq|].
        by rewrite Hw1.
    + injection Hrun as <- <-. exists new1. split; [done|].
      split.
      { apply NoDup_app. split; [done|]. split.
        - intros rid Hin Hin'. by destruct (Hnew1 rid Hin').
        - destruct new1 as [|a [|b new1]]; cbn in Hlen; [constructor| |lia].
          apply NoDup_singleton. }
      split; [intros rid Hin; by destruct (Hnew1 rid Hin)|]. by intros st' [=].
Qed.

End DeltaLoop.

(** *** Revocation states *)

Lemma state_event_ok_weaken cred l1 l2 e :
  (∀ x, x ∈ l1 → x ∈ l2) → state_event_ok cred l1 e → state_event_ok cred l2 e.
Proof.
  intros Hsub. destruct e; cbn; try done; [by apply Hsub|].
  intros [? ?]. split; [by apply Hsub|done].
Qed.

Lemma revocation_state_step_run ctx regs cred states e w res w' :
  revocation_state_step ctx regs cred states e w = (res, w') →
  ∃ evs, w' = add_events evs w ∧
         Forall (state_event_ok cred [de_rev_reg_id e]) evs.
Proof.
  unfold revocation_state_step.
  destruct (regs !! de_rev_reg_id e); cbn [getitem]; mred.
  2:{ intros [= <- <-]. exists []. by rewrite add_events_nil. }
  assert (Hin : de_rev_reg_id e ∈ [de_rev_reg_id e]) by (by left).
  assert (Hrest : ∀ w1 pre, Forall (state_event_ok cred [de_rev_reg_id e]) pre →
    (match cred with
     | Some c => mret c
     | None => mthrow UnboundLocalError
     end ≫= λ c : Credential,
       log (EvCreateRevocationState (de_rev_reg_id e) (cred_rev_id c)
              (de_delta e) (de_timestamp e));;
       s ← lift (create_revocation_state ctx (de_rev_reg_id e) (cred_rev_id c)
                   (de_delta e) (de_timestamp e));
       mret (<[de_rev_reg_id e :=
                 <[de_timestamp e := s]>
                   (default ∅
                      (match states !! de_rev_reg_id e with
                       | Some _ => states
                       | None => <[de_rev_reg_id e := ∅]> states
                       end !! de_rev_reg_id e))]>
               match states !! de_rev_reg_id e with
               | Some _ => states
               | None => <[de_rev_reg_id e := ∅]> states
               end)) (add_events pre w1) = (res, w') →
    ∃ evs, w' = add_events evs w1 ∧
           Forall (state_event_ok cred [de_rev_reg_id e]) evs).
  { intros w1 pre Hpre. destruct cred as [c|]; mred.
    - destruct (create_revocation_state ctx _ _ _ _); mred;
        intros [= <- <-]; rewrite add_events_app; eexists; (split; [done|]);
        apply Forall_app; (split; [done|]); constructor; try done;
        (split; [done|]); by exists c.
    - intros [= <- <-]. by exists pre. }
  destruct (has_local_tail_file ctx (de_rev_reg_id e)); mred.
  - intros Hrun. rewrite <- (add_events_nil w) in Hrun at 1.
    by apply Hrest in Hrun.
  - destruct (retrieve_tails ctx (de_rev_reg_id e)) as [[]|err]; mred.
    + intros Hrun. apply Hrest in Hrun; [done|]. by constructor.
    + intros [= <- <-]. eexists. split; [done|]. by constructor.
Qed.

Lemma create_revocation_states_run ctx regs cred entries states w res w' :
  for_each (revocation_state_step ctx regs cred) entries states w = (res, w') →
  ∃ evs, w' = add_events evs w ∧
         Forall (state_event_ok cred (de_rev_reg_id <$> entries)) evs.
Proof.
  revert states w. induction entries as [|e entries IH]; intros states w.
  - intros [= <- <-]. exists []. by rewrite add_events_nil.
  - rewrite for_each_cons.
    destruct (revocation_state_step ctx regs cred states e w)
      as [[s1|err] w1] eqn:Hstep;
      apply revocation_state_step_run in Hstep as (evs1 & -> & Hevs1).
    + intros Hrun. apply IH in Hrun as (evs2 & -> & Hevs2).
      rewrite add_events_app. eexists. split; [done|]. apply Forall_app.
      split.
      * eapply Forall_impl; [exact Hevs1|]. intros ev.
        apply state_event_ok_weaken. intros x ->%list_elem_of_singleton.
        rewrite fmap_cons. by left.
      * eapply Forall_impl; [exact Hevs2|]. intros ev.
        apply state_event_ok_weaken. intros x ?. rewrite fmap_cons. by right.
    + intros [= <- <-]. eexists. split; [done|].
      eapply Forall_impl; [exact Hevs1|]. intros ev.
      apply state_event_ok_weaken. intros x ->%list_elem_of_singleton.
      rewrite fmap_cons. by left.
Qed.

(** *** Saving *)

Lemma save_run ctx r reason w res w' :
  save ctx r reason w = (res, w') →
  ∃ evs, trace w' = trace w ++ evs ∧ Forall tail_event_ok evs ∧
    ∀ r', res = Ok r' →
      state r' = state r ∧ presentation_request r' = presentation_request r ∧
      store w' !! default (length (store w)) (presentation_exchange_id r)
        = Some r'.
Proof.
  unfold save. destruct (storage_save_error ctx r).
  { intros [= <- <-]. exists []. rewrite app_nil_r. split; [done|].
    split; [done|]. by intros r' [=]. }
  rewrite bind_run. cbn.
  destruct (presentation_exchange_id r) as [i|] eqn:Hid.
  - case_bool_decide as Hlt; cbn.
    + intros [= <- <-]. eexists. split; [done|]. split; [by constructor|].
      intros r' [= <-]. split; [done|]. split; [done|]. cbn.
      by apply list_lookup_insert_eq.
    + intros [= <- <-]. exists []. rewrite app_nil_r. split; [done|].
      split; [done|]. by intros r' [=].
  - intros [= <- <-]. eexists. split; [done|]. split; [by constructor|].
    intros r' [= <-]. split; [done|]. split; [done|]. cbn.
    rewrite lookup_app_r by done. by rewrite Nat.sub_diag.
Qed.

(** *** Each schema and credential definition is fetched once *)

Lemma schema_fetches_app l1 l2 :
  schema_fetches (l1 ++ l2) = schema_fetches l1 ++ schema_fetches l2.
Proof. apply omap_app. Qed.

Lemma cred_def_fetches_app l1 l2 :
  cred_def_fetches (l1 ++ l2) = cred_def_fetches l1 ++ cred_def_fetches l2.
Proof. apply omap_app. Qed.

Lemma ledger_fetches_none (P : Event → Prop) l :
  (∀ e, P e → schema_fetches [e] = [] ∧ cred_def_fetches [e] = []) →
  Forall P l → schema_fetches l = [] ∧ cred_def_fetches l = [].
Proof.
  intros HP. induction 1 as [|e l He _ [IH1 IH2]]; [done|].
  change (e :: l) with ([e] ++ l).
  rewrite schema_fetches_app, cred_def_fetches_app, IH1, IH2.
  by destruct (HP e He) as [-> ->].
Qed.

Lemma resolve_ledger_step_fetches ctx lo c w res w' :
  resolve_ledger_step ctx lo c w = (res, w') →
  ∃ evs, w' = add_events evs w ∧
    (schema_fetches evs = [] ∨
     (schema_fetches evs = [schema_id c] ∧ schemas lo !! schema_id c = None)) ∧
    (cred_def_fetches evs = [] ∨
     (cred_def_fetches evs = [cred_def_id c] ∧
      credential_definitions lo !! cred_def_id c = None)) ∧
    ∀ lo', res = Ok lo' →
      (∀ id, is_Some (schemas lo !! id) ∨ id ∈ schema_fetches evs →
             is_Some (schemas lo' !! id)) ∧
      (∀ id, is_Some (credential_definitions lo !! id) ∨
             id ∈ cred_def_fetches evs →
             is_Some (credential_definitions lo' !! id)).
Proof.
  unfold resolve_ledger_step.
  destruct (schemas lo !! schema_id c) as [s0|] eqn:Hs;
    destruct (credential_definitions lo !! cred_def_id c) as [d0|] eqn:Hd;
    destruct (truthy_str (rev_reg_id c));
    try destruct (revocation_registries lo !! default "" (rev_reg_id c));
    mred;
    try destruct (ledger_get_schema ctx (schema_id c)); mred;
    try destruct (ledger_get_credential_definition ctx (cred_def_id c)); mred;
    try destruct (ledger_get_revoc_reg_def ctx (default "" (rev_reg_id c)));
    mred;
    intros [= <- <-];
    (first [ exists []; split; [by rewrite add_events_nil|]
           | rewrite ?add_events_app; eexists; split; [reflexivity|] ]);
    cbn;
    (split; [first [by left | by right]|]);
    (split; [first [by left | by right]|]);
    try (by intros lo' [=]);
    intros lo' [= <-]; cbn;
    (split; intros id [Hid|Hid]; try done;
     try (by apply elem_of_nil in Hid);
     try (apply list_elem_of_singleton in Hid as ->;
          by rewrite lookup_insert_eq);
     destruct Hid as [x Hx];
     match goal with
     | |- is_Some (<[?k := _]> _ !! id) =>
         destruct (decide (k = id)) as [->|Hne];
         [by rewrite lookup_insert_eq|by rewrite lookup_insert_ne, Hx]
     end).
Qed.

Lemma resolve_ledger_objects_fetches ctx creds lo0 w res w' :
  for_each (resolve_ledger_step ctx) creds lo0 w = (res, w') →
  ∃ evs, w' = add_events evs w ∧
    NoDup (schema_fetches evs) ∧ NoDup (cred_def_fetches evs) ∧
    (∀ id, id ∈ schema_fetches evs → schemas lo0 !! id = None) ∧
    (∀ id, id ∈ cred_def_fetches evs →
           credential_definitions lo0 !! id = None).
Proof.
  revert lo0 w. induction creds as [|c creds IH]; intros lo0 w.
  - intros [= <- <-]. exists []. rewrite add_events_nil.
    split; [done|]. split; [constructor|]. split; [constructor|].
    split; by intros ? ?%elem_of_nil.
  - rewrite for_each_cons.
    destruct (resolve_ledger_step ctx lo0 c w) as [[lo1|e] w1] eqn:Hstep;
      apply resolve_ledger_step_fetches in Hstep
        as (evs1 & -> & Hs1 & Hd1 & Hpost).
    + destruct (Hpost lo1 eq_refl) as [Hms Hmd].
      intros Hrun. apply IH in Hrun as (evs2 & -> & Hnds & Hndd & Hs2 & Hd2).
      exists (evs1 ++ evs2). rewrite add_events_app.
      split; [done|]. rewrite schema_fetches_app, cred_def_fetches_app.
      assert (Hnone : ∀ {A} (m0 m1 : gmap string A) id,
                (is_Some (m0 !! id) → is_Some (m1 !! id)) →
                m1 !! id = None → m0 !! id = None).
      { intros A m0 m1 id Hmono H1. destruct (m0 !! id) eqn:H0; [|done].
        destruct Hmono as [x Hx]; [by eexists|]. congruence. }
      split; [|split; [|split]].
      * apply NoDup_app. split; [|split; [|done]].
        -- destruct Hs1 as [->|[-> _]]; [constructor|apply NoDup_singleton].
        -- intros id Hin1 Hin2. apply Hs2 in Hin2.
           destruct (Hms id) as [x Hx]; [by right|]. congruence.
      * apply NoDup_app. split; [|split; [|done]].
        -- destruct Hd1 as [->|[-> _]]; [constructor|apply NoDup_singleton].
        -- intros id Hin1 Hin2. apply Hd2 in Hin2.
           destruct (Hmd id) as [x Hx]; [by right|]. congruence.
      * intros id [Hin|Hin]%elem_of_app.
        -- destruct Hs1 as [Hs1|[Hs1 Hl]]; rewrite Hs1 in Hin;
             [by apply elem_of_nil in Hin|].
           by apply list_elem_of_singleton in Hin as ->.
        -- eapply Hnone; [|by apply Hs2]. intros. apply Hms. by left.
      * intros id [Hin|Hin]%elem_of_app.
        -- destruct Hd1 as [Hd1|[Hd1 Hl]]; rewrite Hd1 in Hin;
             [by apply elem_of_nil in Hin|].
           by apply list_elem_of_singleton in Hin as ->.
        -- eapply Hnone; [|by apply Hd2]. intros. apply Hmd. by left.
    + intros [= <- <-]. exists evs1. split; [done|].
      split; [destruct Hs1 as [->|[-> _]];
              [constructor|apply NoDup_singleton]|].
      split; [destruct Hd1 as [->|[-> _]];
              [constructor|apply NoDup_singleton]|].
      split.
      * intros id Hin. destruct Hs1 as [Hs1|[Hs1 Hl]]; rewrite Hs1 in Hin;
          [by apply elem_of_nil in Hin|].
        by apply list_elem_of_singleton in Hin as ->.
      * intros id Hin. destruct Hd1 as [Hd1|[Hd1 Hl]]; rewrite Hd1 in Hin;
          [by apply elem_of_nil in Hin|].
        by apply list_elem_of_singleton in Hin as ->.
Qed.

Ltac solve_trace :=
  unfold add_events; cbn [trace store];
  rewrite ?app_nil_r, <- ?app_assoc; cbn [app]; rewrite ?app_nil_r;
  try done.

Lemma create_presentation_run ctx r rc comment w res w' :
  create_presentation ctx r rc comment w = (res, w') →
  (∃ e, res = Raise e ∧
     ∃ evs, trace w' = trace w ++ evs ∧ Forall holder_event_ok evs) ∨
  (∃ q refs1 refs creds evsB evsC F T (new rids : list string) evsE evsF,
     presentation_request r = Some q ∧
     extract_referents (pr_requested_attributes q)
       (rc_requested_attributes rc) [] w = (Ok refs1, w) ∧
     extract_referents (pr_requested_predicates q)
       (rc_requested_predicates rc) refs1 w = (Ok refs, w) ∧
     resolve_credentials ctx refs w = (Ok creds, add_events evsB w) ∧
     trace w' = trace w ++ evsB ++ evsC ++ (fetch_of F T <$> new) ++
                evsE ++ evsF ∧
     Forall holder_event_ok evsB ∧
     Forall (ledger_event_ok (dict_values creds)) evsC ∧
     (NoDup (schema_fetches evsC) ∧ NoDup (cred_def_fetches evsC)) ∧
     window_fixed (current_time ctx) F T (pr_non_revoked q) ∧
     NoDup new ∧
     (∀ rid, rid ∈ new → carried creds rid) ∧
     (∀ rid, rid ∈ rids → carried creds rid) ∧
     Forall (state_event_ok (last (dict_values creds)) rids) evsE ∧
     Forall tail_event_ok evsF ∧
     ∀ x, res = Ok x →
       state x.1 = Some STATE_PRESENTATION_SENT ∧
       (∀ rf c rid, rf ∈ dict_values refs →
          dict_get (rf_cred_id rf) creds = Some c →
          rev_reg_id c = Some rid → rid ≠ "" →
          opt_window_truthy
            (referent_non_revoked_timespan rf (pr_non_revoked q)) = true →
          is_Some (pr_non_revoked q) ∧ rid ∈ new)).
Proof.
  unfold create_presentation. intros Hrun.
  destruct (presentation_request r) as [q|] eqn:Hq; mred_in Hrun.
  2:{ injection Hrun as <- <-. left. eexists. split; [done|]. exists [].
      by rewrite app_nil_r. }
  destruct (extract_referents (pr_requested_attributes q)
              (rc_requested_attributes rc) [] w) as [[refs1|e] w1] eqn:H1;
    pose proof (extract_referents_run _ _ _ _ _ _ H1) as [-> _].
  2:{ injection Hrun as <- <-. left. eexists. split; [done|]. exists [].
      by rewrite app_nil_r. }
  mred_in Hrun.
  destruct (extract_referents (pr_requested_predicates q)
              (rc_requested_predicates rc) refs1 w) as [[refs|e] w1] eqn:H2;
    pose proof (extract_referents_run _ _ _ _ _ _ H2) as [-> _].
  2:{ injection Hrun as <- <-. left. eexists. split; [done|]. exists [].
      by rewrite app_nil_r. }
  mred_in Hrun.
  destruct (resolve_credentials ctx refs w) as [[creds|e] wB] eqn:HB;
    pose proof HB as HB';
    apply resolve_credentials_run in HB' as (evsB & -> & HevsB & _).
  2:{ injection Hrun as <- <-. left. eexists. split; [done|]. by exists evsB. }
  mred_in Hrun. right.
  set (F := default 0 (w_from (default {| w_from := None; w_to := None |}
                                 (pr_non_revoked q)))).
  set (T := default (current_time ctx)
              (w_to (default {| w_from := None; w_to := None |}
                       (pr_non_revoked q)))).
  assert (Hfix : window_fixed (current_time ctx) F T (pr_non_revoked q)).
  { intros w0 Hw0. subst F T. rewrite Hw0. cbn. apply fill_defaults_eq. }
  exists q, refs1, refs, creds, evsB.
  (* the ledger objects *)
  destruct (resolve_ledger_objects ctx (dict_values creds) (add_events evsB w))
    as [[lo|e] wC] eqn:HC; pose proof HC as HC2;
    apply resolve_ledger_objects_run in HC as (evsC & -> & HevsC);
    unfold resolve_ledger_objects in HC2;
    apply resolve_ledger_objects_fetches in HC2
      as (evsC2 & HwC & HndS & HndD & _ & _);
    apply add_events_inj in HwC as <-.
  2:{ injection Hrun as <- <-.
      exists evsC, F, T, [], [], [], [].
      do 4 (split; [done|]).
      split.
      { solve_trace. }
      do 9 (split; [first [done | by constructor
                          | by intros ? ?%elem_of_nil]|]).
      by intros x [=]. }
  mred_in Hrun. cbn beta iota zeta in Hrun. mred_in Hrun.
  (* the deltas *)
  destruct (fetch_deltas ctx creds refs (pr_non_revoked q)
              (add_events evsC (add_events evsB w))) as [[ds|e] wD] eqn:HD;
    unfold fetch_deltas in HD;
    (apply (fetch_deltas_run ctx creds F T _ _ _ _ _ []) in HD
      as (new & -> & Hnd & Hnew & Hpost);
     [|exact Hfix|reflexivity|constructor]).
  2:{ injection Hrun as <- <-.
      exists evsC, F, T, new, [], [], [].
      do 4 (split; [done|]).
      split.
      { solve_trace. }
      do 9 (split; [first [done | by constructor
                          | by intros ? ?%elem_of_nil]|]).
      by intros x [=]. }
  mred_in Hrun.
  destruct (Hpost ds eq_refl) as (Hent & Hcov).
  set (rids := de_rev_reg_id <$> dict_values (ds_deltas ds)).
  assert (Hrids : ∀ rid, rid ∈ rids → carried creds rid).
  { intros rid (e & -> & He)%list_elem_of_fmap.
    destruct (Hent e He) as [Hnil|?]; [|done]. by apply elem_of_nil in Hnil. }
  (* the revocation states *)
  destruct (create_revocation_states ctx (revocation_registries lo)
              (last (dict_values creds)) (ds_deltas ds)
              (add_events (fetch_of F T <$> new)
                 (add_events evsC (add_events evsB w))))
    as [[states|e] wE] eqn:HE;
    unfold create_revocation_states in HE;
    apply create_revocation_states_run in HE as (evsE & -> & HevsE).
  2:{ injection Hrun as <- <-.
      exists evsC, F, T, new, rids, evsE, [].
      do 4 (split; [done|]).
      split.
      { solve_trace. }
      do 9 (split; [first [done | by constructor
                          | by intros ? ?%elem_of_nil]|]).
      by intros x [=]. }
  mred_in Hrun. cbn beta iota zeta in Hrun. mred_in Hrun.
  (* the proof and the save *)
  exists evsC, F, T, new, rids, evsE.
  rewrite ?add_events_app in Hrun.
  destruct (holder_create_presentation ctx _ rc _ _ states) as [proof|e];
    mred_in Hrun.
  2:{ injection Hrun as <- <-. exists [EvHolderCreatePresentation].
      do 4 (split; [done|]).
      split.
      { solve_trace. }
      do 9 (split; [first [done | by repeat constructor
                          | by intros ? ?%elem_of_nil]|]).
      by intros x [=]. }
  rewrite ?add_events_app in Hrun.
  match type of Hrun with
  | context [save ?c ?rr ?reason ?ww] =>
      destruct (save c rr reason ww) as [[r4|e] wS] eqn:HS;
      apply save_run in HS as (evsS & HtS & HevsS & HpostS)
  end; injection Hrun as <- <-.
  - exists (EvHolderCreatePresentation :: evsS).
    do 4 (split; [done|]).
    split.
    { rewrite HtS. solve_trace. }
    do 9 (split; [first [done | by constructor
                        | by intros ? ?%elem_of_nil]|]).
    intros x [= <-]. cbn. destruct (HpostS r4 eq_refl) as (Hst & _).
    split; [by rewrite Hst|].
    intros rf c rid Hrf Hc Hrid Hne Heff.
    apply (Hcov rf c rid Hrf Hc Hrid Hne Heff).
  - exists (EvHolderCreatePresentation :: evsS).
    do 4 (split; [done|]).
    split.
    { rewrite HtS. solve_trace. }
    do 9 (split; [first [done | by constructor
                        | by intros ? ?%elem_of_nil]|]).
    by intros x [=].
Qed.

(** *** What the phases contribute to the delta fetches *)

Lemma delta_fetches_app l1 l2 :
  delta_fetches (l1 ++ l2) = delta_fetches l1 ++ delta_fetches l2.
Proof. apply omap_app. Qed.

Lemma delta_fetches_none (P : Event → Prop) l :
  (∀ e, P e → delta_fetches [e] = []) → Forall P l → delta_fetches l = [].
Proof.
  intros HP. induction 1 as [|e l He _ IH]; [done|].
  change (e :: l) with ([e] ++ l). by rewrite delta_fetches_app, (HP e He), IH.
Qed.

Lemma delta_fetches_holder l : Forall holder_event_ok l → delta_fetches l = [].
Proof. apply delta_fetches_none. by intros e [k ->]. Qed.

Lemma delta_fetches_ledger creds l :
  Forall (ledger_event_ok creds) l → delta_fetches l = [].
Proof. apply delta_fetches_none. by intros []. Qed.

Lemma delta_fetches_state cred rids l :
  Forall (state_event_ok cred rids) l → delta_fetches l = [].
Proof. apply delta_fetches_none. by intros []. Qed.

Lemma delta_fetches_tail l : Forall tail_event_ok l → delta_fetches l = [].
Proof. apply delta_fetches_none. by intros []. Qed.

Lemma delta_fetches_fetch F T (new : list string) :
  delta_fetches (fetch_of F T <$> new) = (λ rid, (rid, F, T)) <$> new.
Proof. induction new as [|rid new IH]; [done|]. cbn. by rewrite <- IH. Qed.


Lemma dict_set_elem {V} k (v : V) d x :
  x ∈ dict_set k v d → x = (k, v) ∨ x ∈ d.
Proof.
  induction d as [|[k' v'] d IH]; cbn.
  - intros ?%list_elem_of_singleton. by left.
  - case_decide.
    + intros [->|?]%elem_of_cons; [by left|]. right. by right.
    + intros [->|?]%elem_of_cons; [right; by left|].
      destruct IH as [?|?]; [done|by left|]. right. by right.
Qed.

Lemma resolve_credentials_elems ctx rfs creds0 w creds w' :
  for_each (resolve_credential_step ctx) rfs creds0 w = (Ok creds, w') →
  ∀ k c, (k, c) ∈ creds →
    (k, c) ∈ creds0 ∨
    (k ∈ rf_cred_id <$> rfs ∧ holder_get_credential ctx k = Ok c).
Proof.
  revert creds0 w. induction rfs as [|rf rfs IH]; intros creds0 w.
  - intros [= <- <-] k c Hin. by left.
  - rewrite for_each_cons. unfold resolve_credential_step at 1.
    destruct (dict_mem (rf_cred_id rf) creds0); mred.
    + intros Hrun k c Hin. destruct (IH _ _ Hrun k c Hin) as [?|[? ?]];
        [by left|]. right. split; [|done]. rewrite fmap_cons. by right.
    + destruct (holder_get_credential ctx (rf_cred_id rf)) as [c0|e] eqn:Hh;
        mred; [|done].
      intros Hrun k c Hin. destruct (IH _ _ Hrun k c Hin) as [Hin0|[? ?]].
      * apply dict_set_elem in Hin0 as [[= -> ->]|?]; [|by left].
        right. split; [|done]. rewrite fmap_cons. by left.
      * right. split; [|done]. rewrite fmap_cons. by right.
Qed.

Lemma extract_referents_cred_ids items choices acc w refs :
  extract_referents items choices acc w = (Ok refs, w) →
  ∀ rf, rf ∈ dict_values refs →
    rf ∈ dict_values acc ∨ rf_cred_id rf ∈ cc_cred_id <$> choices.*2.
Proof.
  intros Hrun rf Hrf.
  destruct (extract_referents_run _ _ _ _ _ _ Hrun) as [_ Hpost].
  destruct (Hpost refs eq_refl rf Hrf) as [?|(ch & item & Hch & _ & ->)];
    [by left|]. right. cbn. apply list_elem_of_fmap. exists ch.2.
  split; [done|]. apply list_elem_of_fmap. by exists ch.
Qed.



(** C5, and the inputs on which the code departs from it.
    [create_presentation] does deduplicate its delta fetches by key: in
    every run the fetches are pairwise distinct. But the bounds of the key
    are not those of the referents: whenever the request has a request-level
    interval, every fetch is for that interval, [from] defaulted to 0 and
    [to] to the current time, whatever interval the referents have. So with
    two referents that both have their own interval [100 .. 200] and
    credentials of registry [R1], under a request-level interval that only
    says [from = 10], the call returns having fetched once the delta of
    [(R1, 10, current time)] and never that of the key the two referents
    share, [(R1, 100, 200)]; and with no request-level interval the call
    raises [TypeError] and fetches no delta at all. *)
Theorem create_presentation_delta_key_from_request_level :
  (∀ (ctx : Context) (r : V10PresentationExchange)
     (rc : RequestedCredentials) (comment : option string) (w : World)
     (res : result (V10PresentationExchange * Presentation)) (w' : World)
     (evs : list Event),
     create_presentation ctx r rc comment w = (res, w') →
     trace w' = trace w ++ evs →
     NoDup (delta_fetches evs) ∧
     ∀ q w0 rid f t,
       presentation_request r = Some q →
       pr_non_revoked q = Some w0 →
       (rid, f, t) ∈ delta_fetches evs →
       f = default 0 (w_from w0) ∧
       t = default (current_time ctx) (w_to w0)) ∧
  ((∃ x, (create_presentation Scenario.ctx
            (Scenario.prover_record Scenario.request_shared_own_window)
            (Scenario.choose [("a1", "cred-a"); ("a2", "cred-c")]) None
            Scenario.empty_world).1 = Ok x) ∧
   delta_fetches
     (trace (create_presentation Scenario.ctx
               (Scenario.prover_record Scenario.request_shared_own_window)
               (Scenario.choose [("a1", "cred-a"); ("a2", "cred-c")]) None
               Scenario.empty_world).2) = [("R1", 10, 1000)] ∧
   ("R1", 100, 200) ∉
     delta_fetches
       (trace (create_presentation Scenario.ctx
                 (Scenario.prover_record Scenario.request_shared_own_window)
                 (Scenario.choose [("a1", "cred-a"); ("a2", "cred-c")]) None
                 Scenario.empty_world).2)) ∧
  ((create_presentation Scenario.ctx
      (Scenario.prover_record Scenario.request_shared_only_own_window)
      (Scenario.choose [("a1", "cred-a"); ("a2", "cred-c")]) None
      Scenario.empty_world).1 = Raise TypeError ∧
   delta_fetches
     (trace (create_presentation Scenario.ctx
               (Scenario.prover_record
                  Scenario.request_shared_only_own_window)
               (Scenario.choose [("a1", "cred-a"); ("a2", "cred-c")]) None
               Scenario.empty_world).2) = []).
Proof.
  split; [|split].
  - intros ctx r rc comment w res w' evs Hrun Htr.
    apply create_presentation_run in Hrun
      as [(e & -> & evs' & Ht & Hevs)
         |(q & refs1 & refs & creds & evsB & evsC & F & T & new & rids & evsE
           & evsF & Hq & H1 & H2 & HB & Ht & HevsB & HevsC & HndC & Hfix & Hnd
           & Hnew & Hrids & HevsE & HevsF & Hpost)].
    + rewrite Ht in Htr. apply app_inv_head in Htr as <-.
      rewrite delta_fetches_holder by done.
      split; [constructor|]. by intros ? ? ? ? ? _ _ ?%elem_of_nil.
    + rewrite Ht in Htr. apply app_inv_head in Htr as <-.
      rewrite !delta_fetches_app, (delta_fetches_holder evsB),
        (delta_fetches_ledger _ evsC), (delta_fetches_state _ _ evsE),
        (delta_fetches_tail evsF), delta_fetches_fetch, app_nil_r by done.
      cbn [app]. split.
      { apply NoDup_fmap_2; [|done]. by intros rid1 rid2 [= ->]. }
      intros q' w0 rid f t Hq' Hw0 Hin.
      rewrite Hq in Hq'. injection Hq' as <-.
      pose proof (Hfix w0 Hw0) as Hfill. rewrite fill_defaults_eq in Hfill.
      injection Hfill as <- <-.
      by apply list_elem_of_fmap in Hin as (rid' & [= _ -> ->] & _).
  - split; [eexists; vm_compute; reflexivity|].
    split; [vm_compute; reflexivity|].
    replace (delta_fetches _) with [("R1", 10, 1000)]
      by (vm_compute; reflexivity).
    intros Hin. apply list_elem_of_singleton in Hin. discriminate Hin.
  - split; vm_compute; reflexivity.
Qed.

(** The general part of the statement above, on a run where two referents
    without interval of their own share the request-level interval
    [10 .. 20] and the registry [R1]. *)
Lemma create_presentation_delta_key_from_request_level_witness :
  NoDup (delta_fetches (trace
    (create_presentation Scenario.ctx
       (Scenario.prover_record Scenario.request_two)
       (Scenario.choose [("a1", "cred-a"); ("a2", "cred-c")]) None
       Scenario.empty_world).2)) ∧
  ((10 : Z) = default 0 (Some 10) ∧ (20 : Z) = default 1000 (Some 20)).
Proof.
  destruct (proj1 create_presentation_delta_key_from_request_level
              Scenario.ctx (Scenario.prover_record Scenario.request_two)
              (Scenario.choose [("a1", "cred-a"); ("a2", "cred-c")]) None
              Scenario.empty_world _ _ _ (surjective_pairing _) eq_refl)
    as [Hnd Hkey].
  split; [exact Hnd|].
  refine (Hkey Scenario.request_two
            (Scenario.window (Some 10) (Some 20)) "R1" 10 20
            eq_refl eq_refl _).
  vm_compute. apply list_elem_of_singleton. reflexivity.
Defined.



(** C2, at inputs on which the code departs from it. A referent has its own
    interval [100 .. 200] and the request-level interval only says
    [from = 10]: the delta is fetched for [10 .. current time], the
    request-level interval completed, not for the referent's interval, and
    the completed request-level interval is written into the stored request.
    With the same referent and no request-level interval at all, the call
    raises [TypeError]. *)
Lemma create_presentation_window_from_request_level :
  delta_fetches
    (trace (create_presentation Scenario.ctx
              (Scenario.prover_record Scenario.request_own_window)
              (Scenario.choose [("a1", "cred-a")]) None
              Scenario.empty_world).2) = [("R1", 10, 1000)] ∧
  (pr_non_revoked <$>
     (store (create_presentation Scenario.ctx
               (Scenario.prover_record Scenario.request_own_window)
               (Scenario.choose [("a1", "cred-a")]) None
               Scenario.empty_world).2 !! 0%nat ≫= presentation_request))
    = Some (Some (Scenario.window (Some 10) (Some 1000))) ∧
  (create_presentation Scenario.ctx
     (Scenario.prover_record Scenario.request_only_own_window)
     (Scenario.choose [("a1", "cred-a")]) None
     Scenario.empty_world).1 = Raise TypeError.
Proof. split; [|split]; vm_compute; reflexivity. Qed.

(** C9. Every [create_revocation_state] call that [create_presentation]
    makes is given the [cred_rev_id] of the last credential of
    [credentials.values()], the one the resolution loop left in its loop
    variable, whichever credential the delta belongs to. With two
    credentials of two registries, the state for the first credential's
    registry is computed from the second credential's [cred_rev_id]. *)
Theorem create_presentation_cred_rev_id_leftover :
  (∀ (ctx : Context) (r : V10PresentationExchange)
     (rc : RequestedCredentials) (comment : option string) (w : World)
     (res : result (V10PresentationExchange * Presentation)) (w' : World),
     create_presentation ctx r rc comment w = (res, w') →
     ∃ evs, trace w' = trace w ++ evs ∧
       ∀ rid cr d ts, EvCreateRevocationState rid cr d ts ∈ evs →
         ∃ q refs1 refs creds w1 c,
           presentation_request r = Some q ∧
           extract_referents (pr_requested_attributes q)
             (rc_requested_attributes rc) [] w = (Ok refs1, w) ∧
           extract_referents (pr_requested_predicates q)
             (rc_requested_predicates rc) refs1 w = (Ok refs, w) ∧
           resolve_credentials ctx refs w = (Ok creds, w1) ∧
           last (dict_values creds) = Some c ∧
           cr = cred_rev_id c)
  ∧
  (holder_get_credential Scenario.ctx "cred-a" = Ok Scenario.cred_a ∧
   rev_reg_id Scenario.cred_a = Some "R1" ∧
   cred_rev_id Scenario.cred_a = Some "1" ∧
   EvCreateRevocationState "R1" (Some "2") "delta R1" 20
     ∈ trace (create_presentation Scenario.ctx
                (Scenario.prover_record Scenario.request_two)
                (Scenario.choose [("a1", "cred-a"); ("a2", "cred-b")]) None
                Scenario.empty_world).2).
Proof.
  split.
  - intros ctx r rc comment w res w' Hrun.
    apply create_presentation_run in Hrun
      as [(e & -> & evs & Ht & Hevs)
         |(q & refs1 & refs & creds & evsB & evsC & F & T & new & rids & evsE
           & evsF & Hq & H1 & H2 & HB & Ht & HevsB & HevsC & HndC & Hfix & Hnd & Hnew
           & Hrids & HevsE & HevsF & Hpost)].
    { exists evs. split; [done|]. intros rid cr d ts Hin.
      rewrite Forall_forall in Hevs. by destruct (Hevs _ Hin). }
    eexists. split; [exact Ht|]. intros rid cr d ts Hin.
    rewrite Forall_forall in HevsB, HevsC, HevsE, HevsF.
    repeat apply elem_of_app in Hin as [Hin|Hin].
    + by destruct (HevsB _ Hin).
    + by destruct (HevsC _ Hin).
    + by apply list_elem_of_fmap in Hin as (? & [=] & _).
    + destruct (HevsE _ Hin) as (_ & c & Hc & ->).
      by exists q, refs1, refs, creds, (add_events evsB w), c.
    + by destruct (HevsF _ Hin).
  - split; [reflexivity|]. split; [reflexivity|]. split; [reflexivity|].
    vm_compute. do 8 right. left.
Qed.

(** The statement above, on a concrete run. *)
Lemma create_presentation_cred_rev_id_leftover_witness :
  ∃ evs,
    trace (create_presentation Scenario.ctx
             (Scenario.prover_record Scenario.request_two)
             (Scenario.choose [("a1", "cred-a"); ("a2", "cred-b")]) None
             Scenario.empty_world).2 = [] ++ evs ∧
    ∃ creds w1,
      resolve_credentials Scenario.ctx
        [("a1", {| rf_cred_id := "cred-a"; rf_non_revoked := None |});
         ("a2", {| rf_cred_id := "cred-b"; rf_non_revoked := None |})]
        Scenario.empty_world = (Ok creds, w1) ∧
      last (dict_values creds) = Some Scenario.cred_b.
Proof.
  destruct (create_presentation Scenario.ctx
              (Scenario.prover_record Scenario.request_two)
              (Scenario.choose [("a1", "cred-a"); ("a2", "cred-b")]) None
              Scenario.empty_world) as [res w'] eqn:Hrun.
  destruct (proj1 create_presentation_cred_rev_id_leftover _ _ _ _ _ _ _ Hrun)
    as (evs & Ht & Hall).
  exists evs. split; [exact Ht|].
  eexists _, _. split; vm_compute; reflexivity.
Defined.

(** C6. In [create_presentation] no schema id and no credential-definition
    id is fetched twice, whatever the call does. [verify_presentation] has
    no such guard: a presentation whose two identifiers share schema [S1]
    and credential definition [D1] makes it fetch each of them twice. *)
Theorem ledger_fetches_create_vs_verify :
  (∀ (ctx : Context) (r : V10PresentationExchange)
     (rc : RequestedCredentials) (comment : option string) (w : World)
     (res : result (V10PresentationExchange * Presentation)) (w' : World),
     create_presentation ctx r rc comment w = (res, w') →
     ∃ evs, trace w' = trace w ++ evs ∧
       NoDup (schema_fetches evs) ∧ NoDup (cred_def_fetches evs))
  ∧
  (schema_fetches
     (trace (verify_presentation Scenario.ctx
               (Scenario.received_record Scenario.proof_shared_ids)
               (Scenario.received_world Scenario.proof_shared_ids)).2)
     = ["S1"; "S1"] ∧
   cred_def_fetches
     (trace (verify_presentation Scenario.ctx
               (Scenario.received_record Scenario.proof_shared_ids)
               (Scenario.received_world Scenario.proof_shared_ids)).2)
     = ["D1"; "D1"]).
Proof.
  split; [|split; vm_compute; reflexivity].
  intros ctx r rc comment w res w' Hrun.
  apply create_presentation_run in Hrun
    as [(e & -> & evs & Ht & Hevs)
       |(q & refs1 & refs & creds & evsB & evsC & F & T & new & rids & evsE
         & evsF & Hq & H1 & H2 & HB & Ht & HevsB & HevsC & [HndS HndD] & Hfix
         & Hnd & Hnew & Hrids & HevsE & HevsF & Hpost)].
  { exists evs. split; [done|].
    destruct (ledger_fetches_none holder_event_ok evs) as [-> ->];
      [by intros e0 [k ->]|done|]. split; constructor. }
  eexists. split; [exact Ht|].
  destruct (ledger_fetches_none holder_event_ok evsB) as [HB1 HB2];
    [by intros e0 [k ->]|done|].
  destruct (ledger_fetches_none (state_event_ok (last (dict_values creds)) rids)
              evsE) as [HE1 HE2]; [by intros []|done|].
  destruct (ledger_fetches_none tail_event_ok evsF) as [HF1 HF2];
    [by intros []|done|].
  destruct (ledger_fetches_none (λ e, ∃ rid, e = fetch_of F T rid)
              (fetch_of F T <$> new)) as [HD1 HD2].
  { by intros e0 [rid ->]. }
  { apply Forall_fmap, Forall_forall. intros rid _. by exists rid. }
  rewrite !schema_fetches_app, !cred_def_fetches_app, HB1, HB2, HE1, HE2,
    HF1, HF2, HD1, HD2, !app_nil_r. done.
Qed.

(** The statement above, on a concrete run. *)
Lemma ledger_fetches_create_vs_verify_witness :
  ∃ evs,
    trace (create_presentation Scenario.ctx
             (Scenario.prover_record Scenario.request_two)
             (Scenario.choose [("a1", "cred-a"); ("a2", "cred-b")]) None
             Scenario.empty_world).2 = [] ++ evs ∧
    schema_fetches evs = ["S1"] ∧ NoDup (schema_fetches evs).
Proof.
  destruct (create_presentation Scenario.ctx
              (Scenario.prover_record Scenario.request_two)
              (Scenario.choose [("a1", "cred-a"); ("a2", "cred-b")]) None
              Scenario.empty_world) as [res w'] eqn:Hrun.
  destruct (proj1 ledger_fetches_create_vs_verify _ _ _ _ _ _ _ Hrun)
    as (evs & Ht & Hnd & _).
  exists evs. split; [exact Ht|]. split; [|exact Hnd].
  vm_compute in Hrun. injection Hrun as _ <-. cbn in Ht. subst evs.
  reflexivity.
Defined.

(** *** The state each operation leaves *)

Lemma save_state ctx r reason w r' w' :
  save ctx r reason w = (Ok r', w') → state r' = state r.
Proof.
  intros Hrun. apply save_run in Hrun as (_ & _ & _ & Hpost).
  by destruct (Hpost r' eq_refl).
Qed.

Ltac bind_ok H :=
  apply bind_inv in H as [(? & _ & [=])|(? & ? & ? & H)].

Lemma create_bound_request_state ctx r name version nonce comment w r' msg w' :
  create_bound_request ctx r name version nonce comment w
    = (Ok (r', msg), w') →
  state r' = Some STATE_REQUEST_SENT.
Proof.
  unfold create_bound_request. intros Hrun.
  bind_ok Hrun. bind_ok Hrun. cbn beta zeta in Hrun. bind_ok Hrun.
  injection Hrun as <- _ _.
  match goal with H : save _ _ _ _ = _ |- _ => apply save_state in H as -> end.
  done.
Qed.

Lemma receive_request_state ctx r w r' w' :
  receive_request ctx r w = (Ok r', w') →
  state r' = Some STATE_REQUEST_RECEIVED.
Proof. unfold receive_request. by intros ->%save_state. Qed.

Lemma create_presentation_state ctx r rc comment w r' msg w' :
  create_presentation ctx r rc comment w = (Ok (r', msg), w') →
  state r' = Some STATE_PRESENTATION_SENT.
Proof.
  intros Hrun. apply create_presentation_run in Hrun
    as [(e & [=] & _)
       |(q & refs1 & refs & creds & evsB & evsC & F & T & new & rids & evsE
         & evsF & _ & _ & _ & _ & _ & _ & _ & _ & _ & _ & _ & _ & _ & _ & Hpost)].
  by destruct (Hpost _ eq_refl).
Qed.

Lemma receive_presentation_state ctx message w r' w' :
  receive_presentation ctx message w = (Ok r', w') →
  state r' = Some STATE_PRESENTATION_RECEIVED.
Proof.
  unfold receive_presentation. cbn beta zeta. intros Hrun.
  bind_ok Hrun. bind_ok Hrun. by apply save_state in Hrun as ->.
Qed.

Lemma verify_presentation_state ctx r w r' w' :
  verify_presentation ctx r w = (Ok r', w') →
  state r' = Some STATE_VERIFIED.
Proof.
  unfold verify_presentation. cbn beta zeta. intros Hrun.
  do 6 bind_ok Hrun. bind_ok Hrun. injection Hrun as <- _.
  match goal with H : save _ _ _ _ = _ |- _ => apply save_state in H as -> end.
  done.
Qed.

Lemma receive_presentation_ack_state ctx message w r' w' :
  receive_presentation_ack ctx message w = (Ok r', w') →
  state r' = Some STATE_PRESENTATION_ACKED.
Proof.
  unfold receive_presentation_ack. cbn beta zeta. intros Hrun.
  bind_ok Hrun. bind_ok Hrun. by apply save_state in Hrun as ->.
Qed.

Lemma valid_step_rank x y :
  valid_step x y → (state_rank (state x.1) ≤ state_rank (state y.1))%nat.
Proof.
  destruct 1 as
    [ctx r w name version nonce comment r' msg w' Hs Hrun
    |ctx r w r' w' Hs Hrun
    |ctx r w rc comment r' msg w' Hs Hrun
    |ctx message r w r' w' Hget Hs Hrun
    |ctx r w r' w' Hs Hrun
    |ctx message conn r w r' w' Hconn Hget Hs Hrun]; cbn [fst].
  - apply create_bound_request_state in Hrun as ->. rewrite Hs. cbn. lia.
  - apply receive_request_state in Hrun as ->.
    destruct Hs as [-> | ->]; cbn; lia.
  - apply create_presentation_state in Hrun as ->. rewrite Hs. cbn. lia.
  - apply receive_presentation_state in Hrun as ->. rewrite Hs. cbn. lia.
  - apply verify_presentation_state in Hrun as ->. rewrite Hs. cbn. lia.
  - apply receive_presentation_ack_state in Hrun as ->.
    destruct Hs as [-> | ->]; cbn; lia.
Qed.

Lemma earlier_rank ro s' s :
  earlier (spec_role_order ro) s' s →
  (state_rank (Some s') < state_rank (Some s))%nat.
Proof.
  intros (i & j & Hi & Hj & Hlt).
  destruct ro; cbn in Hi, Hj;
    destruct i as [|[|[|[|[|i]]]]]; destruct j as [|[|[|[|[|j]]]]];
    simplify_eq/=; lia.
Qed.

(** C8. Along any sequence of manager operations, each applied to the
    record in the prior state that section 4.5 expects, the record never
    reaches a state that comes earlier than a state it had, in the
    prover's ordering or in the verifier's. *)
Theorem state_monotonic
    (x y : V10PresentationExchange * World) (s s' : State) (ro : Role) :
  rtc valid_step x y →
  state x.1 = Some s →
  state y.1 = Some s' →
  ¬ earlier (spec_role_order ro) s' s.
Proof.
  intros Hrun Hs Hs' Hearlier. apply earlier_rank in Hearlier.
  assert (state_rank (state x.1) ≤ state_rank (state y.1))%nat as Hle.
  { clear -Hrun. induction Hrun as [|x y z Hstep _ IH]; [done|].
    apply valid_step_rank in Hstep. lia. }
  rewrite Hs, Hs' in Hle. lia.
Qed.

(** The statement above, on a concrete run. *)
Lemma state_monotonic_witness :
  ¬ earlier (spec_role_order ROLE_VERIFIER) STATE_VERIFIED STATE_REQUEST_SENT
  ∧ earlier (spec_role_order ROLE_VERIFIER) STATE_REQUEST_SENT STATE_VERIFIED.
Proof.
  split; [|exists 1%nat, 3%nat; split; [reflexivity|split; [reflexivity|lia]]].
  apply (state_monotonic
           (Scenario.verifier_record, Scenario.verifier_world)
           (set_state STATE_VERIFIED
              (set_verified (PyStr "true")
                 (Scenario.received_record (Scenario.proof_revealing "21"))),
            (verify_presentation Scenario.ctx
               (Scenario.received_record (Scenario.proof_revealing "21"))
               {| store := [Scenario.received_record
                              (Scenario.proof_revealing "21")];
                  trace := [EvSave (Scenario.received_record
                                      (Scenario.proof_revealing "21"))
                              "receive presentation"] |}).2)).
  - eapply rtc_l.
    + apply (step_receive_presentation Scenario.ctx
               (Scenario.presentation_msg "21")); [reflexivity|reflexivity|].
      vm_compute. reflexivity.
    + apply rtc_once.
      apply (step_verify_presentation Scenario.ctx); [reflexivity|].
      vm_compute. reflexivity.
  - reflexivity.
  - reflexivity.
Defined.

End PresentProofTheory.

(** * Properties of the revocation registry routes *)

Module RoutesTheory.
Import Routes.
Open Scope list_scope.

Lemma check_published_none ctx id t :
  search_records ctx (CRED_DEF_SENT_RECORD_TYPE ctx) id = Ok [] →
  check_published ctx id t =
    (Raise HTTPNotFound, t ++ [EvSearchRecords (CRED_DEF_SENT_RECORD_TYPE ctx) id]).
Proof.
  intros Hs. unfold check_published. unfold mbind, M_bind, log, modify, lift.
  by rewrite Hs.
Qed.

(** C10. When storage holds no record of a published credential definition
    for the id, [revocation_create_registry], [get_current_registry],
    [get_tail_file] and [publish_registry] raise [HTTPNotFound] having called
    nothing but the storage search; [update_registry] does not search the
    storage: it asks the revocation subsystem for the active registry of the
    id and, when there is one, sets its public URI and saves it. *)
Theorem unpublished_cred_def_not_found
    (ctx : Context) (request : Request) (t : list Event) :
  search_records ctx (CRED_DEF_SENT_RECORD_TYPE ctx)
    (body_credential_definition_id request) = Ok [] →
  search_records ctx (CRED_DEF_SENT_RECORD_TYPE ctx)
    (Some (match_info_id request)) = Ok [] →
  revocation_create_registry ctx request t =
    (Raise HTTPNotFound,
     t ++ [EvSearchRecords (CRED_DEF_SENT_RECORD_TYPE ctx)
             (body_credential_definition_id request)]) ∧
  get_current_registry ctx request t =
    (Raise HTTPNotFound,
     t ++ [EvSearchRecords (CRED_DEF_SENT_RECORD_TYPE ctx)
             (Some (match_info_id request))]) ∧
  get_tail_file ctx request t =
    (Raise HTTPNotFound,
     t ++ [EvSearchRecords (CRED_DEF_SENT_RECORD_TYPE ctx)
             (Some (match_info_id request))]) ∧
  publish_registry ctx request t =
    (Raise HTTPNotFound,
     t ++ [EvSearchRecords (CRED_DEF_SENT_RECORD_TYPE ctx)
             (Some (match_info_id request))]) ∧
  is_revocation_op
    (EvSearchRecords (CRED_DEF_SENT_RECORD_TYPE ctx)
       (Some (match_info_id request))) = false ∧
  ∀ registry_record,
    get_active_issuer_revocation_record ctx (match_info_id request)
      = Ok registry_record →
    record_save ctx
      (set_tail_file_public_uri (body_tails_public_uri request)
         registry_record) = Ok tt →
    update_registry ctx request t =
      (Ok (json_response
             (set_tail_file_public_uri (body_tails_public_uri request)
                registry_record)),
       t ++ [EvGetActiveIssuerRevocationRecord (match_info_id request);
             EvRecordSave
               (set_tail_file_public_uri (body_tails_public_uri request)
                  registry_record)
               "Updating tail file public URI."]).
Proof.
  intros Hbody Hid.
  pose proof (check_published_none ctx _ t Hbody) as Hc1.
  pose proof (check_published_none ctx _ t Hid) as Hc2.
  split; [|split; [|split; [|split; [|split; [done|]]]]].
  - unfold revocation_create_registry. cbn beta zeta.
    unfold mbind at 1, M_bind at 1. by rewrite Hc1.
  - unfold get_current_registry. cbn beta zeta.
    unfold mbind at 1, M_bind at 1. by rewrite Hc2.
  - unfold get_tail_file. cbn beta zeta.
    unfold mbind at 1, M_bind at 1. by rewrite Hc2.
  - unfold publish_registry. cbn beta zeta.
    unfold mbind at 1, M_bind at 1. by rewrite Hc2.
  - intros rec Hrec Hsave. unfold update_registry. cbn beta zeta.
    unfold bad_request_if_unsupported, mbind, M_bind, log, modify, lift, mret,
      M_ret. rewrite Hrec, Hsave. by rewrite <- app_assoc.
Qed.

(** The statement above, on a concrete run. *)
Lemma unpublished_cred_def_not_found_witness :
  get_current_registry RoutesScenario.ctx_unpublished RoutesScenario.request []
    = (Raise HTTPNotFound,
       [EvSearchRecords "cred_def_sent" (Some "did:3:CL:12:tag")]) ∧
  ∃ r, update_registry RoutesScenario.ctx_unpublished RoutesScenario.request []
       = (Ok (json_response r),
          [EvGetActiveIssuerRevocationRecord "did:3:CL:12:tag";
           EvRecordSave r "Updating tail file public URI."]) ∧
       tails_public_uri r = Some "https://tails.example/1".
Proof.
  destruct (unpublished_cred_def_not_found RoutesScenario.ctx_unpublished
              RoutesScenario.request []) as (_ & Hget & _ & _ & _ & Hupd);
    [reflexivity|reflexivity|].
  split; [exact Hget|].
  eexists. split; [apply Hupd; reflexivity|reflexivity].
Defined.

End RoutesTheory.

(** * Reasoning about what a computation logs *)

Module EffectsTheory.
Import Effects.
Open Scope list_scope.

Section Emits.
Context {W E : Type} (tr : W → list E) (P : E → Prop).

Lemma emits_ret {A} (a : A) : emits tr P (mret a : M W A).
Proof. intros w res w' [= <- <-]. exists []. by rewrite app_nil_r. Qed.

Lemma emits_throw {A} (e : Error) : emits tr P (mthrow e : M W A).
Proof. intros w res w' [= <- <-]. exists []. by rewrite app_nil_r. Qed.

Lemma emits_lift {A} (r : result A) : emits tr P (lift r : M W A).
Proof. intros w res w' [= <- <-]. exists []. by rewrite app_nil_r. Qed.

Lemma emits_getitem {A} k (o : option A) : emits tr P (getitem k o : M W A).
Proof. destruct o; [apply emits_ret|apply emits_throw]. Qed.

Lemma emits_bind {A B} (m : M W A) (f : A → M W B) :
  emits tr P m → (∀ a, emits tr P (f a)) → emits tr P (m ≫= f).
Proof.
  intros Hm Hf w res w'. unfold mbind, M_bind.
  destruct (m w) as [[a|e] w1] eqn:Hrun;
    apply Hm in Hrun as (evs1 & Ht1 & Hevs1).
  - intros Hrun2. apply Hf in Hrun2 as (evs2 & Ht2 & Hevs2).
    exists (evs1 ++ evs2). rewrite Ht2, Ht1, app_assoc.
    split; [done|]. by apply Forall_app.
  - intros [= <- <-]. by exists evs1.
Qed.

Lemma emits_for_each {A S} (body : S → A → M W S) l s :
  (∀ s x, x ∈ l → emits tr P (body s x)) → emits tr P (for_each body l s).
Proof.
  revert s. induction l as [|x l IH]; intros s Hbody; [apply emits_ret|].
  cbn [for_each]. apply emits_bind; [apply Hbody; by left|].
  intros s'. apply IH. intros s0 y Hy. apply Hbody. by right.
Qed.
End Emits.

Lemma emits_mono {W E A} (tr : W → list E) (P Q : E → Prop) (m : M W A) :
  (∀ e, P e → Q e) → emits tr P m → emits tr Q m.
Proof.
  intros HPQ Hm w res w' Hrun. apply Hm in Hrun as (evs & Ht & Hevs).
  exists evs. split; [done|]. by eapply Forall_impl.
Qed.

Section Keeps.
Context {W B : Type} (f : W → B).

Lemma keeps_ret {A} (a : A) : keeps f (mret a : M W A).
Proof. by intros w res w' [= <- <-]. Qed.

Lemma keeps_throw {A} (e : Error) : keeps f (mthrow e : M W A).
Proof. by intros w res w' [= <- <-]. Qed.

Lemma keeps_lift {A} (r : result A) : keeps f (lift r : M W A).
Proof. by intros w res w' [= <- <-]. Qed.

Lemma keeps_getitem {A} k (o : option A) : keeps f (getitem k o : M W A).
Proof. destruct o; [apply keeps_ret|apply keeps_throw]. Qed.

Lemma keeps_bind {A C} (m : M W A) (g : A → M W C) :
  keeps f m → (∀ a, keeps f (g a)) → keeps f (m ≫= g).
Proof.
  intros Hm Hg w res w'. unfold mbind, M_bind.
  destruct (m w) as [[a|e] w1] eqn:Hrun; apply Hm in Hrun.
  - intros Hrun2. apply Hg in Hrun2. congruence.
  - intros [= <- <-]. done.
Qed.

Lemma keeps_for_each {A S} (body : S → A → M W S) l s :
  (∀ s x, keeps f (body s x)) → keeps f (for_each body l s).
Proof.
  intros Hbody. revert s. induction l as [|x l IH]; intros s;
    [apply keeps_ret|].
  cbn [for_each]. by apply keeps_bind.
Qed.

Lemma keeps_keeps_on_raise {A} (m : M W A) : keeps f m → keeps_on_raise f m.
Proof. intros Hm w e w'. apply Hm. Qed.

Lemma keeps_on_raise_bind {A C} (m : M W A) (g : A → M W C) :
  keeps f m → (∀ a, keeps_on_raise f (g a)) → keeps_on_raise f (m ≫= g).
Proof.
  intros Hm Hg w e w'. unfold mbind, M_bind.
  destruct (m w) as [[a|e0] w1] eqn:Hrun; apply Hm in Hrun.
  - intros Hrun2. apply Hg in Hrun2. congruence.
  - intros [= <- <-]. done.
Qed.
End Keeps.

End EffectsTheory.


(** * The presentation manager: calls, storage and record identity *)

Module PresentProofExtra.
Import Effects EffectsTheory PresentProof PresentProofTheory PresentProofFacts.
Open Scope list_scope.

Lemma emits_log (P : Event → Prop) e : P e → emits trace P (log e).
Proof.
  intros HP w res w' [= <- <-]. exists [e]. split; [done|]. by constructor.
Qed.

Lemma emits_save (P : Event → Prop) ctx r reason :
  (∀ r', P (EvSave r' reason)) → emits trace P (save ctx r reason).
Proof.
  intros HP w res w'. unfold save. destruct (storage_save_error ctx r).
  { apply emits_throw. }
  rewrite bind_run. cbn. destruct (presentation_exchange_id r).
  - case_bool_decide; intros [= <- <-]; cbn.
    + eexists. split; [done|]. constructor; [apply HP|done].
    + exists []. by rewrite app_nil_r.
  - intros [= <- <-]. eexists. split; [done|]. constructor; [apply HP|done].
Qed.

Lemma emits_retrieve (P : Event → Prop) thread conn :
  emits trace P (retrieve_by_tag_filter thread conn).
Proof.
  intros w res w'. unfold retrieve_by_tag_filter. rewrite bind_run. cbn.
  destruct (filter _ _) as [|r [|r2 l]]; intros [= <- <-];
    exists []; by rewrite app_nil_r.
Qed.

Lemma emits_list_getitem (P : Event → Prop) {A} (l : list A) i :
  emits trace P (list_getitem l i : M World A).
Proof.
  unfold list_getitem. destruct (py_index l i);
    [apply emits_ret|apply emits_throw].
Qed.

(** Break an [emits] goal along the structure of the computation. *)
Ltac emits_step :=
  first
    [ apply emits_ret | apply emits_throw | apply emits_lift
    | apply emits_getitem | apply emits_list_getitem | apply emits_retrieve
    | apply emits_save; intros ?
    | apply emits_log
    | apply emits_bind; [|intros ?]
    | apply emits_for_each; intros ? ? _
    | match goal with
      | |- emits _ _ (match ?x with _ => _ end) => destruct x eqn:?
      | |- emits _ _ (if ?b then _ else _) => destruct b eqn:?
      end ].


Ltac unfold_manager :=
  unfold create_exchange_for_proposal, receive_proposal,
    create_exchange_for_request, create_bound_request, receive_request,
    create_presentation, receive_presentation, verify_presentation,
    send_presentation_ack, receive_presentation_ack,
    extract_referents, extract_referent_step,
    resolve_credentials, resolve_credential_step, resolve_ledger_objects,
    resolve_ledger_step, fetch_deltas, delta_step, create_revocation_states,
    revocation_state_step, check_revealed_attr, fetch_schemas,
    fetch_schema_step, fetch_credential_definitions,
    fetch_credential_definition_step.

Ltac emits_auto :=
  unfold_manager; repeat emits_step; cbn beta zeta; repeat emits_step.

(** X1. Whatever [create_presentation] does, it downloads the tails of a
    registry only when [has_local_tail_file] says the registry has none
    locally. *)
Theorem create_presentation_tails_only_when_missing
    (ctx : Context) (r : V10PresentationExchange)
    (rc : RequestedCredentials) (comment : option string) :
  emits trace
    (λ e, ∀ rid, e = EvRetrieveTails rid → has_local_tail_file ctx rid = false)
    (create_presentation ctx r rc comment).
Proof.
  emits_auto.
  all: intros rid0 Heq; first [discriminate Heq | by injection Heq as <-].
Qed.

(** X2. [create_presentation] never calls the verifier and never sends or
    skips an acknowledgement; [verify_presentation] calls the ledger only
    for schemas and credential definitions: it asks the holder nothing,
    fetches no registry definition and no delta, downloads no tails and
    computes no revocation state. *)
Theorem prover_and_verifier_calls
    (ctx : Context) (r : V10PresentationExchange)
    (rc : RequestedCredentials) (comment : option string) :
  emits trace prover_event_ok (create_presentation ctx r rc comment) ∧
  emits trace verifier_event_ok (verify_presentation ctx r).
Proof. split; emits_auto; exact I. Qed.

(** X3. The operations that create a record, bind a request, receive a
    request, a presentation or an acknowledgement call no collaborator but
    the storage: all they log is saves. *)
Theorem message_operations_only_save
    (ctx : Context) (r : V10PresentationExchange)
    (conn : option string) (auto : option bool)
    (proposal : PresentationProposal) (request : PresentationRequest)
    (pres : Presentation) (ack : PresentationAck)
    (name version nonce comment : option string) :
  emits trace save_event
    (create_exchange_for_proposal ctx conn proposal auto) ∧
  emits trace save_event (receive_proposal ctx proposal) ∧
  emits trace save_event (create_exchange_for_request ctx conn request) ∧
  emits trace save_event
    (create_bound_request ctx r name version nonce comment) ∧
  emits trace save_event (receive_request ctx r) ∧
  emits trace save_event (receive_presentation ctx pres) ∧
  emits trace save_event (receive_presentation_ack ctx ack).
Proof. repeat split; emits_auto; by eexists _, _. Qed.

(** *** What the operations do to the store *)

Lemma keeps_log e : keeps store (log e).
Proof. by intros w res w' [= <- <-]. Qed.

Lemma keeps_retrieve thread conn :
  keeps store (retrieve_by_tag_filter thread conn).
Proof.
  intros w res w'. unfold retrieve_by_tag_filter. rewrite bind_run. cbn.
  by destruct (filter _ _) as [|r [|r2 l]]; intros [= <- <-].
Qed.

Lemma keeps_list_getitem {A} (l : list A) i :
  keeps store (list_getitem l i : M World A).
Proof.
  unfold list_getitem. destruct (py_index l i);
    [apply keeps_ret|apply keeps_throw].
Qed.

Lemma keeps_on_raise_save ctx r reason :
  keeps_on_raise store (save ctx r reason).
Proof. intros w e w' Hrun. by apply save_raise_world in Hrun as ->. Qed.

Lemma keeps_on_raise_then_ret {A C} (m : M World A) (h : A → C) :
  keeps_on_raise store m → keeps_on_raise store (m ≫= λ a, mret (h a)).
Proof.
  intros Hm w e w'. rewrite bind_run.
  destruct (m w) as [[a|e0] w1] eqn:Hrun; [by intros [=]|].
  intros [= <- <-]. by apply Hm in Hrun.
Qed.

Ltac keeps_step :=
  first
    [ apply keeps_ret | apply keeps_throw | apply keeps_lift
    | apply keeps_getitem | apply keeps_list_getitem | apply keeps_retrieve
    | apply keeps_log
    | apply keeps_bind; [|intros ?]
    | apply keeps_for_each; intros ? ?
    | match goal with
      | |- keeps _ (match ?x with _ => _ end) => destruct x
      | |- keeps _ (if ?b then _ else _) => destruct b
      end ].

Ltac keeps_on_raise_step :=
  first
    [ apply keeps_on_raise_save
    | apply keeps_on_raise_then_ret
    | apply keeps_keeps_on_raise; solve [repeat keeps_step]
    | apply keeps_on_raise_bind; [solve [repeat keeps_step]|intros ?]
    | match goal with
      | |- keeps_on_raise _ (match ?x with _ => _ end) => destruct x
      end ].

(** X4. No partial save: when one of these operations raises, whatever the
    exception and wherever it comes from, the store is what it was before
    the call. *)
Theorem raise_leaves_store
    (ctx : Context) (r : V10PresentationExchange)
    (conn : option string) (auto : option bool)
    (proposal : PresentationProposal) (request : PresentationRequest)
    (pres : Presentation) (ack : PresentationAck)
    (rc : RequestedCredentials)
    (name version nonce comment : option string) :
  keeps_on_raise store
    (create_exchange_for_proposal ctx conn proposal auto) ∧
  keeps_on_raise store (receive_proposal ctx proposal) ∧
  keeps_on_raise store (create_exchange_for_request ctx conn request) ∧
  keeps_on_raise store
    (create_bound_request ctx r name version nonce comment) ∧
  keeps_on_raise store (receive_request ctx r) ∧
  keeps_on_raise store (create_presentation ctx r rc comment) ∧
  keeps_on_raise store (receive_presentation ctx pres) ∧
  keeps_on_raise store (receive_presentation_ack ctx ack).
Proof.
  repeat split; unfold_manager; cbn beta zeta;
    repeat (keeps_on_raise_step; cbn beta zeta).
Qed.

Lemma save_result ctx r reason w r' w' :
  save ctx r reason w = (Ok r', w') →
  (r' = r ∨ (presentation_exchange_id r = None ∧
             r' = set_id (length (store w)) r)) ∧
  stored_as w w' r'.
Proof.
  unfold save. destruct (storage_save_error ctx r); [done|].
  rewrite bind_run. cbn.
  destruct (presentation_exchange_id r) as [i|] eqn:Hid.
  - case_bool_decide as Hlt; [|done]. intros [= <- <-]. split; [by left|].
    exists i. cbn. split; [done|].
    split; [by apply list_lookup_insert_eq|].
    intros j Hne. by apply list_lookup_insert_ne.
  - intros [= <- <-]. split; [by right|].
    exists (length (store w)). cbn. split; [done|].
    split; [rewrite lookup_app_r by done; by rewrite Nat.sub_diag|].
    intros j Hne. destruct (decide (j < length (store w))%nat).
    + by rewrite lookup_app_l.
    + rewrite !lookup_ge_None_2; [done|lia|rewrite length_app; cbn; lia].
Qed.


Lemma keeps_elim {W B A} (f : W → B) (m : M W A) w res w' :
  m w = (res, w') → keeps f m → f w' = f w.
Proof. intros Hrun Hm. by apply Hm in Hrun. Qed.

Ltac store_same H :=
  apply (keeps_elim store) in H;
  [|solve [unfold_manager; repeat keeps_step]].



Lemma stored_as_between w0 w1 w2 w3 r' :
  store w1 = store w0 → store w3 = store w2 →
  stored_as w1 w2 r' → stored_as w0 w3 r'.
Proof.
  intros H01 H32 (i & ? & ? & Hj). exists i. rewrite H32, <- H01. done.
Qed.

(** Follow a returning run through its stages; the stages that leave the
    store alone are turned into equations between stores. *)
Ltac run_ok H :=
  repeat
    (let Hm := fresh "Hm" in
     apply bind_inv in H as [(? & _ & [=])|(? & ? & Hm & H)];
     try store_same Hm).

Ltac saved_record :=
  match goal with
  | Hs : save _ _ _ _ = (Ok _, _) |- stored_as _ _ _ =>
      apply save_result in Hs as [_ Hs];
      eapply stored_as_between; [| |exact Hs]; congruence
  end.

(** X6. When an operation returns, the store holds the returned record
    under the record's id, and every other record of the store is what it
    was: an operation writes one record and only that one. *)
Theorem returned_record_is_stored
    (ctx : Context) (r : V10PresentationExchange)
    (conn : option string) (auto : option bool)
    (proposal : PresentationProposal) (request : PresentationRequest)
    (pres : Presentation) (ack : PresentationAck)
    (rc : RequestedCredentials)
    (name version nonce comment : option string) (w w' : World) :
  (∀ r', create_exchange_for_proposal ctx conn proposal auto w = (Ok r', w') →
         stored_as w w' r') ∧
  (∀ r', receive_proposal ctx proposal w = (Ok r', w') → stored_as w w' r') ∧
  (∀ r', create_exchange_for_request ctx conn request w = (Ok r', w') →
         stored_as w w' r') ∧
  (∀ r' msg, create_bound_request ctx r name version nonce comment w
               = (Ok (r', msg), w') → stored_as w w' r') ∧
  (∀ r', receive_request ctx r w = (Ok r', w') → stored_as w w' r') ∧
  (∀ r' msg, create_presentation ctx r rc comment w = (Ok (r', msg), w') →
             stored_as w w' r') ∧
  (∀ r', receive_presentation ctx pres w = (Ok r', w') → stored_as w w' r') ∧
  (∀ r', verify_presentation ctx r w = (Ok r', w') → stored_as w w' r') ∧
  (∀ r', receive_presentation_ack ctx ack w = (Ok r', w') →
         stored_as w w' r').
Proof.
  repeat split.
  - intros r' Hrun. unfold create_exchange_for_proposal in Hrun.
    by apply save_result in Hrun as [_ ?].
  - intros r' Hrun. unfold receive_proposal in Hrun.
    destruct (ctx_connection_record ctx); [|done].
    by apply save_result in Hrun as [_ ?].
  - intros r' Hrun. unfold create_exchange_for_request in Hrun.
    by apply save_result in Hrun as [_ ?].
  - intros r' msg Hrun. unfold create_bound_request in Hrun.
    cbn beta zeta in Hrun. run_ok Hrun. cbn beta zeta in Hrun. run_ok Hrun.
    injection Hrun as <- _ <-. saved_record.
  - intros r' Hrun. unfold receive_request in Hrun.
    by apply save_result in Hrun as [_ ?].
  - intros r' msg Hrun. unfold create_presentation in Hrun.
    cbn beta zeta in Hrun. run_ok Hrun. cbn beta zeta in Hrun. run_ok Hrun.
    cbn beta zeta in Hrun. run_ok Hrun.
    injection Hrun as <- _ <-. saved_record.
  - intros r' Hrun. unfold receive_presentation in Hrun.
    cbn beta zeta in Hrun. run_ok Hrun.
    apply save_result in Hrun as [_ Hrun].
    eapply stored_as_between; [| |exact Hrun]; congruence.
  - intros r' Hrun. unfold verify_presentation in Hrun.
    cbn beta zeta in Hrun. run_ok Hrun. injection Hrun as <- <-.
    saved_record.
  - intros r' Hrun. unfold receive_presentation_ack in Hrun.
    cbn beta zeta in Hrun. run_ok Hrun.
    apply save_result in Hrun as [_ Hrun].
    eapply stored_as_between; [| |exact Hrun]; congruence.
Qed.

(** The statement above, on a concrete run. *)
Lemma returned_record_is_stored_witness :
  stored_as Scenario.verifier_world
    (receive_request Scenario.ctx Scenario.verifier_record
       Scenario.verifier_world).2
    (set_state STATE_REQUEST_RECEIVED Scenario.verifier_record).
Proof.
  destruct (returned_record_is_stored Scenario.ctx Scenario.verifier_record
              None None Scenario.proposal_age
              {| rq_id := "m"; rq_thread := None; rq_comment := None;
                 request_presentations_attach := Scenario.request_two |}
              (Scenario.presentation_msg "21")
              {| ack_id := "a"; ack_thread := None |}
              (Scenario.choose []) None None None None
              Scenario.verifier_world
              (receive_request Scenario.ctx Scenario.verifier_record
                 Scenario.verifier_world).2)
    as (_ & _ & _ & _ & Hreq & _).
  apply Hreq. vm_compute. reflexivity.
Defined.

(** *** What an operation leaves of the record *)

Lemma save_same_exchange ctx r reason w r' w' :
  save ctx r reason w = (Ok r', w') → same_exchange r r'.
Proof.
  intros Hrun. apply save_result in Hrun as [[->|[Hid ->]] _].
  - by repeat split.
  - repeat split; try done. cbn. intros i Hi. congruence.
Qed.

Lemma same_exchange_trans r1 r2 r3 :
  same_exchange r1 r2 → same_exchange r2 r3 → same_exchange r1 r3.
Proof.
  intros (Ha & Hb & Hc & Hd & He & Hf & Hg) (Ha' & Hb' & Hc' & Hd' & He' & Hf' & Hg').
  repeat split; try congruence.
  - intros i Hi. by apply Ha', Ha.
  - intros t Ht. by apply Hc', Hc.
Qed.

Lemma save_thread ctx r reason w r' w' :
  save ctx r reason w = (Ok r', w') → thread_id r' = thread_id r.
Proof. by intros [[->|[_ ->]] _]%save_result. Qed.

Lemma retrieve_world thread conn w res w' :
  retrieve_by_tag_filter thread conn w = (res, w') → w' = w.
Proof.
  unfold retrieve_by_tag_filter. rewrite bind_run. cbn.
  by destruct (filter _ _) as [|r [|r2 l]]; intros [= <- <-].
Qed.

Ltac run_ok_plain H :=
  repeat
    (let Hm := fresh "Hm" in
     apply bind_inv in H as [(? & _ & [=])|(? & ? & Hm & H)]).

(** X7. An operation on an existing record changes neither the record's
    id, nor its connection, nor its thread once it has one, nor who started
    the exchange, the role, the stored proposal or the auto-present flag.
    [receive_presentation] and [receive_presentation_ack] act on the record
    they retrieve. *)
Theorem operations_keep_exchange_identity
    (ctx : Context) (r : V10PresentationExchange)
    (pres : Presentation) (ack : PresentationAck)
    (rc : RequestedCredentials)
    (name version nonce comment : option string) (w w' : World) :
  (∀ r' msg, create_bound_request ctx r name version nonce comment w
               = (Ok (r', msg), w') →
             same_exchange r r' ∧
             rq_thread msg = thread_id r) ∧
  (∀ r', receive_request ctx r w = (Ok r', w') → same_exchange r r') ∧
  (∀ r' msg, create_presentation ctx r rc comment w = (Ok (r', msg), w') →
             same_exchange r r' ∧ pm_thread msg = thread_id r ∧
             thread_id r' = thread_id r) ∧
  (∀ r', receive_presentation ctx pres w = (Ok r', w') →
         ∃ r0, retrieve_by_tag_filter
                 (msg_thread_id (pm_id pres) (pm_thread pres))
                 (ctx_connection_record ctx) w = (Ok r0, w) ∧
               same_exchange r0 r' ∧ thread_id r' = thread_id r0) ∧
  (∀ r', verify_presentation ctx r w = (Ok r', w') →
         same_exchange r r' ∧ thread_id r' = thread_id r) ∧
  (∀ r', receive_presentation_ack ctx ack w = (Ok r', w') →
         ∃ r0 conn, ctx_connection_record ctx = Some conn ∧
           retrieve_by_tag_filter
             (msg_thread_id (ack_id ack) (ack_thread ack)) (Some conn) w
             = (Ok r0, w) ∧
           same_exchange r0 r' ∧ thread_id r' = thread_id r0).
Proof.
  split; [|split; [|split; [|split; [|split]]]].
  - intros r' msg Hrun. unfold create_bound_request in Hrun.
    cbn beta zeta in Hrun. run_ok_plain Hrun. injection Hrun as <- <-.
    split; [|done].
    match goal with Hs : save _ _ _ _ = _ |- _ =>
      apply save_same_exchange in Hs end.
    eapply same_exchange_trans; [|eassumption].
    repeat split; try done. cbn. by intros t ->.
  - intros r' Hrun. by apply save_same_exchange in Hrun.
  - intros r' msg Hrun. unfold create_presentation in Hrun.
    cbn beta zeta in Hrun. run_ok_plain Hrun. injection Hrun as <- <-.
    match goal with Hs : save _ _ _ _ = _ |- _ =>
      pose proof (save_thread _ _ _ _ _ _ Hs) as Ht;
      apply save_same_exchange in Hs end.
    split; [|done].
    eapply same_exchange_trans; [|eassumption]. by repeat split.
  - intros r' Hrun. unfold receive_presentation in Hrun.
    cbn beta zeta in Hrun.
    apply bind_inv in Hrun as [(? & _ & [=])|(r0 & w1 & Hget & Hrun)].
    pose proof (retrieve_world _ _ _ _ _ Hget) as ->.
    apply bind_inv in Hrun as [(? & _ & [=])|(? & w2 & _ & Hrun)].
    exists r0. split; [done|].
    pose proof (save_thread _ _ _ _ _ _ Hrun) as Ht.
    apply save_same_exchange in Hrun. split; [|done].
    eapply same_exchange_trans; [|eassumption]. by repeat split.
  - intros r' Hrun. unfold verify_presentation in Hrun.
    cbn beta zeta in Hrun. run_ok_plain Hrun. injection Hrun as <-.
    match goal with Hs : save _ _ _ _ = _ |- _ =>
      pose proof (save_thread _ _ _ _ _ _ Hs) as Ht;
      apply save_same_exchange in Hs end.
    split; [|done]. eapply same_exchange_trans; [|eassumption].
    by repeat split.
  - intros r' Hrun. unfold receive_presentation_ack in Hrun.
    cbn beta zeta in Hrun.
    destruct (ctx_connection_record ctx) as [conn|]; [|done].
    apply bind_inv in Hrun as [(? & _ & [=])|(c & w1 & [= <- <-] & Hrun)].
    apply bind_inv in Hrun as [(? & _ & [=])|(r0 & w1 & Hget & Hrun)].
    pose proof (retrieve_world _ _ _ _ _ Hget) as ->.
    exists r0, conn. split; [done|]. split; [done|].
    pose proof (save_thread _ _ _ _ _ _ Hrun) as Ht.
    apply save_same_exchange in Hrun. split; [|done].
    eapply same_exchange_trans; [|eassumption]. by repeat split.
Qed.

(** The statement above, on a concrete verification. *)
Lemma operations_keep_exchange_identity_witness :
  same_exchange (Scenario.received_record (Scenario.proof_revealing "21"))
    (set_state STATE_VERIFIED
       (set_verified (PyStr "true")
          (Scenario.received_record (Scenario.proof_revealing "21")))).
Proof.
  destruct (operations_keep_exchange_identity Scenario.ctx
              (Scenario.received_record (Scenario.proof_revealing "21"))
              (Scenario.presentation_msg "21")
              {| ack_id := "a"; ack_thread := None |}
              (Scenario.choose []) None None None None
              (Scenario.received_world (Scenario.proof_revealing "21"))
              (verify_presentation Scenario.ctx
                 (Scenario.received_record (Scenario.proof_revealing "21"))
                 (Scenario.received_world (Scenario.proof_revealing "21"))).2)
    as (_ & _ & _ & _ & Hver & _).
  apply Hver. vm_compute. reflexivity.
Defined.

(** *** The holder is asked once per credential *)

Lemma dict_keys_set_fresh {V} k (v : V) d :
  k ∉ dict_keys d → dict_keys (dict_set k v d) = dict_keys d ++ [k].
Proof.
  intros Hk. rewrite dict_set_fresh by done. unfold dict_keys.
  by rewrite fmap_app.
Qed.

Lemma resolve_credentials_fetches ctx rfs creds0 w res w' :
  for_each (resolve_credential_step ctx) rfs creds0 w = (res, w') →
  ∃ ids : list string,
    w' = add_events (EvHolderGetCredential <$> ids) w ∧
    NoDup ids ∧
    (∀ k, k ∈ ids → (k ∉ dict_keys creds0) ∧ k ∈ (rf_cred_id <$> rfs)) ∧
    match res with
    | Ok creds =>
        dict_keys creds = dict_keys creds0 ++ ids ∧
        ∀ k, k ∈ ids → ∃ c, holder_get_credential ctx k = Ok c
    | Raise e =>
        ∃ ids0 k, ids = ids0 ++ [k] ∧
          holder_get_credential ctx k = Raise e ∧
          ∀ k', k' ∈ ids0 → ∃ c, holder_get_credential ctx k' = Ok c
    end.
Proof.
  revert creds0 w. induction rfs as [|rf rfs IH]; intros creds0 w.
  - intros [= <- <-]. exists []. rewrite add_events_nil, app_nil_r.
    split; [done|]. split; [constructor|].
    split; [by intros ? ?%elem_of_nil|]. split; [done|].
    by intros ? ?%elem_of_nil.
  - rewrite for_each_cons. unfold resolve_credential_step at 1.
    destruct (dict_mem (rf_cred_id rf) creds0) eqn:Hmem; mred.
    + intros Hrun. apply IH in Hrun as (ids & -> & Hnd & Hin & Hres).
      exists ids. split; [done|]. split; [done|]. split; [|done].
      intros k Hk. destruct (Hin k Hk) as [? ?]. split; [done|].
      rewrite fmap_cons. by right.
    + apply dict_mem_false in Hmem.
      destruct (holder_get_credential ctx (rf_cred_id rf)) as [c|e] eqn:Hh;
        mred.
      * intros Hrun. apply IH in Hrun as (ids & -> & Hnd & Hin & Hres).
        rewrite dict_keys_set_fresh in Hin, Hres by done.
        exists (rf_cred_id rf :: ids).
        split; [by rewrite fmap_cons, add_events_app|].
        split.
        { constructor; [|done]. intros Hk. destruct (Hin _ Hk) as [Hno _].
          apply Hno. apply elem_of_app. right. by left. }
        split.
        { intros k [->|Hk]%elem_of_cons.
          - split; [done|]. rewrite fmap_cons. by left.
          - destruct (Hin k Hk) as [Hno ?]. split.
            + intros ?. apply Hno. apply elem_of_app. by left.
            + rewrite fmap_cons. by right. }
        destruct res as [creds|e].
        -- destruct Hres as [Hkeys Hok]. split.
           ++ by rewrite Hkeys, <- app_assoc.
           ++ intros k [->|Hk]%elem_of_cons; [by eexists|by apply Hok].
        -- destruct Hres as (ids0 & k & -> & Hk & Hok).
           exists (rf_cred_id rf :: ids0), k. split; [done|].
           split; [done|].
           intros k' [->|Hk']%elem_of_cons; [by eexists|by apply Hok].
      * intros [= <- <-]. exists [rf_cred_id rf].
        split; [done|]. split; [apply NoDup_singleton|].
        split.
        { intros k ->%list_elem_of_singleton. split; [done|].
          rewrite fmap_cons. by left. }
        exists [], (rf_cred_id rf). split; [done|]. split; [done|].
        by intros ? ?%elem_of_nil.
Qed.

Lemma holder_fetches_app l1 l2 :
  holder_fetches (l1 ++ l2) = holder_fetches l1 ++ holder_fetches l2.
Proof. apply omap_app. Qed.

Lemma holder_fetches_fmap (ids : list string) :
  holder_fetches (EvHolderGetCredential <$> ids) = ids.
Proof.
  induction ids as [|k ids IH]; [done|].
  unfold holder_fetches in *. cbn. by rewrite IH.
Qed.

Lemma holder_fetches_none l :
  Forall not_holder_fetch l → holder_fetches l = [].
Proof.
  induction 1 as [|e l He _ IH]; [done|]. cbn.
  destruct e; try done. by destruct (He cred_id).
Qed.

Lemma referents_chosen q rc refs1 refs w :
  extract_referents (pr_requested_attributes q)
    (rc_requested_attributes rc) [] w = (Ok refs1, w) →
  extract_referents (pr_requested_predicates q)
    (rc_requested_predicates rc) refs1 w = (Ok refs, w) →
  ∀ k, k ∈ rf_cred_id <$> dict_values refs → k ∈ chosen_cred_ids rc.
Proof.
  intros H1 H2 k (rf & -> & Hrf)%list_elem_of_fmap.
  unfold chosen_cred_ids. apply elem_of_app.
  destruct (extract_referents_cred_ids _ _ _ _ _ H2 rf Hrf) as [Hrf1|?];
    [|by right].
  destruct (extract_referents_cred_ids _ _ _ _ _ H1 rf Hrf1) as [[]%elem_of_nil|?].
  by left.
Qed.

(** The decomposition of a run of [create_presentation] at the end of the
    loop that asks the holder for the credentials. *)
Lemma create_presentation_holder_stage ctx r rc comment w res w' :
  create_presentation ctx r rc comment w = (res, w') →
  (w' = w ∧ ∃ e, res = Raise e) ∨
  ∃ (ids : list string) rest,
    trace w' = trace w ++ (EvHolderGetCredential <$> ids) ++ rest ∧
    NoDup ids ∧ (∀ k, k ∈ ids → k ∈ chosen_cred_ids rc) ∧
    ((rest = [] ∧ ∃ e ids0 k, res = Raise e ∧ ids = ids0 ++ [k] ∧
        holder_get_credential ctx k = Raise e ∧
        ∀ k', k' ∈ ids0 → ∃ c, holder_get_credential ctx k' = Ok c) ∨
     (Forall not_holder_fetch rest ∧
      ∀ k, k ∈ ids → ∃ c, holder_get_credential ctx k = Ok c)).
Proof.
  unfold create_presentation. cbn beta zeta. intros Hrun.
  apply bind_inv in Hrun as [(e & Hq & ->)|(q & w1 & Hq & Hrun)].
  { left. destruct (presentation_request r); [done|].
    injection Hq as _ <-. eauto. }
  assert (w1 = w) as -> by (destruct (presentation_request r); by inversion Hq).
  apply bind_inv in Hrun as [(e & H1 & ->)|(refs1 & w1 & H1 & Hrun)].
  { left. apply extract_referents_run in H1 as [-> _]. eauto. }
  pose proof (extract_referents_run _ _ _ _ _ _ H1) as [-> _].
  apply bind_inv in Hrun as [(e & H2 & ->)|(refs & w1 & H2 & Hrun)].
  { left. apply extract_referents_run in H2 as [-> _]. eauto. }
  pose proof (extract_referents_run _ _ _ _ _ _ H2) as [-> _].
  right.
  apply bind_inv in Hrun as [(e & HB & ->)|(creds & wB & HB & Hrun)].
  - apply resolve_credentials_fetches in HB
      as (ids & -> & Hnd & Hin & ids0 & k & -> & Hk & Hok).
    exists (ids0 ++ [k]), []. rewrite app_nil_r.
    split; [done|]. split; [done|].
    split; [intros k' Hk'; eapply referents_chosen; [done..|by apply Hin]|].
    left. split; [done|]. by exists e, ids0, k.
  - apply resolve_credentials_fetches in HB
      as (ids & -> & Hnd & Hin & _ & Hok).
    cbn beta zeta in Hrun.
    match type of Hrun with ?m _ = _ =>
      assert (Hrest : emits trace not_holder_fetch m)
    end.
    { emits_auto. all: intros k0; discriminate. }
    apply Hrest in Hrun as (rest & Htr & Hforall).
    exists ids, rest. split; [rewrite Htr; solve_trace|].
    split; [done|].
    split; [intros k' Hk'; eapply referents_chosen; [done..|by apply Hin]|].
    right. done.
Qed.

(** X8. [create_presentation] asks the holder for a credential at most once
    per credential id, whatever the number of referents served by that
    credential, and only for ids named in [requested_credentials]; this
    holds of every run, returning or raising. *)
Theorem create_presentation_holder_fetch_once
    (ctx : Context) (r : V10PresentationExchange)
    (rc : RequestedCredentials) (comment : option string)
    (w : World) (res : result (V10PresentationExchange * Presentation))
    (w' : World) (evs : list Event) :
  create_presentation ctx r rc comment w = (res, w') →
  trace w' = trace w ++ evs →
  NoDup (holder_fetches evs) ∧
  ∀ k, k ∈ holder_fetches evs → k ∈ chosen_cred_ids rc.
Proof.
  intros Hrun Htr.
  apply create_presentation_holder_stage in Hrun
    as [[-> _]|(ids & rest & Htr' & Hnd & Hin & Hrest)].
  - assert (evs = []) as ->.
    { apply (app_inv_head (trace w)). by rewrite app_nil_r. }
    split; [constructor|by intros ? ?%elem_of_nil].
  - rewrite Htr' in Htr. apply app_inv_head in Htr as <-.
    rewrite holder_fetches_app, holder_fetches_fmap.
    assert (holder_fetches rest = []) as ->.
    { destruct Hrest as [[-> _]|[Hf _]]; [done|by apply holder_fetches_none]. }
    by rewrite app_nil_r.
Qed.

(** X9. [create_presentation] stops at the first credential the holder does
    not return: every call to the holder's [get_credential] but the last was
    answered, and a call that was not answered is the last thing the
    function did; the exception it raises is the holder's. No ledger, no
    revocation and no storage call follows. *)
Theorem create_presentation_holder_failure_stops
    (ctx : Context) (r : V10PresentationExchange)
    (rc : RequestedCredentials) (comment : option string)
    (w : World) (res : result (V10PresentationExchange * Presentation))
    (w' : World) (l1 l2 : list Event) (k : string) :
  create_presentation ctx r rc comment w = (res, w') →
  trace w' = trace w ++ l1 ++ EvHolderGetCredential k :: l2 →
  (∃ c, holder_get_credential ctx k = Ok c) ∨
  (l2 = [] ∧ ∃ e, holder_get_credential ctx k = Raise e ∧ res = Raise e).
Proof.
  intros Hrun Htr.
  apply create_presentation_holder_stage in Hrun
    as [[-> _]|(ids & rest & Htr' & Hnd & Hin & Hrest)].
  - exfalso. symmetry in Htr. rewrite <- (app_nil_r (trace w)) in Htr at 2.
    apply app_inv_head in Htr. by destruct l1.
  - rewrite Htr' in Htr. apply app_inv_head in Htr.
    destruct Hrest as [(-> & e & ids0 & kf & -> & -> & Hkf & Hok)|[Hf Hok]].
    + rewrite app_nil_r, fmap_app in Htr. cbn in Htr.
      destruct l2 as [|e2 l2 _] using rev_ind.
      * apply app_inj_tail in Htr as [_ [= <-]]. right. split; [done|].
        by exists e.
      * left. rewrite app_comm_cons, app_assoc in Htr.
        apply app_inj_tail in Htr as [Htr _].
        apply Hok.
        assert (Hk : EvHolderGetCredential k ∈ EvHolderGetCredential <$> ids0).
        { rewrite Htr. apply elem_of_app. right. by left. }
        by apply list_elem_of_fmap in Hk as (k' & [= ->] & Hk').
    + left.
      assert (Hk : EvHolderGetCredential k ∈
                   (EvHolderGetCredential <$> ids) ++ rest).
      { rewrite Htr. apply elem_of_app. right. by left. }
      apply elem_of_app in Hk as [Hk|Hk].
      * apply Hok. apply list_elem_of_fmap in Hk as (k' & [= ->] & Hk'). done.
      * rewrite Forall_forall in Hf. by destruct (Hf _ Hk k).
Qed.

(** The statement above, on a run where one credential serves two
    referents. *)
Lemma create_presentation_holder_fetch_once_witness :
  NoDup (holder_fetches (trace
    (create_presentation Scenario.ctx
       (Scenario.prover_record Scenario.request_two)
       (Scenario.choose [("a1", "cred-a"); ("a2", "cred-a")]) None
       Scenario.empty_world).2)).
Proof.
  refine (proj1 (create_presentation_holder_fetch_once Scenario.ctx
           (Scenario.prover_record Scenario.request_two)
           (Scenario.choose [("a1", "cred-a"); ("a2", "cred-a")]) None
           Scenario.empty_world _ _ _ _ _)).
  - apply surjective_pairing.
  - reflexivity.
Defined.

(** The statement above, on a run where the holder does not know the second
    credential. *)
Lemma create_presentation_holder_failure_stops_witness :
  (∃ c, holder_get_credential Scenario.ctx "cred-x" = Ok c) ∨
  (@nil Event = [] ∧
   ∃ e, holder_get_credential Scenario.ctx "cred-x" = Raise e ∧
     (create_presentation Scenario.ctx
        (Scenario.prover_record Scenario.request_two)
        (Scenario.choose [("a1", "cred-a"); ("a2", "cred-x")]) None
        Scenario.empty_world).1 = Raise e).
Proof.
  refine (create_presentation_holder_failure_stops Scenario.ctx
           (Scenario.prover_record Scenario.request_two)
           (Scenario.choose [("a1", "cred-a"); ("a2", "cred-x")]) None
           Scenario.empty_world _ _ [EvHolderGetCredential "cred-a"] []
           "cred-x" _ _).
  - apply surjective_pairing.
  - vm_compute. reflexivity.
Defined.

(** *** Referents the request does not have *)

Lemma extract_referents_missing items pre k c post acc w :
  (∀ ch, ch ∈ pre → is_Some (items !! ch.1)) →
  items !! k = None →
  extract_referents items (pre ++ (k, c) :: post) acc w
    = (Raise (KeyError k), w).
Proof.
  unfold extract_referents. revert acc.
  induction pre as [|ch pre IH]; intros acc Hpre Hk.
  - cbn [app]. rewrite for_each_cons. unfold extract_referent_step.
    cbn [fst]. rewrite Hk. by mred.
  - cbn [app]. rewrite for_each_cons. unfold extract_referent_step at 1.
    destruct (Hpre ch) as [item Hitem]; [by left|]. rewrite Hitem.
    cbn [getitem]. mred. apply IH; [|done]. intros. apply Hpre. by right.
Qed.

(** X10. [create_presentation] reads the request's entry of every chosen
    referent before it calls any collaborator: when [requested_credentials]
    names a referent the proof request does not have, among the attributes
    or, these being all there, among the predicates, the call raises
    [KeyError] for the first such referent and the world is what it was: no
    holder, ledger or storage call was made. *)
Theorem create_presentation_missing_referent
    (ctx : Context) (r : V10PresentationExchange) (q : ProofRequest)
    (rc : RequestedCredentials) (comment : option string) (w : World)
    (pre post : list (string * CredChoice)) (k : string) (c : CredChoice) :
  presentation_request r = Some q →
  (rc_requested_attributes rc = pre ++ (k, c) :: post ∧
   (∀ ch, ch ∈ pre → is_Some (pr_requested_attributes q !! ch.1)) ∧
   pr_requested_attributes q !! k = None)
  ∨
  ((∀ ch, ch ∈ rc_requested_attributes rc →
      is_Some (pr_requested_attributes q !! ch.1)) ∧
   rc_requested_predicates rc = pre ++ (k, c) :: post ∧
   (∀ ch, ch ∈ pre → is_Some (pr_requested_predicates q !! ch.1)) ∧
   pr_requested_predicates q !! k = None) →
  create_presentation ctx r rc comment w = (Raise (KeyError k), w).
Proof.
  intros Hq Hcase. unfold create_presentation. rewrite Hq. mred.
  destruct Hcase as [(-> & Hpre & Hk)|(Hall & -> & Hpre & Hk)].
  - rewrite extract_referents_missing by done. by mred.
  - destruct (extract_referents_ok (pr_requested_attributes q)
                (rc_requested_attributes rc) [] w Hall) as [refs1 ->].
    mred. rewrite extract_referents_missing by done. by mred.
Qed.

(** The statement above, on a selection for a referent [a3] that the
    request does not have. *)
Lemma create_presentation_missing_referent_witness :
  create_presentation Scenario.ctx
    (Scenario.prover_record Scenario.request_two)
    (Scenario.choose [("a1", "cred-a"); ("a3", "cred-b")]) None
    Scenario.empty_world
  = (Raise (KeyError "a3"), Scenario.empty_world).
Proof.
  apply (create_presentation_missing_referent Scenario.ctx
           (Scenario.prover_record Scenario.request_two)
           Scenario.request_two
           (Scenario.choose [("a1", "cred-a"); ("a3", "cred-b")]) None
           Scenario.empty_world
           [("a1", {| cc_cred_id := "cred-a"; cc_revealed := true |})] []
           "a3" {| cc_cred_id := "cred-b"; cc_revealed := true |}).
  - reflexivity.
  - left. split; [reflexivity|]. split; [|by vm_compute].
    intros ch ->%list_elem_of_singleton. eexists. vm_compute. reflexivity.
Defined.

(** *** Receiving a presentation *)

(** X11. On a record that stores no proposal, [receive_presentation] checks
    nothing: whatever the presentation reveals, the record takes it, moves
    to PRESENTATION_RECEIVED and is saved. *)
Theorem receive_presentation_unchecked_without_proposal
    (ctx : Context) (message : Presentation) (w : World)
    (r : V10PresentationExchange) (i : nat) :
  retrieve_by_tag_filter (msg_thread_id (pm_id message) (pm_thread message))
    (ctx_connection_record ctx) w = (Ok r, w) →
  presentation_proposal_dict r = None →
  presentation_exchange_id r = Some i →
  store w !! i = Some r →
  storage_save_error ctx
    (set_state STATE_PRESENTATION_RECEIVED
       (set_presentation (presentations_attach message) r)) = None →
  receive_presentation ctx message w =
    (Ok (set_state STATE_PRESENTATION_RECEIVED
           (set_presentation (presentations_attach message) r)),
     {| store := <[i := set_state STATE_PRESENTATION_RECEIVED
                          (set_presentation (presentations_attach message) r)]>
                   (store w);
        trace := trace w ++
          [EvSave (set_state STATE_PRESENTATION_RECEIVED
                     (set_presentation (presentations_attach message) r))
             "receive presentation"] |}).
Proof.
  intros Hget Hd Hid Hi Hsave.
  unfold receive_presentation. rewrite !bind_run, Hget, Hd.
  unfold mret, M_ret. cbn beta iota.
  apply save_existing; [done|done|]. by eapply lookup_lt_Some.
Qed.

(** The statement above, on a presentation whose revealed value no proposal
    was there to vouch for. *)
Lemma receive_presentation_unchecked_without_proposal_witness :
  (receive_presentation Scenario.ctx
     (ExtraScenario.presentation_of (Scenario.proof_revealing "99"))
     ExtraScenario.free_world).1
  = Ok (set_state STATE_PRESENTATION_RECEIVED
          (set_presentation (Scenario.proof_revealing "99")
             ExtraScenario.free_record)).
Proof.
  rewrite (receive_presentation_unchecked_without_proposal Scenario.ctx
             (ExtraScenario.presentation_of (Scenario.proof_revealing "99"))
             ExtraScenario.free_world ExtraScenario.free_record 0%nat);
    reflexivity.
Defined.

Lemma check_loop_first_failure preview req pres pre item post u w e :
  (∀ it, it ∈ pre → ∃ t, revealed_triple req pres it = Some t ∧
                         t ∈ attributes preview) →
  check_revealed_attr preview req pres tt item w = (Raise e, w) →
  for_each (check_revealed_attr preview req pres) (pre ++ item :: post) u w
    = (Raise e, w).
Proof.
  revert u. induction pre as [|it pre IH]; intros u Hpre Hitem.
  - cbn [app]. rewrite for_each_cons. destruct u. by rewrite Hitem.
  - cbn [app]. rewrite for_each_cons.
    destruct (Hpre it) as (t & Ht & Hin); [by left|].
    pose proof (check_revealed_attr_spec preview req pres u it w) as Hs.
    rewrite Ht in Hs. rewrite Hs, bool_decide_eq_true_2 by done.
    apply IH; [|done]. intros. apply Hpre. by right.
Qed.

(** X12. On a record that stores a proposal, the first revealed attribute
    that cannot be checked decides the outcome of [receive_presentation],
    and the exception is not [PresentationManagerError]: a referent the
    proof request does not have raises [KeyError] for that referent, a
    requested attribute without a name raises [KeyError] for ["name"], a
    sub-proof index outside the identifiers raises [IndexError]. The world is
    what it was, and the attributes after that one are not looked at. *)
Theorem receive_presentation_first_failure_decides
    (ctx : Context) (message : Presentation) (w : World)
    (r : V10PresentationExchange) (d : PresentationProposal)
    (q : ProofRequest)
    (pre post : list (string * RevealedAttr)) (item : string * RevealedAttr) :
  retrieve_by_tag_filter (msg_thread_id (pm_id message) (pm_thread message))
    (ctx_connection_record ctx) w = (Ok r, w) →
  presentation_proposal_dict r = Some d →
  presentation_request r = Some q →
  revealed_attrs (presentations_attach message) = pre ++ item :: post →
  (∀ it, it ∈ pre →
     ∃ t, revealed_triple (Some q) (presentations_attach message) it = Some t ∧
          t ∈ attributes (presentation_proposal d)) →
  (pr_requested_attributes q !! item.1 = None →
   receive_presentation ctx message w = (Raise (KeyError item.1), w)) ∧
  (∀ ri, pr_requested_attributes q !! item.1 = Some ri →
     ri_name ri = None →
     receive_presentation ctx message w = (Raise (KeyError "name"), w)) ∧
  (∀ ri name, pr_requested_attributes q !! item.1 = Some ri →
     ri_name ri = Some name →
     py_index (identifiers (presentations_attach message))
       (sub_proof_index item.2) = None →
     receive_presentation ctx message w = (Raise IndexError, w)).
Proof.
  intros Hget Hd Hq Hl Hpre.
  assert (Hloop : ∀ e,
    check_revealed_attr (presentation_proposal d) (Some q)
      (presentations_attach message) tt item w = (Raise e, w) →
    receive_presentation ctx message w = (Raise e, w)).
  { intros e He. unfold receive_presentation.
    rewrite !bind_run, Hget, Hd.
    unfold lift, deserialize. rewrite !bind_run. cbn beta iota.
    rewrite Hq, Hl.
    by rewrite (check_loop_first_failure _ _ _ pre item post tt w e). }
  split; [|split].
  - intros Hk. apply Hloop. unfold check_revealed_attr. msimpl.
    rewrite Hk. by msimpl.
  - intros ri Hk Hn. apply Hloop. unfold check_revealed_attr. msimpl.
    rewrite Hk. msimpl. rewrite Hn. by msimpl.
  - intros ri name Hk Hn Hidx. apply Hloop.
    unfold check_revealed_attr, list_getitem. msimpl.
    rewrite Hk. msimpl. rewrite Hn. msimpl. rewrite Hidx. by msimpl.
Qed.

(** The statement above, on a proof whose second revealed attribute names a
    referent the request does not have and whose third mismatches the
    proposal. *)
Lemma receive_presentation_first_failure_decides_witness :
  receive_presentation Scenario.ctx
    (ExtraScenario.presentation_of ExtraScenario.proof_unknown_referent)
    Scenario.verifier_world
  = (Raise (KeyError "a9"), Scenario.verifier_world).
Proof.
  refine (proj1 (receive_presentation_first_failure_decides Scenario.ctx
    (ExtraScenario.presentation_of ExtraScenario.proof_unknown_referent)
    Scenario.verifier_world Scenario.verifier_record Scenario.proposal_age
    (Scenario.request_of {[ "a1" := Scenario.age_item None ]} None)
    [("a1", {| sub_proof_index := 0; raw := "21"; encoded := "21" |})]
    [("a1", {| sub_proof_index := 0; raw := "22"; encoded := "22" |})]
    ("a9", {| sub_proof_index := 0; raw := "21"; encoded := "21" |})
    _ _ _ _ _) _).
  - reflexivity.
  - reflexivity.
  - reflexivity.
  - reflexivity.
  - intros it Hin. apply list_elem_of_singleton in Hin as ->.
    eexists. split; [reflexivity|]. apply list_elem_of_singleton. reflexivity.
  - vm_compute. reflexivity.
Defined.

(** *** What the holder builds the proof from *)

Lemma grown_nil f m : grown f [] m m.
Proof.
  split; [by left|]. split; [done|]. by intros ? ?%elem_of_nil.
Qed.

Lemma grown_trans f K1 K2 m0 m1 m2 :
  grown f K1 m0 m1 → grown f K2 m1 m2 → grown f (K1 ++ K2) m0 m2.
Proof.
  intros (A1 & B1 & C1) (A2 & B2 & C2). split; [|split].
  - intros k s Hk. destruct (A2 k s Hk) as [Hk1|[? ?]].
    + destruct (A1 k s Hk1) as [?|[? ?]]; [by left|].
      right. split; [|done]. apply elem_of_app. by left.
    + right. split; [|done]. apply elem_of_app. by right.
  - intros k s Hk. by apply B2, B1.
  - intros k [Hk|Hk]%elem_of_app; [|by apply C2].
    destruct (C1 k Hk) as [s Hs]. exists s. by apply B2.
Qed.

Lemma grown_fetched f K m : grown f K ∅ m → fetched_map f K m.
Proof.
  intros (A & B & C) k s. split.
  - intros Hk. destruct (A k s Hk) as [Hk0|?]; [|done].
    by rewrite lookup_empty in Hk0.
  - intros [Hk Hf]. destruct (C k Hk) as [s' Hs'].
    destruct (A k s' Hs') as [Hk0|[_ Hf']].
    + by rewrite lookup_empty in Hk0.
    + rewrite Hf in Hf'. by injection Hf' as ->.
Qed.

Lemma resolve_ledger_step_maps ctx lo c w lo' w' :
  resolve_ledger_step ctx lo c w = (Ok lo', w') →
  grown (ledger_get_schema ctx) [schema_id c] (schemas lo) (schemas lo') ∧
  grown (ledger_get_credential_definition ctx) [cred_def_id c]
    (credential_definitions lo) (credential_definitions lo').
Proof.
  assert (Hone : ∀ f k (m0 m : gmap string string),
    (m = m0 ∧ is_Some (m0 !! k)) ∨
    (∃ s, m0 !! k = None ∧ f k = Ok s ∧ m = <[k := s]> m0) →
    grown f [k] m0 m).
  { intros f k m0 m [[-> Hk]|(s & Hno & Hf & ->)]; (split; [|split]).
    - by left.
    - done.
    - by intros ? ->%list_elem_of_singleton.
    - intros k' s' Hk'. destruct (decide (k' = k)) as [->|Hne].
      + rewrite lookup_insert_eq in Hk'. injection Hk' as <-. right.
        split; [by apply list_elem_of_singleton|done].
      + rewrite lookup_insert_ne in Hk' by done. by left.
    - intros k' s' Hk'. rewrite lookup_insert_ne; [done|]. by intros ->; congruence.
    - intros ? ->%list_elem_of_singleton. rewrite lookup_insert_eq. by eexists. }
  unfold resolve_ledger_step. cbn beta zeta. intros Hrun.
  apply bind_inv in Hrun as [(? & _ & [=])|(S' & w1 & HS & Hrun)].
  apply bind_inv in Hrun as [(? & _ & [=])|(D' & w2 & HD & Hrun)].
  apply bind_inv in Hrun as [(? & _ & [=])|(R' & w3 & _ & Hrun)].
  injection Hrun as <- _. cbn [schemas credential_definitions].
  split; apply Hone.
  - destruct (schemas lo !! schema_id c) as [s0|] eqn:Hs0.
    + left. injection HS as <- _. by split; [|eexists].
    + right. mred_in HS.
      destruct (ledger_get_schema ctx (schema_id c)) as [s|e]; mred_in HS;
        [|done]. injection HS as <- _. by exists s.
  - destruct (credential_definitions lo !! cred_def_id c) as [s0|] eqn:Hs0.
    + left. injection HD as <- _. by split; [|eexists].
    + right. mred_in HD.
      destruct (ledger_get_credential_definition ctx (cred_def_id c))
        as [s|e]; mred_in HD; [|done]. injection HD as <- _. by exists s.
Qed.

Lemma resolve_ledger_objects_maps ctx creds lo0 w lo w' :
  for_each (resolve_ledger_step ctx) creds lo0 w = (Ok lo, w') →
  grown (ledger_get_schema ctx) (schema_id <$> creds)
    (schemas lo0) (schemas lo) ∧
  grown (ledger_get_credential_definition ctx) (cred_def_id <$> creds)
    (credential_definitions lo0) (credential_definitions lo).
Proof.
  revert lo0 w. induction creds as [|c creds IH]; intros lo0 w.
  - intros [= <- <-]. split; apply grown_nil.
  - rewrite for_each_cons. intros Hrun.
    apply bind_inv in Hrun as [(? & _ & [=])|(lo1 & w1 & Hstep & Hrun)].
    apply resolve_ledger_step_maps in Hstep as [HS HD].
    apply IH in Hrun as [HS' HD']. rewrite !fmap_cons.
    split.
    + apply (grown_trans _ [schema_id c] _ _ _ _ HS HS').
    + apply (grown_trans _ [cred_def_id c] _ _ _ _ HD HD').
Qed.

(** X13. When [create_presentation] returns, the proof it stores and sends
    is the one the holder built from the credentials the holder returned
    for the ids asked in this run, with, as schemas and credential
    definitions, exactly the ledger's answers for the schema ids and the
    credential definition ids of those credentials: none is missing and
    there is no other. The request stored on the record is the one the
    holder was given. *)
Theorem create_presentation_ledger_objects
    (ctx : Context) (r : V10PresentationExchange)
    (rc : RequestedCredentials) (comment : option string)
    (w : World) (r' : V10PresentationExchange) (msg : Presentation)
    (w' : World) (evs : list Event) :
  create_presentation ctx r rc comment w = (Ok (r', msg), w') →
  trace w' = trace w ++ evs →
  ∃ (creds : list (string * Credential)) (S D : gmap string string)
    (RS : gmap string (gmap Z string)) (q' : ProofRequest) (p : IndyProof),
    dict_keys creds = holder_fetches evs ∧
    (∀ k c, (k, c) ∈ creds → holder_get_credential ctx k = Ok c) ∧
    fetched_map (ledger_get_schema ctx)
      (schema_id <$> dict_values creds) S ∧
    fetched_map (ledger_get_credential_definition ctx)
      (cred_def_id <$> dict_values creds) D ∧
    holder_create_presentation ctx q' rc S D RS = Ok p ∧
    presentation_request r' = Some q' ∧
    presentation r' = Some p ∧
    presentations_attach msg = p.
Proof.
  intros Hrun Htr. unfold create_presentation in Hrun.
  cbn beta zeta in Hrun.
  apply bind_inv in Hrun as [(? & _ & [=])|(q & w1 & Hq & Hrun)].
  assert (w1 = w) as -> by (destruct (presentation_request r); by inversion Hq).
  apply bind_inv in Hrun as [(? & _ & [=])|(refs1 & w1 & H1 & Hrun)].
  pose proof (extract_referents_run _ _ _ _ _ _ H1) as [-> _].
  apply bind_inv in Hrun as [(? & _ & [=])|(refs & w1 & H2 & Hrun)].
  pose proof (extract_referents_run _ _ _ _ _ _ H2) as [-> _].
  apply bind_inv in Hrun as [(? & _ & [=])|(creds & wB & HB & Hrun)].
  pose proof (resolve_credentials_elems _ _ _ _ _ _ HB) as Helems.
  apply resolve_credentials_fetches in HB
    as (ids & -> & _ & _ & Hkeys & _).
  cbn beta zeta in Hrun.
  match type of Hrun with ?m _ = _ =>
    assert (Hrest : emits trace not_holder_fetch m)
  end.
  { emits_auto. all: intros k0; discriminate. }
  apply Hrest in Hrun as Hevs. destruct Hevs as (rest & Htr' & Hrest').
  assert (evs = (EvHolderGetCredential <$> ids) ++ rest) as ->.
  { apply (app_inv_head (trace w)). rewrite <- Htr, Htr'. solve_trace. }
  apply bind_inv in Hrun as [(? & _ & [=])|(lo & wC & HC & Hrun)].
  apply resolve_ledger_objects_maps in HC as [HS HD].
  cbn [schemas credential_definitions] in HS, HD.
  apply bind_inv in Hrun as [(? & _ & [=])|(ds & wD & _ & Hrun)].
  apply bind_inv in Hrun as [(? & _ & [=])|(RS & wE & _ & Hrun)].
  apply bind_inv in Hrun as [(? & _ & [=])|([] & wF & _ & Hrun)].
  apply bind_inv in Hrun as [(? & _ & [=])|(p & wG & Hp & Hrun)].
  apply bind_inv in Hrun as [(? & _ & [=])|(r4 & wH & Hsave & Hrun)].
  injection Hrun as <- <- _.
  injection Hp as Hp _.
  exists creds, (schemas lo), (credential_definitions lo), RS,
    (set_pr_non_revoked (ds_non_revoked ds) q), p.
  split.
  { rewrite holder_fetches_app, holder_fetches_fmap,
      (holder_fetches_none rest), app_nil_r by done. done. }
  split.
  { intros k c Hin. destruct (Helems k c Hin) as [[]%elem_of_nil|[_ ?]]. done. }
  split; [by apply grown_fetched|]. split; [by apply grown_fetched|].
  split; [done|].
  apply save_result in Hsave as [[->|[_ ->]] _]; by repeat split.
Qed.

Lemma run_eq {W A} (m : M W A) (w : W) (a : A) :
  (m w).1 = Ok a → m w = (Ok a, (m w).2).
Proof. destruct (m w) as [res w1]. by intros [= ->]. Qed.

(** The statement above, on a run where one credential serves two
    referents. *)
Lemma create_presentation_ledger_objects_witness :
  ∃ (creds : list (string * Credential)) (S D : gmap string string)
    (RS : gmap string (gmap Z string)) (q' : ProofRequest) (p : IndyProof),
    dict_keys creds = holder_fetches (trace ExtraScenario.presented_world) ∧
    (∀ k c, (k, c) ∈ creds → holder_get_credential Scenario.ctx k = Ok c) ∧
    fetched_map (ledger_get_schema Scenario.ctx)
      (schema_id <$> dict_values creds) S ∧
    fetched_map (ledger_get_credential_definition Scenario.ctx)
      (cred_def_id <$> dict_values creds) D ∧
    holder_create_presentation Scenario.ctx q'
      ExtraScenario.one_credential_twice S D RS = Ok p ∧
    presentation_request ExtraScenario.presented_record = Some q' ∧
    presentation ExtraScenario.presented_record = Some p ∧
    presentations_attach ExtraScenario.presented_message = p.
Proof.
  apply (create_presentation_ledger_objects Scenario.ctx
           (Scenario.prover_record Scenario.request_two)
           ExtraScenario.one_credential_twice None Scenario.empty_world
           ExtraScenario.presented_record ExtraScenario.presented_message
           ExtraScenario.presented_world).
  - apply run_eq. vm_compute. reflexivity.
  - reflexivity.
Defined.

(** *** What the verifier is given *)

Lemma fetch_loop_map (f : string → result string)
    (step : gmap string string → string → M World (gmap string string))
    ids acc w m w' :
  (∀ acc id w res w', step acc id w = (res, w') →
     ∀ m', res = Ok m' → ∃ s, f id = Ok s ∧ m' = <[id := s]> acc) →
  for_each step ids acc w = (Ok m, w') →
  ∀ k s, m !! k = Some s ↔
         (k ∈ ids ∧ f k = Ok s) ∨ ((k ∉ ids) ∧ acc !! k = Some s).
Proof.
  intros Hstep. revert acc w. induction ids as [|id ids IH]; intros acc w.
  - intros [= <- <-] k s. split.
    + intros Hk. right. split; [by intros ?%elem_of_nil|done].
    + by intros [[[]%elem_of_nil _]|[_ ?]].
  - rewrite for_each_cons. intros Hrun.
    apply bind_inv in Hrun as [(? & _ & [=])|(acc1 & w1 & H1 & Hrun)].
    destruct (Hstep _ _ _ _ _ H1 acc1 eq_refl) as (s0 & Hf & ->).
    intros k s. rewrite (IH _ _ Hrun k s). rewrite !elem_of_cons.
    destruct (decide (k = id)) as [->|Hne].
    + rewrite lookup_insert_eq. split.
      * intros [[_ ?]|[_ [= <-]]]; left; split; auto.
      * intros [[_ Hs]|[Hno _]]; [|by destruct Hno; left].
        destruct (decide (id ∈ ids)); [left|right]; split; auto.
        congruence.
    + rewrite lookup_insert_ne by done. split.
      * intros [[? ?]|[? ?]]; [left|right]; split; auto.
        by intros [?|?].
      * intros [[[?|?] ?]|[Hno ?]]; [done|by left|].
        right. split; [|done]. intros ?. apply Hno. by right.
Qed.

Lemma fetch_schemas_map ctx ids w m w' :
  fetch_schemas ctx ids w = (Ok m, w') →
  fetched_map (ledger_get_schema ctx) ids m.
Proof.
  intros Hrun k s.
  assert (Hstep : ∀ acc id w res w',
    fetch_schema_step ctx acc id w = (res, w') →
    ∀ m', res = Ok m' →
      ∃ s, ledger_get_schema ctx id = Ok s ∧ m' = <[id := s]> acc).
  { clear. intros acc id w res w'. unfold fetch_schema_step. mred.
    destruct (ledger_get_schema ctx id) as [s|e]; mred.
    - intros [= <- _] m' [= <-]. by exists s.
    - by intros [= <- _] m' [=]. }
  rewrite (fetch_loop_map _ _ _ _ _ _ _ Hstep Hrun k s).
  rewrite lookup_empty. split; [by intros [?|[_ [=]]]|by left].
Qed.

Lemma fetch_credential_definitions_map ctx ids w m w' :
  fetch_credential_definitions ctx ids w = (Ok m, w') →
  fetched_map (ledger_get_credential_definition ctx) ids m.
Proof.
  intros Hrun k s.
  assert (Hstep : ∀ acc id w res w',
    fetch_credential_definition_step ctx acc id w = (res, w') →
    ∀ m', res = Ok m' →
      ∃ s, ledger_get_credential_definition ctx id = Ok s ∧
           m' = <[id := s]> acc).
  { clear. intros acc id w res w'. unfold fetch_credential_definition_step.
    mred. destruct (ledger_get_credential_definition ctx id) as [s|e]; mred.
    - intros [= <- _] m' [= <-]. by exists s.
    - by intros [= <- _] m' [=]. }
  rewrite (fetch_loop_map _ _ _ _ _ _ _ Hstep Hrun k s).
  rewrite lookup_empty. split; [by intros [?|[_ [=]]]|by left].
Qed.

(** X14. When [verify_presentation] returns, the text stored in [verified]
    is the JSON of the verifier's verdict on the record's own presentation
    against the record's own request, the verifier having been given, as
    schemas and credential definitions, the ledger's answers for the ids of
    the presentation's identifiers, all of them and no other. The request
    and the presentation of the record are left as they were. ([ledger] is a
    function here: an id fetched twice has one answer.) *)
Theorem verify_presentation_verdict
    (ctx : Context) (r : V10PresentationExchange) (w : World)
    (r' : V10PresentationExchange) (w' : World) :
  verify_presentation ctx r w = (Ok r', w') →
  ∃ (p : IndyProof) (S D : gmap string string) (b : bool),
    presentation r = Some p ∧
    fetched_map (ledger_get_schema ctx)
      (id_schema_id <$> identifiers p) S ∧
    fetched_map (ledger_get_credential_definition ctx)
      (id_cred_def_id <$> identifiers p) D ∧
    verifier_verify_presentation ctx (presentation_request r) p S D = Ok b ∧
    verified r' = PyStr (json_dumps_bool b) ∧
    presentation r' = Some p ∧
    presentation_request r' = presentation_request r.
Proof.
  unfold verify_presentation. cbn beta zeta. intros Hrun.
  apply bind_inv in Hrun as [(? & _ & [=])|(p & w1 & Hp & Hrun)].
  apply bind_inv in Hrun as [(? & _ & [=])|(S & w2 & HS & Hrun)].
  apply bind_inv in Hrun as [(? & _ & [=])|(D & w3 & HD & Hrun)].
  apply bind_inv in Hrun as [(? & _ & [=])|([] & w4 & _ & Hrun)].
  apply bind_inv in Hrun as [(? & _ & [=])|(b & w5 & Hb & Hrun)].
  apply bind_inv in Hrun as [(? & _ & [=])|(r3 & w6 & Hsave & Hrun)].
  apply bind_inv in Hrun as [(? & _ & [=])|([] & w7 & _ & Hrun)].
  injection Hrun as <- _. injection Hb as Hb _.
  exists p, S, D, b.
  assert (Hpres : presentation r = Some p).
  { destruct (presentation r); [|done]. by injection Hp as -> _. }
  split; [done|].
  split; [by eapply fetch_schemas_map|].
  split; [by eapply fetch_credential_definitions_map|].
  split; [done|].
  apply save_result in Hsave as [[->|[_ ->]] _]; by repeat split.
Qed.

(** The statement above, on the verification of section 8. *)
Lemma verify_presentation_verdict_witness :
  ∃ (p : IndyProof) (S D : gmap string string) (b : bool),
    presentation (Scenario.received_record (Scenario.proof_revealing "21"))
      = Some p ∧
    fetched_map (ledger_get_schema Scenario.ctx)
      (id_schema_id <$> identifiers p) S ∧
    fetched_map (ledger_get_credential_definition Scenario.ctx)
      (id_cred_def_id <$> identifiers p) D ∧
    verifier_verify_presentation Scenario.ctx
      (presentation_request
         (Scenario.received_record (Scenario.proof_revealing "21")))
      p S D = Ok b ∧
    verified ExtraScenario.verified_record = PyStr (json_dumps_bool b) ∧
    presentation ExtraScenario.verified_record = Some p ∧
    presentation_request ExtraScenario.verified_record
      = presentation_request
          (Scenario.received_record (Scenario.proof_revealing "21")).
Proof.
  apply (verify_presentation_verdict Scenario.ctx
           (Scenario.received_record (Scenario.proof_revealing "21"))
           (Scenario.received_world (Scenario.proof_revealing "21"))
           ExtraScenario.verified_record
           (verify_presentation Scenario.ctx
              (Scenario.received_record (Scenario.proof_revealing "21"))
              (Scenario.received_world (Scenario.proof_revealing "21"))).2).
  apply run_eq. vm_compute. reflexivity.
Defined.

(** *** The verifier's side of an exchange, end to end *)

Lemma save_store ctx r reason w r' w' :
  save ctx r reason w = (Ok r', w') →
  match presentation_exchange_id r with
  | None => r' = set_id (length (store w)) r ∧ store w' = store w ++ [r']
  | Some i => r' = r ∧ (i < length (store w))%nat ∧
              store w' = <[i := r]> (store w)
  end.
Proof.
  unfold save. destruct (storage_save_error ctx r); [by inversion 1|].
  rewrite bind_run. cbn. destruct (presentation_exchange_id r) as [i|].
  - case_bool_decide; [|by inversion 1]. by intros [= <- <-].
  - by intros [= <- <-].
Qed.

Lemma insert_last {A} (l : list A) (x y : A) :
  <[length l := y]> (l ++ [x]) = l ++ [y].
Proof.
  rewrite insert_app_r_alt by done. by rewrite Nat.sub_diag.
Qed.

Lemma lift_inv {W A} (x : result A) (w : W) res w' :
  lift x w = (res, w') → res = x ∧ w' = w.
Proof. by intros [= <- <-]. Qed.

Lemma retrieve_last thread conn l r w :
  store w = l ++ [r] →
  (∀ r0, r0 ∈ l → thread_id r0 ≠ Some thread) →
  tag_match thread conn r = true →
  retrieve_by_tag_filter thread conn w = (Ok r, w).
Proof.
  intros Hst Hl Hr. unfold retrieve_by_tag_filter. rewrite bind_run. cbn.
  rewrite Hst, filter_app.
  assert (filter (λ r0, tag_match thread conn r0 = true) l = []) as ->.
  { clear Hst. induction l as [|r0 l IH]; [done|].
    rewrite filter_cons_False.
    - apply IH. intros. apply Hl. by right.
    - intros Hm. apply (Hl r0); [by left|]. unfold tag_match in Hm.
      apply andb_prop in Hm as [Hm _]. by apply bool_decide_eq_true in Hm. }
  rewrite filter_cons_True by done. done.
Qed.

(** X15. The verifier's four steps act on one stored record. When no
    record of the store is in the proposal's thread, [receive_proposal]
    adds one record; the request [create_bound_request] builds for it is in
    the proposal's thread; a presentation answering in the request's thread
    is matched by [receive_presentation] with that very record; and
    [verify_presentation] leaves it in state VERIFIED. After each step the
    store is the initial one followed by the one record, which keeps its id,
    its thread and the proposal. *)
Theorem verifier_flow_one_record
    (ctx : Context) (msg : PresentationProposal)
    (name version nonce comment : option string) (pres : Presentation)
    (w w1 w2 w3 w4 : World) (r1 r2 r3 r4 : V10PresentationExchange)
    (req : PresentationRequest) :
  (∀ r0, r0 ∈ store w →
     thread_id r0 ≠ Some (msg_thread_id (pp_id msg) (pp_thread msg))) →
  receive_proposal ctx msg w = (Ok r1, w1) →
  create_bound_request ctx r1 name version nonce comment w1
    = (Ok (r2, req), w2) →
  msg_thread_id (pm_id pres) (pm_thread pres)
    = msg_thread_id (rq_id req) (rq_thread req) →
  receive_presentation ctx pres w2 = (Ok r3, w3) →
  verify_presentation ctx r3 w3 = (Ok r4, w4) →
  rq_thread req = Some (msg_thread_id (pp_id msg) (pp_thread msg)) ∧
  store w1 = store w ++ [r1] ∧ store w2 = store w ++ [r2] ∧
  store w3 = store w ++ [r3] ∧ store w4 = store w ++ [r4] ∧
  presentation_exchange_id r4 = Some (length (store w)) ∧
  thread_id r4 = Some (msg_thread_id (pp_id msg) (pp_thread msg)) ∧
  presentation_proposal_dict r4 = Some msg ∧
  presentation r4 = Some (presentations_attach pres) ∧
  state r4 = Some STATE_VERIFIED.
Proof.
  intros Hfresh H1 H2 Hthr H3 H4.
  (* the proposal *)
  unfold receive_proposal in H1.
  destruct (ctx_connection_record ctx) as [conn|] eqn:Hconn; [|done].
  apply save_store in H1. cbn [presentation_exchange_id] in H1.
  destruct H1 as [Hr1 Hw1].
  (* the request *)
  unfold create_bound_request in H2. cbn beta zeta in H2.
  apply bind_inv in H2 as [(? & _ & [=])|(prop & ? & [Hprop ->]%lift_inv & H2)].
  apply bind_inv in H2 as [(? & _ & [=])|(ipr & ? & [_ ->]%lift_inv & H2)].
  apply bind_inv in H2 as [(? & _ & [=])|(r2' & w2' & Hs2 & Hret)].
  injection Hret as -> Hreq ->.
  apply save_store in Hs2. rewrite Hr1 in Hs2.
  cbn [presentation_exchange_id set_id set_thread_id set_state
       set_presentation_request thread_id msg_thread_id default
       rq_id rq_thread] in Hs2.
  destruct Hs2 as (Hr2 & _ & Hw2).
  rewrite Hw1, Hr1, insert_last, <- Hr2 in Hw2.
  assert (Hreqt : rq_thread req
                  = Some (msg_thread_id (pp_id msg) (pp_thread msg))).
  { by rewrite <- Hreq, Hr1. }
  (* the presentation *)
  assert (Hget : retrieve_by_tag_filter
                   (msg_thread_id (pm_id pres) (pm_thread pres))
                   (ctx_connection_record ctx) w2 = (Ok r2, w2)).
  { rewrite Hthr, Hreqt, Hconn. cbn [msg_thread_id default].
    apply (retrieve_last _ _ (store w)); [done|done|].
    rewrite Hr2. unfold tag_match. cbn.
    by rewrite !bool_decide_eq_true_2. }
  unfold receive_presentation in H3. cbn beta zeta in H3.
  rewrite bind_run, Hget in H3.
  apply bind_inv in H3 as [(? & _ & [=])|([] & w2' & Hchk & H3)].
  assert (w2' = w2) as ->.
  { destruct (presentation_proposal_dict r2).
    - apply bind_inv in Hchk
        as [(? & _ & [=])|(? & ? & [_ ->]%lift_inv & Hchk)].
      by apply check_loop_world in Hchk.
    - by injection Hchk. }
  apply save_store in H3.
  assert (Hid2 : presentation_exchange_id r2 = Some (length (store w)))
    by by rewrite Hr2.
  cbn [presentation_exchange_id set_state set_presentation] in H3.
  rewrite Hid2 in H3. destruct H3 as (Hr3 & _ & Hw3).
  rewrite Hw2, insert_last, <- Hr3 in Hw3.
  (* the verification *)
  unfold verify_presentation in H4. cbn beta zeta in H4.
  run_ok_plain H4. injection H4 as <-.
  match goal with Hs : save _ _ _ _ = _ |- _ => apply save_store in Hs;
    rename Hs into Hs4 end.
  cbn [presentation_exchange_id set_state set_verified] in Hs4.
  assert (Hid3 : presentation_exchange_id r3 = Some (length (store w)))
    by by rewrite Hr3.
  rewrite Hid3 in Hs4. destruct Hs4 as (Hr4 & _ & Hw4).
  store_same Hm. store_same Hm0. store_same Hm1. store_same Hm2.
  store_same Hm3. store_same Hm5. subst w4.
  rewrite Hm3, Hm2, Hm1, Hm0, Hm, Hw3, insert_last, <- Hr4 in Hw4.
  do 4 (split; [done|]). split; [by rewrite Hm5|].
  rewrite Hr4, Hr3, Hr2. by repeat split.
Qed.

(** The statement above, on the exchange of section 8 of the
    specification, from an empty store. *)
Lemma verifier_flow_one_record_witness :
  store ExtraScenario.flow_w4 = [ExtraScenario.verified_record].
Proof.
  refine (proj1 (proj2 (proj2 (proj2 (proj2
    (verifier_flow_one_record Scenario.ctx Scenario.proposal_age
       None None None None (Scenario.presentation_msg "21")
       Scenario.empty_world ExtraScenario.flow_w1 ExtraScenario.flow_w2
       ExtraScenario.flow_w3 ExtraScenario.flow_w4
       ExtraScenario.proposal_record Scenario.verifier_record
       (Scenario.received_record (Scenario.proof_revealing "21"))
       ExtraScenario.verified_record ExtraScenario.request_message
       _ _ _ _ _ _)))))).
  - intros r0 Hr0. by apply elem_of_nil in Hr0.
  - vm_compute. reflexivity.
  - vm_compute. reflexivity.
  - vm_compute. reflexivity.
  - vm_compute. reflexivity.
  - vm_compute. reflexivity.
Defined.

End PresentProofExtra.


(** * The revocation routes: errors, reads and the order of publication *)

Module RoutesExtra.
Import Effects EffectsTheory Routes RoutesFacts.
Open Scope list_scope.

Lemma emits_route_log (P : Event → Prop) e : P e → emits calls P (log e).
Proof.
  intros HP t res t' [= <- <-]. exists [e]. split; [done|]. by constructor.
Qed.

Lemma emits_bad_request (P : Event → Prop) {A} (m : M (list Event) A) :
  emits calls P m → emits calls P (bad_request_if_unsupported m).
Proof.
  intros Hm t res t'. unfold bad_request_if_unsupported.
  destruct (m t) as [[a|e] t1] eqn:Hrun.
  - intros [= <- <-]. by eapply Hm.
  - destruct e; intros [= <- <-]; by eapply Hm.
Qed.

Lemma emits_check_published (P : Event → Prop) ctx id :
  P (EvSearchRecords (CRED_DEF_SENT_RECORD_TYPE ctx) id) →
  emits calls P (check_published ctx id).
Proof.
  intros HP. unfold check_published.
  apply emits_bind; [by apply emits_route_log|intros _].
  apply emits_bind; [apply emits_lift|intros found].
  destruct found; [apply emits_throw|apply emits_ret].
Qed.

Ltac route_step :=
  first
    [ apply emits_ret | apply emits_throw | apply emits_lift
    | apply emits_check_published
    | apply emits_route_log
    | apply emits_bad_request
    | apply emits_bind; [|intros ?]
    | match goal with
      | |- emits _ _ (match ?x with _ => _ end) => destruct x eqn:?
      end ].

Ltac unfold_routes :=
  unfold revocation_create_registry, get_current_registry, get_tail_file,
    publish_registry, update_registry; cbn beta zeta.

(** X16. [get_current_registry] and [get_tail_file] only read: whatever
    the storage and the revocation subsystem answer, the two handlers search
    the storage and look the active registry up, and call nothing that
    creates, generates, publishes or saves a registry. A response they
    return is built from the record the lookup answered for the id of the
    path: the record itself, or its [tails_local_path] with status 200. *)
Theorem read_handlers_only_look_up
    (ctx : Context) (request : Request) :
  emits calls lookup_event (get_current_registry ctx request) ∧
  emits calls lookup_event (get_tail_file ctx request) ∧
  (∀ t resp t', get_current_registry ctx request t = (Ok resp, t') →
     ∃ r, get_active_issuer_revocation_record ctx (match_info_id request)
            = Ok r ∧ resp = json_response r) ∧
  (∀ t resp t', get_tail_file ctx request t = (Ok resp, t') →
     ∃ r, get_active_issuer_revocation_record ctx (match_info_id request)
            = Ok r ∧ resp = FileResponse (tails_local_path r) 200).
Proof.
  split; [|split; [|split]].
  - unfold_routes. repeat route_step; exact I.
  - unfold_routes. repeat route_step; exact I.
  - intros t resp t'. unfold_routes.
    unfold check_published, bad_request_if_unsupported, mbind, M_bind, log,
      modify, lift, mret, M_ret, mthrow, M_throw.
    destruct (search_records _ _ _) as [[|x l]|e]; [done| |done].
    destruct (get_active_issuer_revocation_record _ _) as [r|e]; cbn.
    + intros [= <- <-]. by exists r.
    + by destruct e.
  - intros t resp t'. unfold_routes.
    unfold check_published, bad_request_if_unsupported, mbind, M_bind, log,
      modify, lift, mret, M_ret, mthrow, M_throw.
    destruct (search_records _ _ _) as [[|x l]|e]; [done| |done].
    destruct (get_active_issuer_revocation_record _ _) as [r|e]; cbn.
    + intros [= <- <-]. by exists r.
    + by destruct e.
Qed.

(** The statement above, on a storage that holds the credential
    definition. *)
Lemma read_handlers_only_look_up_witness :
  ∃ r, get_active_issuer_revocation_record ExtraRoutesScenario.ctx_published
         (match_info_id RoutesScenario.request) = Ok r ∧
       FileResponse "/tmp/tails" 200 = FileResponse (tails_local_path r) 200.
Proof.
  destruct (read_handlers_only_look_up ExtraRoutesScenario.ctx_published
              RoutesScenario.request) as (_ & _ & _ & Htail).
  apply (Htail [] (FileResponse "/tmp/tails" 200)
           [EvSearchRecords "cred_def_sent" (Some "did:3:CL:12:tag");
            EvGetActiveIssuerRevocationRecord "did:3:CL:12:tag"]).
  reflexivity.
Defined.

Lemma check_published_found ctx id t x l :
  search_records ctx (CRED_DEF_SENT_RECORD_TYPE ctx) id = Ok (x :: l) →
  check_published ctx id t =
    (Ok tt, t ++ [EvSearchRecords (CRED_DEF_SENT_RECORD_TYPE ctx) id]).
Proof.
  intros Hs. unfold check_published. unfold mbind, M_bind, log, modify, lift.
  by rewrite Hs.
Qed.

Ltac route_run :=
  unfold bad_request_if_unsupported, mbind, M_bind, log, modify, lift, mret,
    M_ret, mthrow, M_throw.

(** X17. What the revocation subsystem raises inside a handler's [try] is
    what the handler raises, except [RevocationNotSupportedError], which
    becomes [HTTPBadRequest]; in both cases the handler stops there: no
    registry is generated, published or saved. For the four handlers that
    check it, the credential definition is one the storage holds. *)
Theorem lookup_failure_ends_handler
    (ctx : Context) (request : Request) (t : list Event) (e : Error)
    (x : string) (l : list string) :
  search_records ctx (CRED_DEF_SENT_RECORD_TYPE ctx)
    (Some (match_info_id request)) = Ok (x :: l) →
  get_active_issuer_revocation_record ctx (match_info_id request) = Raise e →
  get_current_registry ctx request t =
    (Raise (as_http e),
     t ++ [EvSearchRecords (CRED_DEF_SENT_RECORD_TYPE ctx)
             (Some (match_info_id request));
           EvGetActiveIssuerRevocationRecord (match_info_id request)]) ∧
  get_tail_file ctx request t =
    (Raise (as_http e),
     t ++ [EvSearchRecords (CRED_DEF_SENT_RECORD_TYPE ctx)
             (Some (match_info_id request));
           EvGetActiveIssuerRevocationRecord (match_info_id request)]) ∧
  publish_registry ctx request t =
    (Raise (as_http e),
     t ++ [EvSearchRecords (CRED_DEF_SENT_RECORD_TYPE ctx)
             (Some (match_info_id request));
           EvGetActiveIssuerRevocationRecord (match_info_id request)]) ∧
  update_registry ctx request t =
    (Raise (as_http e),
     t ++ [EvGetActiveIssuerRevocationRecord (match_info_id request)]).
Proof.
  intros Hs He.
  pose proof (check_published_found ctx _ t _ _ Hs) as Hc.
  repeat split; unfold_routes.
  - unfold mbind at 1, M_bind at 1. rewrite Hc. route_run. rewrite He.
    rewrite <- app_assoc. by destruct e.
  - unfold mbind at 1, M_bind at 1. rewrite Hc. route_run. rewrite He.
    rewrite <- app_assoc. by destruct e.
  - unfold mbind at 1, M_bind at 1. rewrite Hc. route_run. rewrite He.
    rewrite <- app_assoc. by destruct e.
  - route_run. rewrite He. by destruct e.
Qed.

(** The statement above, on a credential definition that does not support
    revocation. *)
Lemma lookup_failure_ends_handler_witness :
  publish_registry ExtraRoutesScenario.ctx_unsupported RoutesScenario.request []
  = (Raise HTTPBadRequest,
     [EvSearchRecords "cred_def_sent" (Some "did:3:CL:12:tag");
      EvGetActiveIssuerRevocationRecord "did:3:CL:12:tag"]).
Proof.
  destruct (lookup_failure_ends_handler ExtraRoutesScenario.ctx_unsupported
              RoutesScenario.request [] RevocationNotSupportedError
              "record-1" []) as (_ & _ & Hpub & _); [reflexivity..|].
  exact Hpub.
Defined.

(** *** Creating a registry *)

Lemma split_colon_head_no_colon s a b :
  split_colon_head s ≠ a +:+ String colon b.
Proof.
  revert a. induction s as [|c s IH]; intros a; cbn.
  - by destruct a.
  - case_decide as Hc.
    + by destruct a.
    + destruct a as [|c' a]; cbn.
      * intros [= -> _]. by apply Hc.
      * intros [= _ Heq]. by apply IH in Heq.
Qed.

Lemma split_colon_head_prefix s :
  s = split_colon_head s ∨
  ∃ rest, s = split_colon_head s +:+ String colon rest.
Proof.
  induction s as [|c s IH]; cbn; [by left|].
  case_decide as Hc.
  - right. exists s. by rewrite Hc.
  - destruct IH as [IH|[rest IH]].
    + left. by rewrite <- IH.
    + right. exists rest.
      change (String c s
              = String c (split_colon_head s +:+ String colon rest)).
      by rewrite <- IH.
Qed.

(** X18. [revocation_create_registry] initialises a registry only for the
    credential definition id of the body, with the [max_cred_num] of the
    body, and with, as issuer DID, the part of that id before its first
    colon: a DID without colon of which the id is the continuation. And it
    generates only the registry that the initialisation returned. *)
Theorem create_registry_issuer_did
    (ctx : Context) (request : Request) :
  emits calls
    (λ e, match e with
          | EvSearchRecords _ id => id = body_credential_definition_id request
          | EvInitIssuerRegistry cd did max =>
              body_credential_definition_id request = Some cd ∧
              max = body_max_cred_num request ∧
              (∀ a b, did ≠ a +:+ String colon b) ∧
              (cd = did ∨ ∃ rest, cd = did +:+ String colon rest)
          | EvGenerateRegistry r =>
              ∃ cd, body_credential_definition_id request = Some cd ∧
                init_issuer_registry ctx cd (split_colon_head cd)
                  (body_max_cred_num request) = Ok r
          | _ => False
          end)
    (revocation_create_registry ctx request).
Proof.
  unfold_routes.
  apply emits_bind; [by apply emits_check_published|intros _].
  intros t res t'. route_run.
  destruct (body_credential_definition_id request) as [cd|] eqn:Hcd.
  2:{ intros [= <- <-]. exists []. by rewrite app_nil_r. }
  assert (Hinit : ∀ cd0, cd = cd0 →
    Some cd0 = Some cd ∧ body_max_cred_num request = body_max_cred_num request ∧
    (∀ a b, split_colon_head cd ≠ a +:+ String colon b) ∧
    (cd = split_colon_head cd ∨
     ∃ rest, cd = split_colon_head cd +:+ String colon rest)).
  { intros ? <-. split; [done|]. split; [done|].
    split; [apply split_colon_head_no_colon|apply split_colon_head_prefix]. }
  destruct (init_issuer_registry ctx cd _ _) as [r|e] eqn:Hr; [|intros Hrun].
  - destruct (generate_registry ctx r); intros [= <- <-].
    + exists [EvInitIssuerRegistry cd (split_colon_head cd)
                (body_max_cred_num request); EvGenerateRegistry r].
      split; [by rewrite <- app_assoc|].
      constructor; [|constructor; [by exists cd|done]].
      destruct (Hinit cd eq_refl) as (_ & ? & ? & ?). done.
    + exists [EvInitIssuerRegistry cd (split_colon_head cd)
                (body_max_cred_num request); EvGenerateRegistry r].
      split; [by rewrite <- app_assoc|].
      constructor; [|constructor; [by exists cd|done]].
      destruct (Hinit cd eq_refl) as (_ & ? & ? & ?). done.
  - exists [EvInitIssuerRegistry cd (split_colon_head cd)
              (body_max_cred_num request)].
    split; [by destruct e; injection Hrun as <- <-|].
    constructor; [|done].
    destruct (Hinit cd eq_refl) as (_ & ? & ? & ?). done.
Qed.

(** X19. [revocation_create_registry] on a body without
    [credential_definition_id]: the storage is searched for the absent id;
    when that search finds records, the handler raises [AttributeError],
    which is neither of its two HTTP errors, and the revocation subsystem is
    not called. *)
Theorem create_registry_without_id
    (ctx : Context) (request : Request) (t : list Event)
    (x : string) (l : list string) :
  body_credential_definition_id request = None →
  search_records ctx (CRED_DEF_SENT_RECORD_TYPE ctx) None = Ok (x :: l) →
  revocation_create_registry ctx request t =
    (Raise AttributeError,
     t ++ [EvSearchRecords (CRED_DEF_SENT_RECORD_TYPE ctx) None]).
Proof.
  intros Hid Hs. unfold_routes. rewrite Hid.
  unfold mbind at 1, M_bind at 1.
  rewrite (check_published_found ctx None t x l Hs). by route_run.
Qed.

(** The statement above, on a storage that answers every search. *)
Lemma create_registry_without_id_witness :
  revocation_create_registry ExtraRoutesScenario.ctx_published
    ExtraRoutesScenario.request_no_id []
  = (Raise AttributeError, [EvSearchRecords "cred_def_sent" None]).
Proof.
  apply (create_registry_without_id ExtraRoutesScenario.ctx_published
           ExtraRoutesScenario.request_no_id [] "record-1" []);
    reflexivity.
Defined.

(** *** Publishing a registry *)

Lemma elem_of_middle {A} (l1 l2 : list A) (x : A) : x ∈ l1 ++ x :: l2.
Proof. apply elem_of_app. right. by left. Qed.

Ltac no_entry H :=
  exfalso;
  let Hin := fresh "Hin" in
  match type of H with
  | ?l = ?l1 ++ ?x :: ?l2 =>
      assert (Hin : x ∈ l) by (rewrite H; apply elem_of_middle);
      repeat (apply elem_of_cons in Hin as [Hin|Hin]; [discriminate Hin|]);
      by apply elem_of_nil in Hin
  end.

(** X20. [publish_registry] publishes a registry entry only for the
    active registry of the id of the path, only after the definition of that
    same registry was published and its publication succeeded, and the entry
    is the last call the handler makes. *)
Theorem publish_registry_definition_first
    (ctx : Context) (request : Request) (t t' : list Event)
    (res : result Response) (r : IssuerRevocationRecord)
    (l1 l2 : list Event) :
  publish_registry ctx request t = (res, t') →
  t' = t ++ l1 ++ EvPublishRegistryEntry r :: l2 →
  get_active_issuer_revocation_record ctx (match_info_id request) = Ok r ∧
  publish_registry_definition ctx r = Ok tt ∧
  EvPublishRegistryDefinition r ∈ l1 ∧
  l2 = [].
Proof.
  unfold_routes. unfold check_published. route_run.
  destruct (search_records _ _ _) as [[|x l]|e].
  1,3: intros [= <- <-] Ht; apply app_inv_head in Ht;
    by no_entry Ht.
  destruct (get_active_issuer_revocation_record _ _) as [r0|e] eqn:Hr0.
  2:{ rewrite <- app_assoc.
      destruct e; intros [= <- <-] Ht; apply app_inv_head in Ht;
        by no_entry Ht. }
  destruct (publish_registry_definition ctx r0) as [[]|e] eqn:Hdef.
  2:{ rewrite <- !app_assoc. intros [= <- <-] Ht; apply app_inv_head in Ht;
        by no_entry Ht. }
  assert (Hend : ∀ t0, t0 = ((((t ++ [EvSearchRecords
             (CRED_DEF_SENT_RECORD_TYPE ctx) (Some (match_info_id request))])
             ++ [EvGetActiveIssuerRevocationRecord (match_info_id request)])
             ++ [EvPublishRegistryDefinition r0])
             ++ [EvPublishRegistryEntry r0]) →
          t0 = t ++ l1 ++ EvPublishRegistryEntry r :: l2 →
          r0 = r ∧ EvPublishRegistryDefinition r ∈ l1 ∧ l2 = []).
  { intros t0 -> Ht. rewrite <- !app_assoc in Ht. cbn [app] in Ht.
    apply app_inv_head in Ht.
    destruct l1 as [|e1 [|e2 [|e3 [|e4 l1]]]]; cbn in Ht; try done.
    - injection Ht as <- <- <- <- <-. split; [done|].
      split; [|done]. do 2 (apply elem_of_cons; right). apply elem_of_cons. by left.
    - injection Ht as _ _ _ _ Ht. by destruct l1. }
  destruct (publish_registry_entry ctx r0); intros [= <- <-] Ht;
    destruct (Hend _ eq_refl Ht) as (<- & ? & ?); done.
Qed.

(** The statement above, on a run that publishes. *)
Lemma publish_registry_definition_first_witness :
  get_active_issuer_revocation_record ExtraRoutesScenario.ctx_published
    (match_info_id RoutesScenario.request) = Ok RoutesScenario.registry ∧
  publish_registry_definition ExtraRoutesScenario.ctx_published
    RoutesScenario.registry = Ok tt ∧
  EvPublishRegistryDefinition RoutesScenario.registry ∈
    [EvSearchRecords "cred_def_sent" (Some "did:3:CL:12:tag");
     EvGetActiveIssuerRevocationRecord "did:3:CL:12:tag";
     EvPublishRegistryDefinition RoutesScenario.registry] ∧
  @nil Event = [].
Proof.
  apply (publish_registry_definition_first ExtraRoutesScenario.ctx_published
           RoutesScenario.request []
           [EvSearchRecords "cred_def_sent" (Some "did:3:CL:12:tag");
            EvGetActiveIssuerRevocationRecord "did:3:CL:12:tag";
            EvPublishRegistryDefinition RoutesScenario.registry;
            EvPublishRegistryEntry RoutesScenario.registry]
           (Ok (json_response RoutesScenario.registry))
           RoutesScenario.registry
           [EvSearchRecords "cred_def_sent" (Some "did:3:CL:12:tag");
            EvGetActiveIssuerRevocationRecord "did:3:CL:12:tag";
            EvPublishRegistryDefinition RoutesScenario.registry] []);
    reflexivity.
Defined.

End RoutesExtra.
